(** * svg2png: the conversion pipeline of [svg2png.js], embedded and verified

    The development follows the classes of the script:
    - [Dom]: the element tree that [SVGProcessor.applyColorStyling] rewrites;
    - [Planner]: [SVGConverter.generateTasks];
    - [Scheduler]: [runSequential], [runParallel] and [updateStats];
    - [Fetcher]: [SVGProcessor.fetchContent] and its cache;
    - [Validation]: [ConfigManager.validateConfig] and [loadConfig];
    - [Double] and [Raster]: the centring arithmetic of
      [PNGConverter.convertWide] on double-precision numbers. *)

From Stdlib Require Import ZArith QArith Qround Qabs Qpower Lia Lqa Ascii.
From stdpp Require Import base option list strings gmap pretty.

#[local] Set Warnings "-register-all".

Close Scope Q_scope.
Close Scope Z_scope.
Open Scope string_scope.
Open Scope list_scope.
Open Scope nat_scope.

(** ** Constants of the script *)

Definition SVG_SHAPE_SELECTORS : list string :=
  ["path"; "circle"; "rect"; "ellipse"; "line"; "polyline"; "polygon"].

Definition DEFAULT_STROKE_WIDTH : string := "1.5".

(** ** JavaScript values and numbers *)

Module Js.

(** Errors thrown by the script: a computation returns a value or throws a
    message. *)
Inductive exc (A : Type) : Type :=
  | Ok (a : A)
  | Throw (message : string).
Arguments Ok {A} a.
Arguments Throw {A} message.

Definition bind {A B} (m : exc A) (k : A -> exc B) : exc B :=
  match m with
  | Ok a => k a
  | Throw e => Throw e
  end.

(** A JavaScript number as the validation and the centring code see it:
    comparisons, [Math.min] and [Math.round].  Every finite double is a
    rational, and these operations are exact on doubles, so a finite number
    is modelled by its rational value. *)
Inductive number : Type :=
  | NaN
  | PosInfinity
  | NegInfinity
  | Finite (q : Q).

Definition Qltb (a b : Q) : bool := negb (Qle_bool b a).

(** [a < b] on numbers; any comparison with [NaN] is false. *)
Definition lt (a b : number) : bool :=
  match a, b with
  | NaN, _ | _, NaN => false
  | _, NegInfinity => false
  | NegInfinity, _ => true
  | PosInfinity, _ => false
  | Finite _, PosInfinity => true
  | Finite x, Finite y => Qltb x y
  end.

(** [a > b] is [b < a]. *)
Definition gt (a b : number) : bool := lt b a.

(** [Math.min(a, b)] on numbers. *)
Definition min (a b : number) : number :=
  match a, b with
  | NaN, _ | _, NaN => NaN
  | _, _ => if lt b a then b else a
  end.

(** The values [yaml.load] produces. *)
Inductive value : Type :=
  | Undefined
  | Null
  | Bool (b : bool)
  | Number (n : number)
  | Str (s : string)
  | Array (items : list value)
  | Object (props : list (string * value)).

Definition typeof (v : value) : string :=
  match v with
  | Undefined => "undefined"
  | Null => "object"
  | Bool _ => "boolean"
  | Number _ => "number"
  | Str _ => "string"
  | Array _ => "object"
  | Object _ => "object"
  end.

(** [!v] is [negb (truthy v)]. *)
Definition truthy (v : value) : bool :=
  match v with
  | Undefined | Null => false
  | Bool b => b
  | Number NaN => false
  | Number (Finite q) => negb (Qeq_bool q 0%Q)
  | Number _ => true
  | Str s => negb (String.eqb s "")
  | Array _ | Object _ => true
  end.

Definition isArray (v : value) : bool :=
  match v with Array _ => true | _ => false end.

Fixpoint lookupProp (name : string) (props : list (string * value)) : value :=
  match props with
  | [] => Undefined
  | (k, v) :: rest => if String.eqb k name then v else lookupProp name rest
  end.

(** [v.name] for the property names the script reads ([icons], [sources],
    [settings], [source], [suffix], [size], [outputDirectory], [wide],
    [width], [height], [iconSize]): none of them is inherited from a
    prototype, so only an object can have one; reading a property of
    [undefined] or [null] throws a TypeError. *)
Definition get (v : value) (name : string) : exc value :=
  match v with
  | Undefined =>
      Throw ("Cannot read properties of undefined (reading '" +:+ name +:+ "')")
  | Null =>
      Throw ("Cannot read properties of null (reading '" +:+ name +:+ "')")
  | Object props => Ok (lookupProp name props)
  | _ => Ok Undefined
  end.

(** Whether a finite number is an integer of magnitude below [2^53]
    ([Number.isSafeInteger]). *)
Definition isSafeInteger (q : Q) : bool :=
  Qeq_bool q (inject_Z (Qfloor q)) && (Z.abs (Qfloor q) <? 2 ^ 53)%Z.

(** [String(n)] for a number.  A safe integer is written with its decimal
    digits.  [numberToString] is Number::toString on the other finite
    numbers: the shortest digits that read back as the number, in exponent
    notation from [1e21] on. *)
Definition toString (numberToString : Q -> string) (n : number) : string :=
  match n with
  | NaN => "NaN"
  | PosInfinity => "Infinity"
  | NegInfinity => "-Infinity"
  | Finite q => if isSafeInteger q then pretty (Qfloor q) else numberToString q
  end.

(** [undefined] and [null]: the values whose properties cannot be read. *)
Definition nullish (v : value) : bool :=
  match v with Undefined | Null => true | _ => false end.

(** The value of [v.name] where reading it does not throw. *)
Definition prop (v : value) (name : string) : value :=
  match v with
  | Object props => lookupProp name props
  | _ => Undefined
  end.

End Js.

(** [x ← m; k] sequences two computations that may throw. *)
#[global] Instance exc_bind : MBind Js.exc := fun A B k m => Js.bind m k.
#[global] Instance exc_ret : MRet Js.exc := fun A a => Js.Ok a.

(** ** The element tree *)

Module Dom.

(** An element carries its qualified name as the markup has it, its
    attributes in document order and its child elements.  Text nodes are left out: no selector of the script
    matches them and no attribute operation touches them. *)
#[local] Unset Elimination Schemes.
Inductive element : Type :=
  Elem (tag : string) (attrs : list (string * string)) (kids : list element).
#[local] Set Elimination Schemes.

Definition tagName (e : element) : string :=
  match e with Elem t _ _ => t end.

Definition attributes (e : element) : list (string * string) :=
  match e with Elem _ a _ => a end.

Definition childElements (e : element) : list element :=
  match e with Elem _ _ k => k end.

(** [element.getAttribute(name)]: the value of the first attribute of that
    name, [None] standing for JavaScript's [null]. *)
Fixpoint getAttribute (name : string) (a : list (string * string)) : option string :=
  match a with
  | [] => None
  | (n, v) :: rest => if String.eqb n name then Some v else getAttribute name rest
  end.

(** [element.setAttribute(name, value)]: an existing attribute keeps its
    place and takes the new value, a new one is appended. *)
Fixpoint setAttribute (name value : string) (a : list (string * string))
  : list (string * string) :=
  match a with
  | [] => [(name, value)]
  | (n, v) :: rest =>
      if String.eqb n name then (n, value) :: rest
      else (n, v) :: setAttribute name value rest
  end.

(** [element.removeAttribute(name)]. *)
Definition removeAttribute (name : string) (a : list (string * string))
  : list (string * string) :=
  List.filter (fun nv => negb (String.eqb (fst nv) name)) a.

(** The proper descendants of an element in document order: what
    [element.querySelectorAll('*')] returns.  The element itself is not
    among them. *)
Fixpoint descendants (e : element) : list element :=
  match e with
  | Elem _ _ kids => flat_map (fun k => k :: descendants k) kids
  end.

(** A selector of the script is a list of type selectors. *)
Definition matches (selectors : list string) (e : element) : bool :=
  existsb (String.eqb (tagName e)) selectors.

Definition querySelectorAll (selectors : list string) (e : element) : list element :=
  List.filter (matches selectors) (descendants e).

(** The node lists of the script are walked with [forEach] and every visit
    mutates the attributes of the visited node in place.  The tree shape
    never changes, so the walk over the descendants that match [selectors]
    is a map over the tree that leaves the context element alone. *)
Fixpoint updateSubtree (selectors : option (list string))
    (f : list (string * string) -> list (string * string)) (e : element) : element :=
  match e with
  | Elem t a kids =>
      let hit := match selectors with
                 | None => true
                 | Some sel => existsb (String.eqb t) sel
                 end in
      Elem t (if hit then f a else a) (map (updateSubtree selectors f) kids)
  end.

Definition forEachDescendant (selectors : option (list string))
    (f : list (string * string) -> list (string * string)) (e : element) : element :=
  match e with
  | Elem t a kids => Elem t a (map (updateSubtree selectors f) kids)
  end.

Definition updateRoot (f : list (string * string) -> list (string * string))
    (e : element) : element :=
  match e with Elem t a kids => Elem t (f a) kids end.

(** JavaScript truthiness of the result of [getAttribute]: [null] and the
    empty string are falsy. *)
Definition truthy (v : option string) : bool :=
  match v with
  | None => false
  | Some s => negb (String.eqb s "")
  end.

Definition isSome {A} (v : option A) : bool :=
  match v with Some _ => true | None => false end.

(** The predicate handed to [Array.some] in [applyColorStyling]. *)
Definition looksOutlined (path : element) : bool :=
  isSome (getAttribute "stroke" (attributes path))
  || match getAttribute "fill" (attributes path) with
     | Some v => String.eqb v "none"
     | None => false
     end
  || negb (truthy (getAttribute "fill" (attributes path))).

(** The classification of [applyColorStyling]: [paths] is
    [svgElement.querySelectorAll('path')]. *)
Definition isOutlineIcon (svgElement : element) : bool :=
  let paths := querySelectorAll ["path"] svgElement in
  existsb looksOutlined paths.

Definition cleanAttributes (a : list (string * string)) : list (string * string) :=
  removeAttribute "stroke-width" (removeAttribute "stroke" (removeAttribute "fill" a)).

Definition outlineRoot (color : string) (a : list (string * string)) :=
  setAttribute "stroke-width" DEFAULT_STROKE_WIDTH
    (setAttribute "fill" "none" (setAttribute "stroke" color a)).

Definition outlineShape (color : string) (a : list (string * string)) :=
  let a1 := setAttribute "fill" "none" (setAttribute "stroke" color a) in
  if truthy (getAttribute "stroke-width" a1) then a1
  else setAttribute "stroke-width" DEFAULT_STROKE_WIDTH a1.

(** [SVGProcessor.applyColorStyling(svgElement, color)]. *)
Definition applyColorStyling (svgElement : element) (color : string) : element :=
  let outline := isOutlineIcon svgElement in
  (* Clean existing attributes: allElements = svgElement.querySelectorAll('*') *)
  let cleaned := forEachDescendant None cleanAttributes svgElement in
  if outline then
    let root := updateRoot (outlineRoot color) cleaned in
    forEachDescendant (Some SVG_SHAPE_SELECTORS) (outlineShape color) root
  else
    let root := updateRoot (setAttribute "fill" color) cleaned in
    forEachDescendant (Some SVG_SHAPE_SELECTORS) (setAttribute "fill" color) root.

(** The attributes that [applyColorStyling] leaves on a descendant: the
    cleaning pass and then, on a shape, the pass of the detected style. *)
Definition restyled (outline : bool) (color : string) (e : element)
  : list (string * string) :=
  let cleaned := cleanAttributes (attributes e) in
  if matches SVG_SHAPE_SELECTORS e then
    if outline then outlineShape color cleaned else setAttribute "fill" color cleaned
  else cleaned.

(** An icon with one shape of the given kind and attributes. *)
Definition iconOf (kind : string) (attrs : list (string * string)) : element :=
  Elem "svg" [] [Elem kind attrs []].

(** [document.querySelector('svg')]: the first element named [svg] in
    document order, the document element included. *)
Definition querySelector (selector : string) (document : element) : option element :=
  head (List.filter (matches [selector]) (document :: descendants document)).

Section Serialisation.

(** Number::toString on the finite numbers that are not safe integers. *)
Variable numberToString : Q -> string.

(** [if (d) svgElement.setAttribute(name, String(d))]: nothing is set for
    a dimension that is [undefined], 0 or NaN. *)
Definition setDimension (name : string) (d : option Js.number) (e : element) : element :=
  match d with
  | Some n =>
      if Js.truthy (Js.Number n)
      then updateRoot (setAttribute name (Js.toString numberToString n)) e
      else e
  | None => e
  end.

(** [SVGProcessor.modifyContent] on the parsed document, up to the
    serialisation of the result.  [width] and [height] are numbers or
    [undefined]; [if (color)] skips [null] and the empty string. *)
Definition modifyContent (document : element) (color : option string)
    (width height : option Js.number) : Js.exc element :=
  match querySelector "svg" document with
  | None => Js.Throw "SVG modification failed: No SVG element found in content"
  | Some svgElement =>
      let sized := setDimension "height" height (setDimension "width" width svgElement) in
      match color with
      | Some c => if String.eqb c "" then Js.Ok sized else Js.Ok (applyColorStyling sized c)
      | None => Js.Ok sized
      end
  end.

End Serialisation.

End Dom.

(** ** Task planning *)

Module SourceConfig.
Record t : Type := mk { source : string; suffix : string }.
End SourceConfig.

Inductive TaskType : Type := square | wide.

(** The [options] of a task: [{ size, color }] for a square task,
    [{ width, height, iconSize, color }] for a wide one.  [color] is
    nullable. *)
Inductive TaskOptions : Type :=
  | SquareOptions (size : Js.number) (color : option string)
  | WideOptions (width height iconSize : Js.number) (color : option string).

Module Task.
Record t : Type := mk {
  type : TaskType;
  source : string;
  output : string;
  iconName : string;
  suffix : string;
  options : TaskOptions
}.
End Task.

(** The [settings] object that [run] hands to [generateTasks]. *)
Module PlanSettings.
Record t : Type := mk {
  size : Js.number;
  color : option string;
  outputDirectory : string;
  wideWidth : Js.number;
  wideHeight : Js.number;
  wideIconSize : Js.number;
  wideSuffix : string
}.
End PlanSettings.

Fixpoint dropString (n : nat) (s : string) : string :=
  match n, s with
  | O, _ => s
  | S n', String _ s' => dropString n' s'
  | S _, EmptyString => EmptyString
  end.

(** [s.replace(pattern, replacement)] for a string pattern and a
    replacement without [$] patterns: the first occurrence of the pattern,
    scanning from the left, is replaced; without an occurrence the string
    is returned as it is. *)
Fixpoint replace (pattern replacement s : string) : string :=
  if String.prefix pattern s then
    replacement +:+ dropString (String.length pattern) s
  else
    match s with
    | EmptyString => EmptyString
    | String c s' => String c (replace pattern replacement s')
    end.

Section Planner.

(** [Utils.isUrl]: whether [new URL(source)] succeeds.  [path.join] of
    Node on two segments.  Both are pure functions of their arguments. *)
Variable isUrl : string -> bool.
Variable path_join : string -> string -> string.

Definition baseName (iconName : string) : string := replace ".svg" "" iconName.

Definition fullSource (source iconName : string) : string :=
  if isUrl source then source +:+ iconName else path_join source iconName.

Definition squareOutput (settings : PlanSettings.t) (iconName suffix : string) : string :=
  path_join (PlanSettings.outputDirectory settings)
    (baseName iconName +:+ suffix +:+ ".png").

Definition wideOutput (settings : PlanSettings.t) (iconName suffix : string) : string :=
  path_join (PlanSettings.outputDirectory settings)
    (baseName iconName +:+ suffix +:+ PlanSettings.wideSuffix settings +:+ ".png").

Definition squareTask (settings : PlanSettings.t) (iconName : string)
    (sourceConfig : SourceConfig.t) : Task.t :=
  let source := SourceConfig.source sourceConfig in
  let suffix := SourceConfig.suffix sourceConfig in
  {| Task.type := square;
     Task.source := fullSource source iconName;
     Task.output := squareOutput settings iconName suffix;
     Task.iconName := iconName;
     Task.suffix := suffix;
     Task.options :=
       SquareOptions (PlanSettings.size settings) (PlanSettings.color settings) |}.

Definition wideTask (settings : PlanSettings.t) (iconName : string)
    (sourceConfig : SourceConfig.t) : Task.t :=
  let source := SourceConfig.source sourceConfig in
  let suffix := SourceConfig.suffix sourceConfig in
  {| Task.type := wide;
     Task.source := fullSource source iconName;
     Task.output := wideOutput settings iconName suffix;
     Task.iconName := iconName;
     Task.suffix := suffix;
     Task.options :=
       WideOptions (PlanSettings.wideWidth settings) (PlanSettings.wideHeight settings)
         (PlanSettings.wideIconSize settings) (PlanSettings.color settings) |}.

(** [SVGConverter.generateTasks]: two nested [for ... of] loops that push
    onto [tasks]. *)
Definition generateTasks (icons : list string) (sources : list SourceConfig.t)
    (settings : PlanSettings.t) : list Task.t :=
  fold_left
    (fun tasks iconName =>
       fold_left
         (fun tasks sourceConfig =>
            tasks ++ [squareTask settings iconName sourceConfig;
                      wideTask settings iconName sourceConfig])
         sources tasks)
    icons [].

End Planner.

(** ** Scheduling and statistics *)

Module TaskResult.
(** [{ success, output, size }] on success, [{ success, error }] on failure. *)
Record t : Type := mk {
  success : bool;
  output : option string;
  size : option Z;
  error : option string
}.
End TaskResult.

Module Stats.
Record t : Type := mk {
  total : Z;
  successful : Z;
  failed : Z;
  totalSize : Z;
  startTime : Z
}.
End Stats.

(** [this.stats] as the constructor of [SVGConverter] sets it. *)
Definition initialStats (now : Z) : Stats.t :=
  {| Stats.total := 0%Z; Stats.successful := 0%Z; Stats.failed := 0%Z;
     Stats.totalSize := 0%Z; Stats.startTime := now |}.

(** [result.size || 0]. *)
Definition sizeOrZero (size : option Z) : Z :=
  match size with
  | Some n => if Z.eqb n 0 then 0%Z else n
  | None => 0%Z
  end.

(** [SVGConverter.updateStats]. *)
Definition updateStats (stats : Stats.t) (result : TaskResult.t) : Stats.t :=
  if TaskResult.success result then
    {| Stats.total := Stats.total stats;
       Stats.successful := (Stats.successful stats + 1)%Z;
       Stats.failed := Stats.failed stats;
       Stats.totalSize := (Stats.totalSize stats + sizeOrZero (TaskResult.size result))%Z;
       Stats.startTime := Stats.startTime stats |}
  else
    {| Stats.total := Stats.total stats;
       Stats.successful := Stats.successful stats;
       Stats.failed := (Stats.failed stats + 1)%Z;
       Stats.totalSize := Stats.totalSize stats;
       Stats.startTime := Stats.startTime stats |}.

(** [this.stats.failed += 1], the rejected branch of [runParallel]. *)
Definition countFailure (stats : Stats.t) : Stats.t :=
  {| Stats.total := Stats.total stats;
     Stats.successful := Stats.successful stats;
     Stats.failed := (Stats.failed stats + 1)%Z;
     Stats.totalSize := Stats.totalSize stats;
     Stats.startTime := Stats.startTime stats |}.

(** [this.stats.total = tasks.length]. *)
Definition setTotal (stats : Stats.t) (n : Z) : Stats.t :=
  {| Stats.total := n;
     Stats.successful := Stats.successful stats;
     Stats.failed := Stats.failed stats;
     Stats.totalSize := Stats.totalSize stats;
     Stats.startTime := Stats.startTime stats |}.

(** One entry of the array [Promise.allSettled] resolves to. *)
Inductive SettledResult : Type :=
  | Fulfilled (value : TaskResult.t)
  | Rejected (reason : string).

(** What an observer of [runParallel] sees, in order: the batch announcement
    that [Logger.info] prints; the call [this.executeTask(task)] that
    [batch.map] makes for [task = tasks[index]], before
    [Promise.allSettled] is called on the promises; and, once the [await]
    on [Promise.allSettled] has returned, the entry of [results] for the
    promise of [tasks[index]], as [results.forEach] reads it. *)
Inductive Event : Type :=
  | BatchAnnounced (number count : nat)
  | Dispatched (index : nat) (task : Task.t)
  | Settled (index : nat) (result : SettledResult).

Definition BATCH_SIZE : nat := 4.

(** [tasks.slice(i, j)] for [0 <= i <= j]. *)
Definition slice {A} (i j : nat) (l : list A) : list A := take (j - i) (drop i l).

Module ParState.
Record t (World : Type) : Type := mk {
  stats : Stats.t;
  world : World;
  trace : list Event
}.
Arguments mk {World}.
Arguments stats {World}.
Arguments world {World}.
Arguments trace {World}.
End ParState.

Section Scheduler.

(** The state of everything outside the converter: network, file system,
    fetch cache. *)
Variable World : Type.

(** The bodies of the [try] blocks of [convertSquare] and [convertWide]:
    fetch, restyle, rasterise, write.  Each yields the byte length of the
    PNG buffer it wrote, or throws. *)
Variable squarePipeline :
  string -> string -> Js.number -> option string -> World -> Js.exc Z * World.
Variable widePipeline :
  string -> string -> Js.number -> Js.number -> Js.number -> option string ->
  World -> Js.exc Z * World.

(** [Promise.allSettled] on the promises of one batch, which run
    interleaved: it resolves to one entry per promise. *)
Variable allSettled :
  list (World -> TaskResult.t * World) -> World -> list SettledResult * World.

Definition succeeded (output : string) (size : Z) : TaskResult.t :=
  {| TaskResult.success := true; TaskResult.output := Some output;
     TaskResult.size := Some size; TaskResult.error := None |}.

Definition failedWith (message : string) : TaskResult.t :=
  {| TaskResult.success := false; TaskResult.output := None;
     TaskResult.size := None; TaskResult.error := Some message |}.

(** [PNGConverter.convertSquare]: whatever the body throws is caught and
    returned as a failed result. *)
Definition convertSquare (source output : string) (size : Js.number)
    (color : option string) (w : World) : TaskResult.t * World :=
  match squarePipeline source output size color w with
  | (Js.Ok n, w') => (succeeded output n, w')
  | (Js.Throw message, w') => (failedWith message, w')
  end.

(** [PNGConverter.convertWide]. *)
Definition convertWide (source output : string) (width height iconSize : Js.number)
    (color : option string) (w : World) : TaskResult.t * World :=
  match widePipeline source output width height iconSize color w with
  | (Js.Ok n, w') => (succeeded output n, w')
  | (Js.Throw message, w') => (failedWith message, w')
  end.

Definition ofZ (z : Z) : Js.number := Js.Finite (inject_Z z).

(** [SVGConverter.executeTask]: the options are destructured with the
    defaults of the converter ([size = 24]; [width = 320], [height = 180],
    [iconSize = 80]; [color = null]). *)
Definition executeTask (task : Task.t) (w : World) : TaskResult.t * World :=
  match Task.type task with
  | square =>
      match Task.options task with
      | SquareOptions size color =>
          convertSquare (Task.source task) (Task.output task) size color w
      | WideOptions _ _ _ color =>
          convertSquare (Task.source task) (Task.output task) (ofZ 24%Z) color w
      end
  | wide =>
      match Task.options task with
      | WideOptions width height iconSize color =>
          convertWide (Task.source task) (Task.output task) width height iconSize color w
      | SquareOptions _ color =>
          convertWide (Task.source task) (Task.output task)
            (ofZ 320%Z) (ofZ 180%Z) (ofZ 80%Z) color w
      end
  end.

(** [SVGConverter.runSequential]. *)
Definition runSequential (tasks : list Task.t) (st : Stats.t * World)
  : Stats.t * World :=
  fold_left
    (fun st task =>
       let '(result, w') := executeTask task (snd st) in
       (updateStats (fst st) result, w'))
    tasks st.

(** The callback of [results.forEach] in [runParallel]. *)
Definition recordSettled (stats : Stats.t) (result : SettledResult) : Stats.t :=
  match result with
  | Fulfilled value => updateStats stats value
  | Rejected _ => countFailure stats
  end.

(** One turn of the loop of [runParallel], for the batch that starts at
    index [i]: the announcement, the calls of [executeTask] on the tasks
    of the slice, and what [await Promise.allSettled] returns for their
    promises, recorded entry by entry. *)
Definition runBatch (tasks : list Task.t) (i : nat) (st : ParState.t World)
  : ParState.t World :=
  let batch := slice i (i + BATCH_SIZE) tasks in
  let announced :=
    [BatchAnnounced (i / BATCH_SIZE + 1) ((length tasks + BATCH_SIZE - 1) / BATCH_SIZE)] in
  let dispatched := imap (fun k task => Dispatched (i + k) task) batch in
  let settled := allSettled (map executeTask batch) (ParState.world st) in
  {| ParState.stats := fold_left recordSettled (fst settled) (ParState.stats st);
     ParState.world := snd settled;
     ParState.trace :=
       ParState.trace st ++ announced ++ dispatched
         ++ imap (fun k result => Settled (i + k) result) (fst settled) |}.

(** [for (let i = 0; i < tasks.length; i += BATCH_SIZE)]: [None] when the
    fuel runs out before the loop condition fails. *)
Fixpoint parallelLoop (fuel : nat) (tasks : list Task.t) (i : nat)
    (st : ParState.t World) : option (ParState.t World) :=
  if i <? length tasks then
    match fuel with
    | O => None
    | S fuel' => parallelLoop fuel' tasks (i + BATCH_SIZE) (runBatch tasks i st)
    end
  else Some st.

(** [SVGConverter.runParallel]; the loop runs at most once per task. *)
Definition runParallel (tasks : list Task.t) (st : ParState.t World)
  : option (ParState.t World) :=
  parallelLoop (length tasks) tasks 0 st.

(** The part of [SVGConverter.run] that follows [generateTasks]. *)
Definition run (parallel : bool) (tasks : list Task.t) (st : ParState.t World)
  : option (ParState.t World) :=
  let st1 :=
    {| ParState.stats := setTotal (ParState.stats st) (Z.of_nat (length tasks));
       ParState.world := ParState.world st;
       ParState.trace := ParState.trace st |} in
  if parallel then runParallel tasks st1
  else
    let '(stats, w) := runSequential tasks (ParState.stats st1, ParState.world st1) in
    Some {| ParState.stats := stats; ParState.world := w;
            ParState.trace := ParState.trace st1 |}.

End Scheduler.

(** ** Content retrieval and its cache *)

(** What the network and the file system see of the fetcher. *)
Inductive FetchEvent : Type :=
  | RetrievalStarted (source : string)
  | RetrievalSucceeded (source : string)
  | RetrievalFailed (source : string).

Module FetchState.
(** [this.cache], and the retrievals performed so far. *)
Record t : Type := mk {
  cache : gmap string string;
  log : list FetchEvent
}.
End FetchState.

(** A call of [fetchContent] suspended at its first [await]. *)
Inductive Pending : Type :=
  AwaitingRetrieval (source : string) (useCache : bool).

Definition initialFetchState : FetchState.t :=
  {| FetchState.cache := ∅; FetchState.log := [] |}.

Section Fetcher.

Variable isUrl : string -> bool.
Variable World : Type.

(** [fetch(source)] with the check of [response.ok] and [response.text()];
    the existence check with [fs.readFile].  Each yields the text or
    throws. *)
Variable httpGet : string -> World -> Js.exc string * World.
Variable readLocalFile : string -> World -> Js.exc string * World.

(** [fetchContent] up to its first [await]: the cache is consulted, and on
    a miss the retrieval is started. *)
Definition fetchContent_start (source : string) (useCache : bool) (st : FetchState.t)
  : (string + Pending) * FetchState.t :=
  match (if useCache then FetchState.cache st !! source else None) with
  | Some content => (inl content, st)
  | None =>
      (inr (AwaitingRetrieval source useCache),
       {| FetchState.cache := FetchState.cache st;
          FetchState.log := FetchState.log st ++ [RetrievalStarted source] |})
  end.

(** [fetchContent] from the point where the retrieval has come back. *)
Definition fetchContent_finish (p : Pending) (retrieved : Js.exc string)
    (st : FetchState.t) : Js.exc string * FetchState.t :=
  match p with
  | AwaitingRetrieval source useCache =>
      match retrieved with
      | Js.Ok content =>
          (Js.Ok content,
           {| FetchState.cache :=
                if useCache then <[source := content]> (FetchState.cache st)
                else FetchState.cache st;
              FetchState.log := FetchState.log st ++ [RetrievalSucceeded source] |})
      | Js.Throw message =>
          (Js.Throw ("Failed to fetch SVG from " +:+ source +:+ ": " +:+ message),
           {| FetchState.cache := FetchState.cache st;
              FetchState.log := FetchState.log st ++ [RetrievalFailed source] |})
      end
  end.

Definition retrieve (source : string) (w : World) : Js.exc string * World :=
  if isUrl source then httpGet source w else readLocalFile source w.

(** [await fetchContent(source, useCache)]: the call runs to completion
    before the caller goes on. *)
Definition fetchContent (source : string) (useCache : bool)
    (st : FetchState.t * World) : Js.exc string * (FetchState.t * World) :=
  match fetchContent_start source useCache (fst st) with
  | (inl content, st1) => (Js.Ok content, (st1, snd st))
  | (inr p, st1) =>
      let '(retrieved, w') := retrieve source (snd st) in
      let '(result, st2) := fetchContent_finish p retrieved st1 in
      (result, (st2, w'))
  end.

(** Fetches issued one after another, each awaited before the next. *)
Fixpoint fetchEach (requests : list (string * bool)) (st : FetchState.t * World)
  : list (Js.exc string) * (FetchState.t * World) :=
  match requests with
  | [] => ([], st)
  | (source, useCache) :: rest =>
      let '(result, st1) := fetchContent source useCache st in
      let '(results, st2) := fetchEach rest st1 in
      (result :: results, st2)
  end.

End Fetcher.

(** The retrievals started for [source]. *)
Definition retrievalsOf (source : string) (log : list FetchEvent) : nat :=
  length (List.filter
            (fun e => match e with
                      | RetrievalStarted s => String.eqb s source
                      | _ => false
                      end) log).

(** The retrievals of [source] that succeeded. *)
Definition successesOf (source : string) (log : list FetchEvent) : nat :=
  length (List.filter
            (fun e => match e with
                      | RetrievalSucceeded s => String.eqb s source
                      | _ => false
                      end) log).

(** ** Configuration validation *)

Definition newline : string := String (Ascii.ascii_of_nat 10) EmptyString.

Section Validation.

Import Js.

(** [ToNumber] on strings, arrays and objects: the numeric-literal grammar
    applied to the string, or to the string the object converts to. *)
Variable coerceToNumber : value -> number.

Definition ToNumber (v : value) : number :=
  match v with
  | Undefined => NaN
  | Null => Finite 0%Q
  | Bool true => Finite 1%Q
  | Bool false => Finite 0%Q
  | Number n => n
  | _ => coerceToNumber v
  end.

(** [v < n] and [v > n] against a number: the comparison is numeric. *)
Definition ltNumber (v : value) (n : number) : bool := lt (ToNumber v) n.
Definition gtNumber (v : value) (n : number) : bool := gt (ToNumber v) n.

(** [Math.min(a, b)]. *)
Definition Math_min (a b : value) : number := min (ToNumber a) (ToNumber b).

Definition isNumber (v : value) : bool := String.eqb (typeof v) "number".
Definition isString (v : value) : bool := String.eqb (typeof v) "string".

Definition arrayLength (v : value) : nat :=
  match v with Array items => length items | _ => 0 end.

Definition arrayItems (v : value) : list value :=
  match v with Array items => items | _ => [] end.

Definition validateIcons (icons : value) : list string :=
  if negb (truthy icons) || negb (isArray icons) || (arrayLength icons =? 0)
  then ["icons: must be a non-empty array"]
  else [].

Definition validateSingleSource (source : value) (index : nat) : exc (list string) :=
  s ← get source "source";
  x ← get source "suffix";
  Ok ((if negb (truthy s) || negb (isString s)
       then ["sources[" +:+ pretty index +:+ "].source: must be a non-empty string"]
       else [])
      ++
      (if negb (truthy x) || negb (isString x)
       then ["sources[" +:+ pretty index +:+ "].suffix: must be a non-empty string"]
       else [])).

(** [sources.forEach((source, index) => errors.push(...))]. *)
Fixpoint validateEachSource (items : list value) (index : nat) (errors : list string)
  : exc (list string) :=
  match items with
  | [] => Ok errors
  | source :: rest =>
      found ← validateSingleSource source index;
      validateEachSource rest (S index) (errors ++ found)
  end.

Definition validateSources (sources : value) : exc (list string) :=
  if negb (truthy sources) || negb (isArray sources) || (arrayLength sources =? 0)
  then Ok ["sources: must be a non-empty array"]
  else validateEachSource (arrayItems sources) 0 [].

Definition validateBasicSettings (settings : value) : exc (list string) :=
  size ← get settings "size";
  outputDirectory ← get settings "outputDirectory";
  Ok ((if negb (isNumber size) || ltNumber size (Finite 1%Q)
          || gtNumber size (Finite 2048%Q)
       then ["settings.size: must be a number between 1 and 2048"]
       else [])
      ++
      (if negb (truthy outputDirectory) || negb (isString outputDirectory)
       then ["settings.outputDirectory: must be a non-empty string"]
       else [])).

Definition validateWideSettings (wide : value) : exc (list string) :=
  if negb (truthy wide) then Ok []
  else
    width ← get wide "width";
    height ← get wide "height";
    iconSize ← get wide "iconSize";
    Ok ((if negb (isNumber width) || ltNumber width (Finite 1%Q)
         then ["settings.wide.width: must be a positive number"] else [])
        ++
        (if negb (isNumber height) || ltNumber height (Finite 1%Q)
         then ["settings.wide.height: must be a positive number"] else [])
        ++
        (if negb (isNumber iconSize) || ltNumber iconSize (Finite 1%Q)
         then ["settings.wide.iconSize: must be a positive number"] else [])
        ++
        (if gtNumber iconSize (Math_min width height)
         then ["settings.wide.iconSize: must be <= min(width, height)"] else [])).

Definition validateSettings (settings : value) : exc (list string) :=
  if negb (truthy settings) || negb (String.eqb (typeof settings) "object")
  then Ok ["settings: must be an object"]
  else
    basic ← validateBasicSettings settings;
    wide ← get settings "wide";
    wideErrors ← validateWideSettings wide;
    Ok (basic ++ wideErrors).

(** [ConfigManager.validateConfig]. *)
Definition validateConfig (config : value) : exc (list string) :=
  icons ← get config "icons";
  sources ← get config "sources";
  sourceErrors ← validateSources sources;
  settings ← get config "settings";
  settingErrors ← validateSettings settings;
  Ok (validateIcons icons ++ sourceErrors ++ settingErrors).

(** [ConfigManager.loadConfig] from the point where [yaml.load] has
    returned [config]; the [catch] block logs the error and throws it
    again. *)
Definition loadConfig (config : value) : exc value :=
  validationErrors ← validateConfig config;
  if 0 <? length validationErrors
  then Throw ("Configuration validation failed:" +:+ newline
              +:+ String.concat newline validationErrors)
  else Ok config.

(** [main]: the converter is built and run on the configuration that
    [loadConfig] returns; an error ends the process before that. *)
Definition main {R : Type} (runConverter : value -> R) (config : value) : exc R :=
  loaded ← loadConfig config;
  Ok (runConverter loaded).

End Validation.

(** ** Double-precision arithmetic *)

Module Double.

Definition pow2 (e : Z) : Q := (2 ^ e)%Q.

(** The integer nearest to [x], a tie going to the even one. *)
Definition roundHalfEven (x : Q) : Z :=
  let f := Qfloor x in
  match (x - inject_Z f ?= 1 # 2)%Q with
  | Lt => f
  | Gt => (f + 1)%Z
  | Eq => if Z.even f then f else (f + 1)%Z
  end.

(** The exponent [m] with [2^(m-1) <= |x| < 2^m], for [x] other than 0. *)
Definition magnitude (x : Q) : Z :=
  if Qle_bool 1 (Qabs x)
  then (Z.log2 (Qfloor (Qabs x)) + 1)%Z
  else (- Z.log2 (Qceiling (/ Qabs x) - 1))%Z.

(** The value nearest to [x] among those with 53 binary digits whose last
    digit is not below [2^-1074], a tie going to the even significand:
    what IEEE 754 rounds [x] to in binary64, as long as the result does
    not overflow. *)
Definition round (x : Q) : Q :=
  if Qeq_bool x 0 then 0%Q
  else
    let e := Z.max (magnitude x - 53) (-1074) in
    (inject_Z (roundHalfEven (x / pow2 e)) * pow2 e)%Q.

(** The number that an operation with the exact result [x] returns:
    rounded, and infinite from [2^1024] on. *)
Definition ofExact (x : Q) : Js.number :=
  if Qle_bool (pow2 1024) (Qabs (round x))
  then if Qle_bool 0 x then Js.PosInfinity else Js.NegInfinity
  else Js.Finite (round x).

(** [a - b]. *)
Definition sub (a b : Js.number) : Js.number :=
  match a, b with
  | Js.NaN, _ | _, Js.NaN => Js.NaN
  | Js.PosInfinity, Js.PosInfinity | Js.NegInfinity, Js.NegInfinity => Js.NaN
  | Js.PosInfinity, _ | _, Js.NegInfinity => Js.PosInfinity
  | Js.NegInfinity, _ | _, Js.PosInfinity => Js.NegInfinity
  | Js.Finite x, Js.Finite y => ofExact (x - y)
  end.

(** [a / 2]. *)
Definition half (a : Js.number) : Js.number :=
  match a with
  | Js.Finite x => ofExact (x / 2)
  | other => other
  end.

End Double.

(** ** Centring of the wide format *)

(** [Math.round] of a finite number: the nearest integer, a tie going
    up. *)
Definition Math_round (x : Q) : Z := Qfloor (x + (1 # 2))%Q.

(** [Math.round(a)]. *)
Definition Math_round_number (a : Js.number) : Js.number :=
  match a with
  | Js.Finite x => Js.Finite (inject_Z (Math_round x))
  | other => other
  end.

(** [Math.round((extent - iconSize) / 2)]: [left] of
    [PNGConverter.convertWide] for the width of the canvas, [top] for its
    height. *)
Definition centredOffset (extent iconSize : Js.number) : Js.number :=
  Math_round_number (Double.half (Double.sub extent iconSize)).

(** The integer that [left] and [top] are for a finite width, height and
    icon size, unless an intermediate result overflows: the difference is
    rounded to a double, and so is its half. *)
Definition compositeLeft (width iconSize : Q) : Z :=
  Math_round (Double.round (Double.round (width - iconSize) / 2))%Q.

Definition compositeTop (height iconSize : Q) : Z :=
  Math_round (Double.round (Double.round (height - iconSize) / 2))%Q.

(** ** The schedule that batching is to follow *)

Definition batchCount (n : nat) : nat := (n + BATCH_SIZE - 1) / BATCH_SIZE.

(** The calls of [executeTask] in a trace, in order. *)
Definition dispatchedTasks (events : list Event) : list (nat * Task.t) :=
  flat_map (fun e => match e with Dispatched index task => [(index, task)] | _ => [] end)
    events.

(** The settled entries in a trace, in order. *)
Definition settledResults (events : list Event) : list (nat * SettledResult) :=
  flat_map (fun e => match e with Settled index result => [(index, result)] | _ => [] end)
    events.

(** The announcements in a trace, in order. *)
Definition announcedBatches (events : list Event) : list (nat * nat) :=
  flat_map (fun e => match e with BatchAnnounced number count => [(number, count)]
                             | _ => [] end)
    events.

(** The number of calls of [executeTask] before the next announcement. *)
Fixpoint dispatchCount (events : list Event) : nat :=
  match events with
  | Dispatched _ _ :: rest => S (dispatchCount rest)
  | Settled _ _ :: rest => dispatchCount rest
  | _ => 0
  end.

(** How many tasks each announced batch dispatches. *)
Fixpoint batchSizes (events : list Event) : list nat :=
  match events with
  | [] => []
  | BatchAnnounced _ _ :: rest => dispatchCount rest :: batchSizes rest
  | _ :: rest => batchSizes rest
  end.

(** A rejection, or a result that reports no success. *)
Definition isFailure (result : SettledResult) : bool :=
  match result with
  | Fulfilled value => negb (TaskResult.success value)
  | Rejected _ => true
  end.

(** Whenever the task at [b] is dispatched, every task of an earlier batch
    has settled. *)
Definition settledBeforeNextBatch (events : list Event) : Prop :=
  forall before after a b task,
    events = before ++ Dispatched b task :: after ->
    a / BATCH_SIZE < b / BATCH_SIZE ->
    exists result, In (Settled a result) before.

(** A trace that has run the first [k] batches of [tasks] as batching is
    to run them. *)
Definition tracedUpTo (tasks : list Task.t) (k : nat) (events : list Event) : Prop :=
  k <= batchCount (length tasks)
  /\ dispatchedTasks events
     = imap (fun index task => (index, task)) (take (k * BATCH_SIZE) tasks)
  /\ map fst (settledResults events)
     = seq 0 (Nat.min (k * BATCH_SIZE) (length tasks))
  /\ announcedBatches events
     = map (fun j => (j + 1, batchCount (length tasks))) (seq 0 k)
  /\ batchSizes events
     = map (fun j => Nat.min BATCH_SIZE (length tasks - j * BATCH_SIZE)) (seq 0 k)
  /\ settledBeforeNextBatch events.

(** What one settled result adds to [totalSize]. *)
Definition recordedSize (result : SettledResult) : Z :=
  match result with
  | Fulfilled value =>
      if TaskResult.success value
      then match TaskResult.size value with Some n => n | None => 0%Z end
      else 0%Z
  | Rejected _ => 0%Z
  end.

(** The state in which [run] starts. *)
Definition startState {World : Type} (now : Z) (w : World) : ParState.t World :=
  {| ParState.stats := initialStats now; ParState.world := w; ParState.trace := [] |}.

(** Requests that all go through the cache, as the converter issues them. *)
Definition cachedRequests (sources : list string) : list (string * bool) :=
  map (fun source => (source, true)) sources.

(** With every fetch going through the cache, a source has succeeded once
    if it is cached and never otherwise. *)
Definition successesMatchCache (st : FetchState.t) : Prop :=
  forall source,
    successesOf source (FetchState.log st)
    = match FetchState.cache st !! source with Some _ => 1 | None => 0 end.

(** ** Logging levels *)

Module Logger.

(** [static levels = { ERROR: 0, WARN: 1, INFO: 2, DEBUG: 3 }]. *)
Inductive level : Type := ERROR | WARN | INFO | DEBUG.

Definition levels (l : level) : nat :=
  match l with ERROR => 0 | WARN => 1 | INFO => 2 | DEBUG => 3 end.

(** The printing methods of the logger. *)
Inductive method : Type := error | warn | info | success | debug | progress.

(** The level each method compares [currentLevel] with. *)
Definition threshold (m : method) : level :=
  match m with
  | error => ERROR
  | warn => WARN
  | info | success | progress => INFO
  | debug => DEBUG
  end.

(** [this.currentLevel >= this.levels.X]: whether a call of the method
    prints. *)
Definition prints (currentLevel : level) (m : method) : bool :=
  levels (threshold m) <=? levels currentLevel.

(** [static currentLevel = Logger.levels.INFO]. *)
Definition initialLevel : level := INFO.

End Logger.

(** ** Command line *)

Definition DEFAULT_CONFIG : string := "config.yml".

Module Options.
Record t : Type := mk {
  configFile : string;
  verbose : bool;
  parallel : bool;
  help : bool
}.
End Options.

Definition defaultOptions : Options.t :=
  {| Options.configFile := DEFAULT_CONFIG; Options.verbose := false;
     Options.parallel := false; Options.help := false |}.

(** The loop of [ArgumentParser.parse] from the argument at hand on: a
    flag moves on by one argument, [--config] by two.  The level of the
    logger is threaded along, since [--verbose] sets it. *)
Fixpoint parseArgs (args : list string) (options : Options.t) (level : Logger.level)
  : Js.exc Options.t * Logger.level :=
  match args with
  | [] => (Js.Ok options, level)
  | arg :: rest =>
      if String.eqb arg "--config" || String.eqb arg "-c" then
        match rest with
        | [] => (Js.Throw "--config option requires a file path", level)
        | file :: rest' =>
            parseArgs rest'
              {| Options.configFile := file;
                 Options.verbose := Options.verbose options;
                 Options.parallel := Options.parallel options;
                 Options.help := Options.help options |}
              level
        end
      else if String.eqb arg "--verbose" || String.eqb arg "-v" then
        parseArgs rest
          {| Options.configFile := Options.configFile options;
             Options.verbose := true;
             Options.parallel := Options.parallel options;
             Options.help := Options.help options |}
          Logger.DEBUG
      else if String.eqb arg "--parallel" || String.eqb arg "-p" then
        parseArgs rest
          {| Options.configFile := Options.configFile options;
             Options.verbose := Options.verbose options;
             Options.parallel := true;
             Options.help := Options.help options |}
          level
      else if String.eqb arg "--help" || String.eqb arg "-h" then
        parseArgs rest
          {| Options.configFile := Options.configFile options;
             Options.verbose := Options.verbose options;
             Options.parallel := Options.parallel options;
             Options.help := true |}
          level
      else (Js.Throw ("Unknown option: " +:+ arg), level)
  end.

(** How [ArgumentParser.parse] ends when it does not throw: with the
    options, or, after the help text, with [process.exit(0)]. *)
Inductive ParseOutcome : Type :=
  | Parsed (options : Options.t)
  | HelpShown.

(** [ArgumentParser.parse] on [process.argv.slice(2)], with the level the
    logger is left at. *)
Definition parse (args : list string) : Js.exc ParseOutcome * Logger.level :=
  match parseArgs args defaultOptions Logger.initialLevel with
  | (Js.Ok options, level) =>
      (Js.Ok (if Options.help options then HelpShown else Parsed options), level)
  | (Js.Throw message, level) => (Js.Throw message, level)
  end.

(** Whether one of the two spellings of a flag is among the arguments. *)
Definition hasFlag (long short : string) (args : list string) : bool :=
  existsb (fun arg => String.eqb arg long || String.eqb arg short) args.

(** The six spellings of the three flags that take no value. *)
Definition isFlag (arg : string) : bool :=
  existsb (String.eqb arg) ["--verbose"; "-v"; "--parallel"; "-p"; "--help"; "-h"].

Definition isConfigOption (arg : string) : bool :=
  String.eqb arg "--config" || String.eqb arg "-c".

(** ** File names *)

(** The characters of the class of the regular expression: the two angle
    brackets, the colon, the double quote, the slash, the backslash, the
    bar, the question mark and the star. *)
Definition forbiddenCharacters : list ascii :=
  ["<"%char; ">"%char; ":"%char; Ascii.ascii_of_nat 34; "/"%char; "\"%char;
   "|"%char; "?"%char; "*"%char].

Definition isForbidden (c : ascii) : bool := existsb (Ascii.eqb c) forbiddenCharacters.

(** [Utils.sanitizeFilename]: every character of the class is replaced by
    an underscore. *)
Fixpoint sanitizeFilename (filename : string) : string :=
  match filename with
  | EmptyString => EmptyString
  | String c rest =>
      String (if isForbidden c then "_"%char else c) (sanitizeFilename rest)
  end.

Fixpoint charsOf (s : string) : list ascii :=
  match s with
  | EmptyString => []
  | String c rest => c :: charsOf rest
  end.

(** ** Names of one path segment *)

Definition isSeparator (c : ascii) : bool :=
  Ascii.eqb c "/"%char || Ascii.eqb c "\"%char.

Definition noSeparator (s : string) : bool :=
  forallb (fun c => negb (isSeparator c)) (charsOf s).

(** A name that [path.join] keeps as the last segment of its result: it
    has no separator and is not empty, [.] or [..]. *)
Definition isPlainName (s : string) : bool :=
  noSeparator s && negb (String.eqb s "") && negb (String.eqb s ".")
  && negb (String.eqb s "..").

(** ** The kind of sources that [logInitialization] reports *)

Definition sourceType (isUrl : string -> bool) (sources : list SourceConfig.t) : string :=
  let sourceTypes := map SourceConfig.source sources in
  let hasLocal := existsb (fun s => negb (isUrl s)) sourceTypes in
  let hasRemote := existsb isUrl sourceTypes in
  let sourceType := "mixed sources" in
  let sourceType := if hasLocal && negb hasRemote then "local directories" else sourceType in
  if negb hasLocal && hasRemote then "remote URLs" else sourceType.

(** ** The dimensions that [run] derives from the settings *)

Module Derived.
Import Js.

(** [a || b]. *)
Definition orElse (a b : value) : value := if truthy a then a else b.

(** [v?.name]. *)
Definition optional (v : value) (name : string) : value :=
  if nullish v then Undefined else prop v name.

Definition wideWidth (settings : value) : value :=
  orElse (optional (prop settings "wide") "width") (Number (Finite 320%Q)).

Definition wideHeight (settings : value) : value :=
  orElse (optional (prop settings "wide") "height") (Number (Finite 180%Q)).

Definition wideIconSize (settings : value) : value :=
  orElse (optional (prop settings "wide") "iconSize") (prop settings "size").

Definition wideSuffix (settings : value) : value :=
  orElse (optional (prop settings "wide") "wideSuffix") (Str "_wide").

End Derived.

(** ** Configurations of the documented shape *)

Module WideConfig.
Record t : Type := mk {
  width : Q;
  height : Q;
  iconSize : Q;
  wideSuffix : string
}.
End WideConfig.

Module Config.
Record t : Type := mk {
  icons : list string;
  sources : list SourceConfig.t;
  size : Q;
  color : option string;
  outputDirectory : string;
  wide : option WideConfig.t
}.
End Config.

(** What [yaml.load] returns for a configuration file of the shape of the
    samples. *)
Definition sourceValue (s : SourceConfig.t) : Js.value :=
  Js.Object [("source", Js.Str (SourceConfig.source s));
             ("suffix", Js.Str (SourceConfig.suffix s))].

Definition wideValue (w : WideConfig.t) : Js.value :=
  Js.Object [("width", Js.Number (Js.Finite (WideConfig.width w)));
             ("height", Js.Number (Js.Finite (WideConfig.height w)));
             ("iconSize", Js.Number (Js.Finite (WideConfig.iconSize w)));
             ("wideSuffix", Js.Str (WideConfig.wideSuffix w))].

Definition configValue (c : Config.t) : Js.value :=
  Js.Object
    [("icons", Js.Array (map Js.Str (Config.icons c)));
     ("sources", Js.Array (map sourceValue (Config.sources c)));
     ("settings",
      Js.Object
        ([("size", Js.Number (Js.Finite (Config.size c)));
          ("color", match Config.color c with
                    | Some color => Js.Str color
                    | None => Js.Null
                    end);
          ("outputDirectory", Js.Str (Config.outputDirectory c))]
         ++ match Config.wide c with
            | Some w => [("wide", wideValue w)]
            | None => []
            end))].

(** ** What validation looks for *)

(** A value that passes for a non-empty string. *)
Definition isNonEmptyString (v : Js.value) : bool := Js.truthy v && isString v.

(** The errors that the entry at [index] of [sources] accounts for. *)
Definition entryErrors (index : nat) (source : Js.value) : list string :=
  (if isNonEmptyString (Js.prop source "source") then []
   else ["sources[" +:+ pretty index +:+ "].source: must be a non-empty string"])
  ++
  (if isNonEmptyString (Js.prop source "suffix") then []
   else ["sources[" +:+ pretty index +:+ "].suffix: must be a non-empty string"]).

(** A number that is not below 1: NaN, for which every comparison fails, is
    one of them. *)
Definition notBelowOne (n : Js.number) : Prop :=
  n = Js.NaN \/ n = Js.PosInfinity \/ exists q, n = Js.Finite q /\ (1 <= q)%Q.

(** A configuration of the documented shape whose values are in range. *)
Definition wideInRange (w : WideConfig.t) : Prop :=
  (1 <= WideConfig.width w)%Q /\ (1 <= WideConfig.height w)%Q
  /\ (1 <= WideConfig.iconSize w)%Q
  /\ (WideConfig.iconSize w <= WideConfig.width w)%Q
  /\ (WideConfig.iconSize w <= WideConfig.height w)%Q.

Definition inRange (c : Config.t) : Prop :=
  Config.icons c <> []
  /\ Config.sources c <> []
  /\ (forall s, In s (Config.sources c) ->
        SourceConfig.source s <> "" /\ SourceConfig.suffix s <> "")
  /\ (1 <= Config.size c <= 2048)%Q
  /\ Config.outputDirectory c <> ""
  /\ match Config.wide c with Some w => wideInRange w | None => True end.

(** ** Calls that start together *)

(** The calls of [fetchContent] that the tasks of one batch make: each runs
    up to its first [await] before the retrieval of any of them has come
    back. *)
Fixpoint startEach (sources : list string) (st : FetchState.t)
  : list (string + Pending) * FetchState.t :=
  match sources with
  | [] => ([], st)
  | source :: rest =>
      let '(answer, st1) := fetchContent_start source true st in
      let '(answers, st2) := startEach rest st1 in
      (answer :: answers, st2)
  end.

(** What a call that starts in the state [st] comes back with at once. *)
Definition answerOf (st : FetchState.t) (source : string) : string + Pending :=
  match FetchState.cache st !! source with
  | Some content => inl content
  | None => inr (AwaitingRetrieval source true)
  end.

(** ** Sample inputs *)

(** Whether a string is free of the character [.]. *)
Fixpoint dotFree (s : string) : bool :=
  match s with
  | EmptyString => true
  | String c s' => negb (Ascii.eqb c "."%char) && dotFree s'
  end.

(** A join of two segments that are already in normal form. *)
Definition joinNormal (a b : string) : string := a +:+ "/" +:+ b.

Definition sampleSettings : PlanSettings.t :=
  {| PlanSettings.size := Js.Finite 10%Q;
     PlanSettings.color := None;
     PlanSettings.outputDirectory := "out";
     PlanSettings.wideWidth := Js.Finite 320%Q;
     PlanSettings.wideHeight := Js.Finite 180%Q;
     PlanSettings.wideIconSize := Js.Finite 10%Q;
     PlanSettings.wideSuffix := "_wide" |}.

Definition sampleSources : list SourceConfig.t :=
  [ {| SourceConfig.source := "./icons/outline"; SourceConfig.suffix := "_outline" |};
    {| SourceConfig.source := "./icons/solid"; SourceConfig.suffix := "_solid" |} ].

(** A wide section without a width. *)
Definition wideWithoutWidth : Js.value :=
  Js.Object [("height", Js.Number (Js.Finite 180%Q));
             ("iconSize", Js.Number (Js.Finite 200%Q))].

(** A wide section whose width is [null]. *)
Definition wideWithNullWidth : Js.value :=
  Js.Object [("width", Js.Null);
             ("height", Js.Number (Js.Finite 180%Q));
             ("iconSize", Js.Number (Js.Finite 200%Q))].

(** A configuration with a size out of range and an icon wider than the
    wide canvas. *)
Definition oversizedConfig : Js.value :=
  Js.Object
    [("icons", Js.Array [Js.Str "key.svg"]);
     ("sources",
      Js.Array [Js.Object [("source", Js.Str "./icons/outline");
                           ("suffix", Js.Str "_outline")]]);
     ("settings",
      Js.Object
        [("size", Js.Number (Js.Finite 4096%Q));
         ("outputDirectory", Js.Str "dist");
         ("wide",
          Js.Object [("width", Js.Number (Js.Finite 180%Q));
                     ("height", Js.Number (Js.Finite 320%Q));
                     ("iconSize", Js.Number (Js.Finite 200%Q))])])].

(** A configuration with no icon and a size out of range whose second
    entry of [sources] is [entry]. *)
Definition configWithEntry (entry : Js.value) : Js.value :=
  Js.Object
    [("icons", Js.Array []);
     ("sources",
      Js.Array [Js.Object [("source", Js.Str "./icons/outline");
                           ("suffix", Js.Str "_outline")];
                entry]);
     ("settings",
      Js.Object
        [("size", Js.Number (Js.Finite 4096%Q));
         ("outputDirectory", Js.Str "dist")])].

(** No string, array or object converts to a number. *)
Definition neverNumeric (v : Js.value) : Js.number := Js.NaN.

(** Ten tasks: five icons from one source. *)
Definition tenTasks : list Task.t :=
  generateTasks (fun _ => false) joinNormal
    ["key.svg"; "user.svg"; "missing.svg"; "lock-closed.svg"; "bell-alert.svg"]
    [ {| SourceConfig.source := "./icons/outline"; SourceConfig.suffix := "_outline" |} ]
    sampleSettings.

(** Pipelines that fail on the icon that is missing and write a PNG of a
    fixed size otherwise. *)
Definition sampleSquarePipeline (source output : string) (size : Js.number)
    (color : option string) (w : unit) : Js.exc Z * unit :=
  if String.eqb source "./icons/outline/missing.svg"
  then (Js.Throw ("Failed to fetch SVG from " +:+ source +:+ ": File not found: "
                  +:+ source), w)
  else (Js.Ok 1024%Z, w).

Definition sampleWidePipeline (source output : string) (width height iconSize : Js.number)
    (color : option string) (w : unit) : Js.exc Z * unit :=
  if String.eqb source "./icons/outline/missing.svg"
  then (Js.Throw ("Failed to fetch SVG from " +:+ source +:+ ": File not found: "
                  +:+ source), w)
  else (Js.Ok 2048%Z, w).

(** A batch in which the first promise is rejected and the others are
    fulfilled with what they return. *)
Definition sampleAllSettled (promises : list (unit -> TaskResult.t * unit)) (w : unit)
  : list SettledResult * unit :=
  (match promises with
   | [] => []
   | _ :: rest =>
       Rejected "unexpected fault" :: map (fun promise => Fulfilled (fst (promise tt))) rest
   end, w).

(** A network on which one address is missing. *)
Definition sampleHttpGet (source : string) (w : unit) : Js.exc string * unit :=
  if String.eqb source "https://example.com/icons/missing.svg"
  then (Js.Throw "HTTP 404: Not Found", w)
  else (Js.Ok "<svg/>", w).

Definition keyUrl : string := "https://example.com/icons/key.svg".

(** An icon in the manner of the outline set: the presentation sits on the
    root, and the shapes carry geometry. *)
Definition sampleIcon : Dom.element :=
  Dom.Elem "svg"
    [("viewBox", "0 0 24 24"); ("fill", "none"); ("stroke", "currentColor")]
    [Dom.Elem "g" [("fill", "red"); ("id", "layer")]
       [Dom.Elem "path" [("stroke-linecap", "round"); ("d", "M0 0h24")] [];
        Dom.Elem "circle" [("cx", "12"); ("r", "3"); ("fill", "#000")] []]].

(** A document whose root is not the icon. *)
Definition sampleDocument : Dom.element :=
  Dom.Elem "html" [] [Dom.Elem "body" [] [sampleIcon]].

(** A configuration without a wide section, and one with it. *)
Definition sampleConfig : Config.t :=
  {| Config.icons := ["home.svg"; "key.svg"];
     Config.sources := sampleSources;
     Config.size := 512%Q;
     Config.color := Some "#075db3";
     Config.outputDirectory := "./png";
     Config.wide := None |}.

Definition sampleWideConfig : Config.t :=
  {| Config.icons := ["home.svg"];
     Config.sources := sampleSources;
     Config.size := 160%Q;
     Config.color := None;
     Config.outputDirectory := "./png";
     Config.wide :=
       Some {| WideConfig.width := 320%Q;
               WideConfig.height := 180%Q;
               WideConfig.iconSize := 160%Q;
               WideConfig.wideSuffix := "_wide" |} |}.

(** Entries of [sources] of which the second has no suffix and the third
    an empty source. *)
Definition sampleEntries : list Js.value :=
  [ Js.Object [("source", Js.Str "./icons/outline"); ("suffix", Js.Str "_outline")];
    Js.Object [("source", Js.Str "./icons/solid")];
    Js.Object [("source", Js.Str ""); ("suffix", Js.Str "_mini")] ].

(** * Properties *)

(** ** Attribute lists *)

Module DomFacts.
Import Dom.

Lemma element_ind (P : element -> Prop) :
  (forall t a kids, Forall P kids -> P (Elem t a kids)) ->
  forall e, P e.
Proof.
  intros step. fix IH 1. intros [t a kids]. apply step.
  induction kids as [|k kids IHkids]; constructor; [apply IH | exact IHkids].
Qed.

Lemma getAttribute_setAttribute_same name value a :
  getAttribute name (setAttribute name value a) = Some value.
Proof.
  induction a as [|[n v] a IH]; simpl.
  - now rewrite String.eqb_refl.
  - destruct (String.eqb n name) eqn:E; simpl; rewrite E; [reflexivity | exact IH].
Qed.

Lemma getAttribute_setAttribute_other name other value a :
  name <> other ->
  getAttribute other (setAttribute name value a) = getAttribute other a.
Proof.
  intros Hne. induction a as [|[n v] a IH]; simpl.
  - destruct (String.eqb name other) eqn:E; [|reflexivity].
    apply String.eqb_eq in E. contradiction.
  - destruct (String.eqb n name) eqn:E; simpl.
    + apply String.eqb_eq in E. subst n.
      destruct (String.eqb name other) eqn:E'; [|reflexivity].
      apply String.eqb_eq in E'. contradiction.
    + now rewrite IH.
Qed.

Lemma getAttribute_removeAttribute_same name a :
  getAttribute name (removeAttribute name a) = None.
Proof.
  unfold removeAttribute. induction a as [|[n v] a IH]; simpl; [reflexivity|].
  destruct (String.eqb n name) eqn:E; simpl; [exact IH | now rewrite E].
Qed.

Lemma getAttribute_removeAttribute_other name other a :
  name <> other ->
  getAttribute other (removeAttribute name a) = getAttribute other a.
Proof.
  intros Hne. unfold removeAttribute. induction a as [|[n v] a IH]; simpl; [reflexivity|].
  destruct (String.eqb n name) eqn:E; simpl.
  - apply String.eqb_eq in E. subst n.
    destruct (String.eqb name other) eqn:E'; [|exact IH].
    apply String.eqb_eq in E'. contradiction.
  - now rewrite IH.
Qed.

(** After the cleaning pass an element carries none of the three
    presentation attributes. *)
Lemma cleanAttributes_clears a name :
  In name ["fill"; "stroke"; "stroke-width"] ->
  getAttribute name (cleanAttributes a) = None.
Proof.
  unfold cleanAttributes. simpl. intros [<-|[<-|[<-|[]]]].
  - rewrite !getAttribute_removeAttribute_other by discriminate.
    apply getAttribute_removeAttribute_same.
  - rewrite getAttribute_removeAttribute_other by discriminate.
    apply getAttribute_removeAttribute_same.
  - apply getAttribute_removeAttribute_same.
Qed.

(** The cleaning pass leaves every other attribute alone. *)
Lemma cleanAttributes_keeps a name :
  ~ In name ["fill"; "stroke"; "stroke-width"] ->
  getAttribute name (cleanAttributes a) = getAttribute name a.
Proof.
  unfold cleanAttributes. simpl. intros Hn.
  rewrite !getAttribute_removeAttribute_other; [reflexivity| | |]; intros <-; tauto.
Qed.

Lemma outlineShape_clean color a :
  getAttribute "stroke" (outlineShape color (cleanAttributes a)) = Some color
  /\ getAttribute "fill" (outlineShape color (cleanAttributes a)) = Some "none"
  /\ getAttribute "stroke-width" (outlineShape color (cleanAttributes a))
     = Some DEFAULT_STROKE_WIDTH.
Proof.
  unfold outlineShape.
  assert (Hw : getAttribute "stroke-width"
                 (setAttribute "fill" "none"
                    (setAttribute "stroke" color (cleanAttributes a))) = None).
  { rewrite !getAttribute_setAttribute_other by discriminate.
    apply cleanAttributes_clears. simpl. tauto. }
  rewrite Hw. simpl. repeat split.
  - rewrite !getAttribute_setAttribute_other by discriminate.
    apply getAttribute_setAttribute_same.
  - rewrite getAttribute_setAttribute_other by discriminate.
    apply getAttribute_setAttribute_same.
  - apply getAttribute_setAttribute_same.
Qed.

(** ** Walking the tree *)

(** The descendants after a walk are the walked descendants. *)
Lemma descendants_updateSubtree sel f e :
  descendants (updateSubtree sel f e) = map (updateSubtree sel f) (descendants e).
Proof.
  induction e as [t a kids IH] using element_ind. simpl.
  induction IH as [|k kids Hk _ IHkids]; simpl; [reflexivity|].
  rewrite map_app, Hk, IHkids. reflexivity.
Qed.

Lemma descendants_forEachDescendant sel f e :
  descendants (forEachDescendant sel f e) = map (updateSubtree sel f) (descendants e).
Proof.
  destruct e as [t a kids]. simpl.
  induction kids as [|k kids IH]; simpl; [reflexivity|].
  rewrite map_app, descendants_updateSubtree, IH. reflexivity.
Qed.

Lemma descendants_updateRoot f e : descendants (updateRoot f e) = descendants e.
Proof. now destruct e. Qed.

Lemma tagName_updateSubtree sel f e : tagName (updateSubtree sel f e) = tagName e.
Proof. now destruct e. Qed.

Lemma attributes_updateSubtree sel f e :
  attributes (updateSubtree sel f e) =
  if match sel with None => true | Some s => matches s e end
  then f (attributes e) else attributes e.
Proof. destruct e, sel; reflexivity. Qed.

Lemma attributes_forEachDescendant sel f e :
  attributes (forEachDescendant sel f e) = attributes e.
Proof. now destruct e. Qed.

Lemma attributes_updateRoot f e : attributes (updateRoot f e) = f (attributes e).
Proof. now destruct e. Qed.

(** The descendants of the restyled icon, by name and attributes, in
    document order. *)
Lemma applyColorStyling_descendants svg color :
  map (fun e => (tagName e, attributes e)) (descendants (applyColorStyling svg color))
  = map (fun e => (tagName e, restyled (isOutlineIcon svg) color e)) (descendants svg).
Proof.
  unfold applyColorStyling.
  assert (H : forall g, 
    map (fun e => (tagName e, attributes e))
      (map (updateSubtree (Some SVG_SHAPE_SELECTORS) g)
         (map (updateSubtree None cleanAttributes) (descendants svg)))
    = map (fun e => (tagName e,
                     if matches SVG_SHAPE_SELECTORS e
                     then g (cleanAttributes (attributes e))
                     else cleanAttributes (attributes e))) (descendants svg)).
  { intros g. rewrite !map_map. apply map_ext. intros e.
    rewrite !tagName_updateSubtree, attributes_updateSubtree.
    rewrite attributes_updateSubtree.
    unfold matches. rewrite tagName_updateSubtree. reflexivity. }
  destruct (isOutlineIcon svg);
    rewrite descendants_forEachDescendant, descendants_updateRoot,
      descendants_forEachDescendant, H;
    apply map_ext; intros e; unfold restyled; reflexivity.
Qed.

(** The root of the restyled icon: its own attributes are never cleaned. *)
Lemma applyColorStyling_root svg color :
  attributes (applyColorStyling svg color) =
  if isOutlineIcon svg then outlineRoot color (attributes svg)
  else setAttribute "fill" color (attributes svg).
Proof.
  unfold applyColorStyling. destruct (isOutlineIcon svg);
    rewrite attributes_forEachDescendant, attributes_updateRoot,
      attributes_forEachDescendant; reflexivity.
Qed.

(** The classification looks at [path] descendants only. *)
Lemma isOutlineIcon_spec svg :
  isOutlineIcon svg = true <->
  exists p, In p (descendants svg) /\ tagName p = "path" /\ looksOutlined p = true.
Proof.
  unfold isOutlineIcon, querySelectorAll. rewrite existsb_exists. split.
  - intros (p & Hin & Hp). apply filter_In in Hin as [Hin Hm].
    exists p. repeat split; trivial.
    unfold matches in Hm. simpl in Hm. rewrite orb_false_r in Hm.
    now apply String.eqb_eq.
  - intros (p & Hin & Ht & Hp). exists p. split; [|exact Hp].
    apply filter_In. split; [exact Hin|].
    unfold matches. simpl. rewrite Ht. reflexivity.
Qed.

(** An icon without a [path] is solid, whatever its other shapes carry. *)
Lemma isOutlineIcon_without_path svg :
  (forall e, In e (descendants svg) -> tagName e <> "path") ->
  isOutlineIcon svg = false.
Proof.
  intros Hno. destruct (isOutlineIcon svg) eqn:E; [|reflexivity].
  apply isOutlineIcon_spec in E as (p & Hin & Ht & _).
  now apply Hno in Hin.
Qed.

End DomFacts.

(** ** Restyling *)

Module StyleFacts.
Import Dom DomFacts.

(** What a descendant carries after restyling: a shape the attributes of
    the detected style, any other element none of the three. *)
Lemma restyled_presentation outline color e :
  let a := restyled outline color e in
  if matches SVG_SHAPE_SELECTORS e then
    if outline then
      getAttribute "stroke" a = Some color
      /\ getAttribute "fill" a = Some "none"
      /\ getAttribute "stroke-width" a = Some DEFAULT_STROKE_WIDTH
    else
      getAttribute "fill" a = Some color
      /\ getAttribute "stroke" a = None
      /\ getAttribute "stroke-width" a = None
  else
    getAttribute "fill" a = None
    /\ getAttribute "stroke" a = None
    /\ getAttribute "stroke-width" a = None.
Proof.
  unfold restyled. destruct (matches SVG_SHAPE_SELECTORS e); [destruct outline|]; simpl.
  - apply outlineShape_clean.
  - rewrite getAttribute_setAttribute_same.
    rewrite !getAttribute_setAttribute_other by discriminate.
    rewrite !cleanAttributes_clears by (simpl; tauto). tauto.
  - rewrite !cleanAttributes_clears by (simpl; tauto). tauto.
Qed.

(** Under the outline style the root is given all three attributes anew. *)
Lemma applyColorStyling_root_outline svg color :
  isOutlineIcon svg = true ->
  let a := attributes (applyColorStyling svg color) in
  getAttribute "stroke" a = Some color
  /\ getAttribute "fill" a = Some "none"
  /\ getAttribute "stroke-width" a = Some DEFAULT_STROKE_WIDTH.
Proof.
  intros Ho. simpl. rewrite applyColorStyling_root, Ho. unfold outlineRoot.
  repeat split.
  - rewrite !getAttribute_setAttribute_other by discriminate.
    apply getAttribute_setAttribute_same.
  - rewrite getAttribute_setAttribute_other by discriminate.
    apply getAttribute_setAttribute_same.
  - apply getAttribute_setAttribute_same.
Qed.

(** Under the solid style the root is given the fill, and whatever stroke
    and stroke width it carried before stay on it. *)
Lemma applyColorStyling_root_solid svg color :
  isOutlineIcon svg = false ->
  let a := attributes (applyColorStyling svg color) in
  getAttribute "fill" a = Some color
  /\ getAttribute "stroke" a = getAttribute "stroke" (attributes svg)
  /\ getAttribute "stroke-width" a = getAttribute "stroke-width" (attributes svg).
Proof.
  intros Ho. simpl. rewrite applyColorStyling_root, Ho.
  rewrite getAttribute_setAttribute_same.
  rewrite !getAttribute_setAttribute_other by discriminate. tauto.
Qed.

(** C1, at the inputs where the code departs from it.  An icon whose only
    shape has fill [none] and stroke [#000] is classified as outline when
    the shape is a [path], and as solid when it is a circle, a rect, an
    ellipse, a line, a polyline or a polygon: the detection queries [path]
    elements only.  An icon whose only shape has fill [#000] and no stroke
    is solid for each of the seven kinds. *)
Theorem isOutlineIcon_by_shape_kind :
  isOutlineIcon (iconOf "path" [("fill", "none"); ("stroke", "#000")]) = true
  /\ Forall (fun kind =>
               isOutlineIcon (iconOf kind [("fill", "none"); ("stroke", "#000")]) = false)
       ["circle"; "rect"; "ellipse"; "line"; "polyline"; "polygon"]
  /\ Forall (fun kind => isOutlineIcon (iconOf kind [("fill", "#000")]) = false)
       SVG_SHAPE_SELECTORS.
Proof.
  split; [reflexivity|]. split; repeat constructor.
Qed.

(** C2, at an input where the code departs from it.  A solid icon whose
    root carries [stroke="red"] and [stroke-width="3"] keeps both after
    restyling with the colour [#075db3]: the cleaning pass walks the
    descendants of the root and not the root.  The path below the root is
    cleaned and filled as the claim says. *)
Theorem applyColorStyling_keeps_root_stroke :
  let svg := Elem "svg" [("stroke", "red"); ("stroke-width", "3")]
               [Elem "path" [("fill", "#000"); ("stroke-width", "2")] []] in
  isOutlineIcon svg = false
  /\ applyColorStyling svg "#075db3"
     = Elem "svg" [("stroke", "red"); ("stroke-width", "3"); ("fill", "#075db3")]
         [Elem "path" [("fill", "#075db3")] []]
  /\ getAttribute "stroke" (attributes (applyColorStyling svg "#075db3")) = Some "red"
  /\ getAttribute "stroke-width" (attributes (applyColorStyling svg "#075db3")) = Some "3".
Proof.
  repeat split.
Qed.

End StyleFacts.

(** ** Task planning *)

Lemma fold_left_push {A B : Type} (f : B -> list A) (l : list B) (acc : list A) :
  fold_left (fun acc x => acc ++ f x) l acc = acc ++ flat_map f l.
Proof.
  revert acc. induction l as [|x l IH]; intros acc; simpl.
  - now rewrite app_nil_r.
  - rewrite IH. now rewrite <- app_assoc.
Qed.

Lemma flat_map_length_uniform {A B : Type} (f : B -> list A) (n : nat) (l : list B) :
  (forall x, length (f x) = n) -> length (flat_map f l) = length l * n.
Proof.
  intros Hn. induction l as [|x l IH]; simpl; [reflexivity|].
  rewrite length_app, Hn, IH. reflexivity.
Qed.

(** In a concatenation of chunks of one length, chunk [i] starts at
    [i * n]. *)
Lemma flat_map_lookup_uniform {A B : Type} (f : B -> list A) (n : nat) (l : list B)
    (i k : nat) (x : B) :
  (forall x, length (f x) = n) ->
  l !! i = Some x -> k < n ->
  flat_map f l !! (i * n + k) = f x !! k.
Proof.
  intros Hn. revert i. induction l as [|y l IH]; intros i Hi Hk; [discriminate|].
  destruct i as [|i]; simpl in *.
  - injection Hi as ->. apply lookup_app_l. rewrite Hn. exact Hk.
  - rewrite lookup_app_r by (rewrite Hn; lia).
    rewrite Hn. replace (n + i * n + k - n) with (i * n + k) by lia.
    now apply IH.
Qed.

Section PlannerFacts.

Variable isUrl : string -> bool.
Variable path_join : string -> string -> string.

Lemma generateTasks_from acc icons sources settings :
  fold_left
    (fun tasks iconName =>
       fold_left
         (fun tasks sourceConfig =>
            tasks ++ [squareTask isUrl path_join settings iconName sourceConfig;
                      wideTask isUrl path_join settings iconName sourceConfig])
         sources tasks)
    icons acc
  = acc ++
    flat_map
      (fun iconName =>
         flat_map
           (fun sourceConfig =>
              [squareTask isUrl path_join settings iconName sourceConfig;
               wideTask isUrl path_join settings iconName sourceConfig])
           sources)
      icons.
Proof.
  revert acc. induction icons as [|icon icons IH]; intros acc; simpl.
  - now rewrite app_nil_r.
  - rewrite fold_left_push, IH. now rewrite <- app_assoc.
Qed.

(** The two loops emit, icon by icon and source by source, the square task
    and then the wide task. *)
Lemma generateTasks_flat_map icons sources settings :
  generateTasks isUrl path_join icons sources settings =
  flat_map
    (fun iconName =>
       flat_map
         (fun sourceConfig =>
            [squareTask isUrl path_join settings iconName sourceConfig;
             wideTask isUrl path_join settings iconName sourceConfig])
         sources)
    icons.
Proof.
  unfold generateTasks. now rewrite generateTasks_from.
Qed.

Lemma generateTasks_length icons sources settings :
  length (generateTasks isUrl path_join icons sources settings) = 2 * length icons * length sources.
Proof.
  rewrite generateTasks_flat_map.
  rewrite (flat_map_length_uniform _ (length sources * 2)).
  - lia.
  - intros icon. now rewrite (flat_map_length_uniform _ 2).
Qed.

(** The tasks of icon [i] and source [j] sit at [2 * (i * |sources| + j)]
    and the position after it. *)
Lemma generateTasks_lookup icons sources settings i j iconName sourceConfig k :
  icons !! i = Some iconName ->
  sources !! j = Some sourceConfig ->
  k < 2 ->
  generateTasks isUrl path_join icons sources settings !! (2 * (i * length sources + j) + k)
  = [squareTask isUrl path_join settings iconName sourceConfig;
     wideTask isUrl path_join settings iconName sourceConfig] !! k.
Proof.
  intros Hi Hj Hk. rewrite generateTasks_flat_map.
  assert (Hj' : j < length sources) by (apply lookup_lt_Some in Hj; exact Hj).
  replace (2 * (i * length sources + j) + k)
    with (i * (length sources * 2) + (j * 2 + k)) by lia.
  rewrite (flat_map_lookup_uniform _ (length sources * 2) icons i _ iconName);
    [ | | exact Hi | nia].
  - now apply (flat_map_lookup_uniform
                 (fun sc => [squareTask isUrl path_join settings iconName sc;
                             wideTask isUrl path_join settings iconName sc])
                 2 sources j k sourceConfig).
  - intros icon. now rewrite (flat_map_length_uniform _ 2).
Qed.

(** C3.  Planning emits [2 * |icons| * |sources|] tasks.  For the icon at
    position [i] and the source at position [j], the task at position
    [2 * (i * |sources| + j)] is the square task of that icon and source
    and the task after it is their wide task, each with the source, the
    output, the icon name, the suffix and the options that the planner
    computes for it.  Conversely the task at any position [p] is a square
    task if [p] is even and a wide task if it is odd, its icon is the one at
    [p / (2 * |sources|)] and its source the one at [(p / 2) mod |sources|]:
    the order is by icon, then by source, then square before wide.  The plan
    is a function of the icons, the sources, the settings and the two pure
    path functions. *)
Theorem generateTasks_count_and_order icons sources settings :
  length (generateTasks isUrl path_join icons sources settings)
  = 2 * length icons * length sources
  /\ (forall i j iconName sourceConfig,
        icons !! i = Some iconName ->
        sources !! j = Some sourceConfig ->
        generateTasks isUrl path_join icons sources settings
          !! (2 * (i * length sources + j))
        = Some {| Task.type := square;
                  Task.source :=
                    if isUrl (SourceConfig.source sourceConfig)
                    then SourceConfig.source sourceConfig +:+ iconName
                    else path_join (SourceConfig.source sourceConfig) iconName;
                  Task.output :=
                    path_join (PlanSettings.outputDirectory settings)
                      (replace ".svg" "" iconName
                       +:+ SourceConfig.suffix sourceConfig +:+ ".png");
                  Task.iconName := iconName;
                  Task.suffix := SourceConfig.suffix sourceConfig;
                  Task.options :=
                    SquareOptions (PlanSettings.size settings)
                      (PlanSettings.color settings) |}
        /\ generateTasks isUrl path_join icons sources settings
             !! (2 * (i * length sources + j) + 1)
           = Some {| Task.type := wide;
                     Task.source :=
                       if isUrl (SourceConfig.source sourceConfig)
                       then SourceConfig.source sourceConfig +:+ iconName
                       else path_join (SourceConfig.source sourceConfig) iconName;
                     Task.output :=
                       path_join (PlanSettings.outputDirectory settings)
                         (replace ".svg" "" iconName
                          +:+ SourceConfig.suffix sourceConfig
                          +:+ PlanSettings.wideSuffix settings +:+ ".png");
                     Task.iconName := iconName;
                     Task.suffix := SourceConfig.suffix sourceConfig;
                     Task.options :=
                       WideOptions (PlanSettings.wideWidth settings)
                         (PlanSettings.wideHeight settings)
                         (PlanSettings.wideIconSize settings)
                         (PlanSettings.color settings) |})
  /\ (forall p task,
        generateTasks isUrl path_join icons sources settings !! p = Some task ->
        Task.type task = (if Nat.even p then square else wide)
        /\ icons !! (p / (2 * length sources)) = Some (Task.iconName task)
        /\ exists sourceConfig,
             sources !! (p / 2 mod length sources) = Some sourceConfig
             /\ Task.suffix task = SourceConfig.suffix sourceConfig).
Proof.
  split; [apply generateTasks_length|]. split.
  - intros i j iconName sourceConfig Hi Hj. split.
    + rewrite <- (Nat.add_0_r (2 * _)).
      now rewrite (generateTasks_lookup _ _ _ _ _ _ _ 0 Hi Hj) by lia.
    + now rewrite (generateTasks_lookup _ _ _ _ _ _ _ 1 Hi Hj) by lia.
  - intros p task Hp.
    pose proof (lookup_lt_Some _ _ _ Hp) as Hlt. rewrite generateTasks_length in Hlt.
    assert (Hm : 0 < length sources) by (destruct (length sources); lia).
    pose proof (Nat.div_mod_eq p 2) as Hp2.
    pose proof (Nat.mod_upper_bound p 2 ltac:(lia)) as Hk.
    pose proof (Nat.div_mod_eq (p / 2) (length sources)) as Hq.
    pose proof (Nat.mod_upper_bound (p / 2) (length sources) ltac:(lia)) as Hj.
    assert (Hi : p / 2 / length sources < length icons).
    { apply Nat.Div0.div_lt_upper_bound. apply Nat.Div0.div_lt_upper_bound. lia. }
    destruct (lookup_lt_is_Some_2 icons _ Hi) as [iconName HiconName].
    destruct (lookup_lt_is_Some_2 sources _ Hj) as [sourceConfig HsourceConfig].
    pose proof (generateTasks_lookup icons sources settings _ _ iconName sourceConfig
                  (p mod 2) HiconName HsourceConfig Hk) as Hlookup.
    replace (2 * (p / 2 / length sources * length sources + p / 2 mod length sources)
             + p mod 2) with p in Hlookup by lia.
    rewrite Hp in Hlookup. rewrite <- Nat.Div0.div_div.
    assert (Heven : Nat.even p = (p mod 2 =? 0)).
    { rewrite Hp2 at 1. rewrite Nat.add_comm, Nat.even_add_mul_2.
      destruct (p mod 2) as [|[|k]]; [reflexivity | reflexivity | lia]. }
    rewrite Heven.
    destruct (p mod 2) as [|[|k]]; [| |lia]; cbn [lookup list_lookup] in Hlookup;
      injection Hlookup as ->; cbn; (split; [reflexivity|]);
      (split; [exact HiconName|]); exists sourceConfig; split;
      [exact HsourceConfig | reflexivity | exact HsourceConfig | reflexivity].
Qed.

End PlannerFacts.

Lemma generateTasks_count_and_order_witness :
  generateTasks (fun _ => false) joinNormal ["key.svg"; "user.svg"]
    sampleSources sampleSettings !! (2 * (1 * 2 + 1))
  = Some {| Task.type := square;
            Task.source := "./icons/solid/user.svg";
            Task.output := "out/user_solid.png";
            Task.iconName := "user.svg";
            Task.suffix := "_solid";
            Task.options := SquareOptions (Js.Finite 10%Q) None |}
  /\ generateTasks (fun _ => false) joinNormal ["key.svg"; "user.svg"]
       sampleSources sampleSettings !! (2 * (1 * 2 + 1) + 1)
     = Some {| Task.type := wide;
               Task.source := "./icons/solid/user.svg";
               Task.output := "out/user_solid_wide.png";
               Task.iconName := "user.svg";
               Task.suffix := "_solid";
               Task.options :=
                 WideOptions (Js.Finite 320%Q) (Js.Finite 180%Q) (Js.Finite 10%Q) None |}.
Proof.
  exact (proj1 (proj2 (generateTasks_count_and_order (fun _ => false) joinNormal
                         ["key.svg"; "user.svg"] sampleSources sampleSettings))
           1 1 "user.svg"
           {| SourceConfig.source := "./icons/solid"; SourceConfig.suffix := "_solid" |}
           eq_refl eq_refl).
Defined.

(** ** Output names *)

Lemma prefix_svg_dotFree c s :
  negb (Ascii.eqb c "."%char) = true -> String.prefix ".svg" (String c s) = false.
Proof.
  intros Hc.
  change (String.prefix ".svg" (String c s))
    with (if Ascii.ascii_dec "."%char c then String.prefix "svg" s else false).
  destruct (Ascii.ascii_dec "."%char c) as [<-|Hne].
  - now rewrite Ascii.eqb_refl in Hc.
  - reflexivity.
Qed.

(** A name whose stem has no dot loses the first [.svg], whatever follows
    it. *)
Lemma baseName_first_extension stem rest :
  dotFree stem = true -> baseName (stem +:+ ".svg" +:+ rest) = stem +:+ rest.
Proof.
  unfold baseName. induction stem as [|c stem IH]; intros Hd.
  - destruct rest; reflexivity.
  - simpl in Hd. apply andb_prop in Hd as [Hc Hd].
    change (String c stem +:+ ".svg" +:+ rest)
      with (String c (stem +:+ ".svg" +:+ rest)).
    cbn [replace]. rewrite prefix_svg_dotFree by exact Hc.
    change (String c stem +:+ rest) with (String c (stem +:+ rest)).
    f_equal. now apply IH.
Qed.

(** A name without a dot is returned as it is. *)
Lemma baseName_without_dot name : dotFree name = true -> baseName name = name.
Proof.
  unfold baseName. induction name as [|c name IH]; intros Hd; [reflexivity|].
  simpl in Hd. apply andb_prop in Hd as [Hc Hd].
  cbn [replace]. rewrite prefix_svg_dotFree by exact Hc. f_equal. now apply IH.
Qed.

(** C4, at inputs where the code departs from it.  [replace('.svg', '')]
    removes the first occurrence of [.svg], not a trailing one: the icon
    [x.svg-old.svg] is planned under the base name [x-old.svg] (a trailing
    strip gives [x.svg-old]), and [x.svgz], which has no trailing [.svg],
    is not returned unchanged but as [xz].  The square and wide outputs of
    the first are [x-old.svg_s.png] and [x-old.svg_s_wide.png] under the
    output directory. *)
Theorem baseName_removes_first_occurrence :
  baseName "x.svg-old.svg" = "x-old.svg"
  /\ baseName "x.svgz" = "xz"
  /\ baseName "key.svg" = "key"
  /\ forall isUrl path_join,
       squareOutput path_join sampleSettings "x.svg-old.svg" "_s"
       = path_join "out" "x-old.svg_s.png"
       /\ wideOutput path_join sampleSettings "x.svg-old.svg" "_s"
          = path_join "out" "x-old.svg_s_wide.png"
       /\ map Task.output
            (generateTasks isUrl path_join ["x.svg-old.svg"]
               [ {| SourceConfig.source := "./x"; SourceConfig.suffix := "_s" |} ]
               sampleSettings)
          = [path_join "out" "x-old.svg_s.png"; path_join "out" "x-old.svg_s_wide.png"].
Proof.
  repeat split.
Qed.

(** ** Statistics *)

(** Every recorded result moves exactly one of the two counters by one;
    the size is added on success only. *)
Lemma updateStats_step stats result :
  let stats' := updateStats stats result in
  (if TaskResult.success result
   then Stats.successful stats' = (Stats.successful stats + 1)%Z
        /\ Stats.failed stats' = Stats.failed stats
        /\ Stats.totalSize stats'
           = (Stats.totalSize stats + sizeOrZero (TaskResult.size result))%Z
   else Stats.successful stats' = Stats.successful stats
        /\ Stats.failed stats' = (Stats.failed stats + 1)%Z
        /\ Stats.totalSize stats' = Stats.totalSize stats)
  /\ Stats.total stats' = Stats.total stats.
Proof.
  unfold updateStats. destruct (TaskResult.success result); simpl; tauto.
Qed.

Lemma sizeOrZero_spec size :
  sizeOrZero size = match size with Some n => n | None => 0%Z end.
Proof.
  destruct size as [n|]; simpl; [|reflexivity].
  destruct (Z.eqb_spec n 0); congruence.
Qed.

Lemma recordSettled_step stats result :
  let stats' := recordSettled stats result in
  (Stats.successful stats' + Stats.failed stats'
   = Stats.successful stats + Stats.failed stats + 1)%Z
  /\ Stats.total stats' = Stats.total stats.
Proof.
  destruct result as [value|reason]; simpl.
  - unfold updateStats. destruct (TaskResult.success value); simpl; lia.
  - lia.
Qed.

Lemma recordSettled_all results stats :
  let stats' := fold_left recordSettled results stats in
  (Stats.successful stats' + Stats.failed stats'
   = Stats.successful stats + Stats.failed stats + Z.of_nat (length results))%Z
  /\ Stats.total stats' = Stats.total stats.
Proof.
  revert stats. induction results as [|r results IH]; intros stats; simpl.
  - lia.
  - destruct (IH (recordSettled stats r)) as [H1 H2].
    destruct (recordSettled_step stats r) as [H3 H4]. simpl in *. lia.
Qed.

(** ** Batches *)

Lemma slice_length {A : Type} (i j : nat) (l : list A) :
  length (slice i j l) = Nat.min (j - i) (length l - i).
Proof. unfold slice. now rewrite length_take, length_drop. Qed.

(** The batches, one after another, are the task list. *)
Lemma slices_concat {A : Type} (l : list A) (m : nat) :
  concat (map (fun k => slice (k * BATCH_SIZE) (k * BATCH_SIZE + BATCH_SIZE) l) (seq 0 m))
  = take (m * BATCH_SIZE) l.
Proof.
  induction m as [|m IH].
  - reflexivity.
  - rewrite seq_S, map_app, concat_app, IH. cbn [map concat Nat.add].
    rewrite app_nil_r. unfold slice.
    replace (m * BATCH_SIZE + BATCH_SIZE - m * BATCH_SIZE) with BATCH_SIZE by lia.
    rewrite take_take_drop. f_equal. lia.
Qed.

Lemma batchCount_covers n : n <= batchCount n * BATCH_SIZE.
Proof.
  unfold batchCount, BATCH_SIZE.
  pose proof (Nat.div_mod_eq (n + 4 - 1) 4) as H.
  pose proof (Nat.mod_upper_bound (n + 4 - 1) 4). lia.
Qed.

Lemma batchCount_lt n k : k * BATCH_SIZE < n <-> k < batchCount n.
Proof.
  unfold batchCount, BATCH_SIZE.
  pose proof (Nat.div_mod_eq (n + 4 - 1) 4) as H.
  pose proof (Nat.mod_upper_bound (n + 4 - 1) 4). lia.
Qed.

(** *** Reading a trace *)

Lemma dispatchedTasks_app l1 l2 :
  dispatchedTasks (l1 ++ l2) = dispatchedTasks l1 ++ dispatchedTasks l2.
Proof. apply flat_map_app. Qed.

Lemma settledResults_app l1 l2 :
  settledResults (l1 ++ l2) = settledResults l1 ++ settledResults l2.
Proof. apply flat_map_app. Qed.

Lemma announcedBatches_app l1 l2 :
  announcedBatches (l1 ++ l2) = announcedBatches l1 ++ announcedBatches l2.
Proof. apply flat_map_app. Qed.

Lemma dispatches_read (batch : list Task.t) : forall i,
  dispatchedTasks (imap (fun k task => Dispatched (i + k) task) batch)
  = imap (fun k task => (i + k, task)) batch
  /\ settledResults (imap (fun k task => Dispatched (i + k) task) batch) = []
  /\ announcedBatches (imap (fun k task => Dispatched (i + k) task) batch) = []
  /\ batchSizes (imap (fun k task => Dispatched (i + k) task) batch) = []
  /\ forall rest,
       dispatchCount (imap (fun k task => Dispatched (i + k) task) batch ++ rest)
       = length batch + dispatchCount rest.
Proof.
  induction batch as [|task batch IH]; intros i; [repeat split|].
  destruct (IH (S i)) as (H1 & H2 & H3 & H4 & H5).
  assert (He : imap ((fun k task => Dispatched (i + k) task) ∘ S) batch
               = imap (fun k task => Dispatched (S i + k) task) batch).
  { apply imap_ext. intros k t _. cbn. f_equal. lia. }
  assert (Hp : imap ((fun k (task : Task.t) => (i + k, task)) ∘ S) batch
               = imap (fun k task => (S i + k, task)) batch).
  { apply imap_ext. intros k t _. cbn. f_equal. lia. }
  cbn [imap]. rewrite He, Hp.
  unfold dispatchedTasks, settledResults, announcedBatches in *.
  cbn [flat_map app batchSizes dispatchCount length].
  rewrite H1, H2, H3, H4. repeat split. intros rest. rewrite H5. lia.
Qed.

Lemma settlements_read (results : list SettledResult) : forall i,
  settledResults (imap (fun k result => Settled (i + k) result) results)
  = imap (fun k result => (i + k, result)) results
  /\ dispatchedTasks (imap (fun k result => Settled (i + k) result) results) = []
  /\ announcedBatches (imap (fun k result => Settled (i + k) result) results) = []
  /\ batchSizes (imap (fun k result => Settled (i + k) result) results) = []
  /\ dispatchCount (imap (fun k result => Settled (i + k) result) results) = 0.
Proof.
  induction results as [|result results IH]; intros i; [repeat split|].
  destruct (IH (S i)) as (H1 & H2 & H3 & H4 & H5).
  assert (He : imap ((fun k result => Settled (i + k) result) ∘ S) results
               = imap (fun k result => Settled (S i + k) result) results).
  { apply imap_ext. intros k t _. cbn. f_equal. lia. }
  assert (Hp : imap ((fun k (result : SettledResult) => (i + k, result)) ∘ S) results
               = imap (fun k result => (S i + k, result)) results).
  { apply imap_ext. intros k t _. cbn. f_equal. lia. }
  cbn [imap]. rewrite He, Hp.
  unfold dispatchedTasks, settledResults, announcedBatches in *.
  cbn [flat_map app batchSizes dispatchCount].
  rewrite H1, H2, H3, H4, H5. repeat split.
Qed.

Lemma map_fst_indexed {A : Type} (l : list A) : forall i,
  map fst (imap (fun k x => (i + k, x)) l) = seq i (length l).
Proof.
  induction l as [|x l IH]; intros i; [reflexivity|].
  cbn [imap map fst length seq]. rewrite Nat.add_0_r. f_equal.
  rewrite <- (IH (S i)). f_equal. apply imap_ext. intros k y _. cbn. f_equal. lia.
Qed.

Lemma map_snd_indexed {A : Type} (l : list A) : forall i,
  map snd (imap (fun k x => (i + k, x)) l) = l.
Proof.
  induction l as [|x l IH]; intros i; [reflexivity|].
  cbn [imap map snd]. f_equal.
  rewrite <- (IH (S i)) at 2. f_equal. apply imap_ext. intros k y _. cbn. f_equal. lia.
Qed.

Lemma dispatchCount_app_announced l number count rest :
  dispatchCount (l ++ BatchAnnounced number count :: rest) = dispatchCount l.
Proof.
  induction l as [|e l IH]; [reflexivity|].
  destruct e; cbn [app dispatchCount]; [reflexivity | now rewrite IH | exact IH].
Qed.

Lemma batchSizes_app_announced l number count rest :
  batchSizes (l ++ BatchAnnounced number count :: rest)
  = batchSizes l ++ dispatchCount rest :: batchSizes rest.
Proof.
  induction l as [|e l IH]; [reflexivity|].
  destruct e; cbn [app batchSizes]; [|exact IH | exact IH].
  now rewrite dispatchCount_app_announced, IH.
Qed.

Lemma in_settledResults events index result :
  In (index, result) (settledResults events) <-> In (Settled index result) events.
Proof.
  unfold settledResults. rewrite in_flat_map. split.
  - intros (e & He & Hin). destruct e; cbn in Hin; try contradiction.
    destruct Hin as [Hin|[]]. now injection Hin as -> ->.
  - intros Hin. exists (Settled index result). split; [exact Hin | now left].
Qed.

Lemma in_dispatchedTasks events index task :
  In (index, task) (dispatchedTasks events) <-> In (Dispatched index task) events.
Proof.
  unfold dispatchedTasks. rewrite in_flat_map. split.
  - intros (e & He & Hin). destruct e; cbn in Hin; try contradiction.
    destruct Hin as [Hin|[]]. now injection Hin as -> ->.
  - intros Hin. exists (Dispatched index task). split; [exact Hin | now left].
Qed.

(** What the statistics make of the settled results. *)
Lemma recordSettled_counts results : forall stats,
  Stats.failed (fold_left recordSettled results stats)
  = (Stats.failed stats + Z.of_nat (length (List.filter isFailure results)))%Z
  /\ Stats.successful (fold_left recordSettled results stats)
     = (Stats.successful stats
        + Z.of_nat (length (List.filter (fun r => negb (isFailure r)) results)))%Z.
Proof.
  induction results as [|r results IH]; intros stats; cbn [fold_left List.filter length].
  - lia.
  - destruct (IH (recordSettled stats r)) as [H1 H2]. rewrite H1, H2.
    destruct r as [value|reason]; cbn [recordSettled isFailure negb].
    + unfold updateStats. destruct (TaskResult.success value); cbn; lia.
    + cbn. lia.
Qed.

(** *** One more batch *)

Lemma tracedUpTo_start tasks : tracedUpTo tasks 0 [].
Proof.
  unfold tracedUpTo. cbn. repeat split; try lia.
  intros before after a b task H. destruct before; discriminate.
Qed.

Lemma tracedUpTo_step tasks k events results :
  tracedUpTo tasks k events ->
  k * BATCH_SIZE < length tasks ->
  length results = length (slice (k * BATCH_SIZE) (k * BATCH_SIZE + BATCH_SIZE) tasks) ->
  tracedUpTo tasks (S k)
    (events
     ++ [BatchAnnounced (k + 1) (batchCount (length tasks))]
     ++ imap (fun j task => Dispatched (k * BATCH_SIZE + j) task)
          (slice (k * BATCH_SIZE) (k * BATCH_SIZE + BATCH_SIZE) tasks)
     ++ imap (fun j result => Settled (k * BATCH_SIZE + j) result) results).
Proof.
  intros (Hk & Hd & Hs & Ha & Hb & Ho) Hlt Hlen.
  set (batch := slice (k * BATCH_SIZE) (k * BATCH_SIZE + BATCH_SIZE) tasks) in *.
  assert (Hbatch : length batch = Nat.min BATCH_SIZE (length tasks - k * BATCH_SIZE)).
  { unfold batch. rewrite slice_length. f_equal. lia. }
  destruct (dispatches_read batch (k * BATCH_SIZE)) as (D1 & D2 & D3 & D4 & D5).
  destruct (settlements_read results (k * BATCH_SIZE)) as (S1 & S2 & S3 & S4 & S5).
  assert (Hsettled : forall a, a < Nat.min (k * BATCH_SIZE) (length tasks) ->
                       exists result, In (Settled a result) events).
  { intros a Ha'.
    assert (Hin : In a (map fst (settledResults events)))
      by (rewrite Hs; apply in_seq; lia).
    apply in_map_iff in Hin as ([a' result] & Heq & Hin). cbn in Heq. subst a'.
    exists result. now apply in_settledResults. }
  split; [apply batchCount_lt in Hlt; lia|]. split; [|split; [|split; [|split]]].
  - rewrite !dispatchedTasks_app, Hd, D1, S2. cbn [dispatchedTasks flat_map app].
    rewrite app_nil_r.
    replace (S k * BATCH_SIZE) with (k * BATCH_SIZE + BATCH_SIZE) by lia.
    rewrite <- (take_take_drop _ (k * BATCH_SIZE) BATCH_SIZE), imap_app.
    f_equal. rewrite length_take.
    replace (Nat.min (k * BATCH_SIZE) (length tasks)) with (k * BATCH_SIZE) by lia.
    unfold batch, slice.
    replace (k * BATCH_SIZE + BATCH_SIZE - k * BATCH_SIZE) with BATCH_SIZE by lia.
    apply imap_ext. intros j t _. reflexivity.
  - rewrite !settledResults_app, !map_app, Hs, D2, S1, map_fst_indexed.
    cbn [settledResults flat_map map app]. rewrite Hlen, Hbatch.
    replace (Nat.min (k * BATCH_SIZE) (length tasks)) with (k * BATCH_SIZE) by lia.
    replace (Nat.min (S k * BATCH_SIZE) (length tasks))
      with (k * BATCH_SIZE + Nat.min BATCH_SIZE (length tasks - k * BATCH_SIZE))
      by (unfold BATCH_SIZE in *; lia).
    now rewrite seq_app.
  - rewrite !announcedBatches_app, Ha, D3, S3. cbn [announcedBatches flat_map app].
    now rewrite seq_S, map_app.
  - cbn [app]. rewrite batchSizes_app_announced, Hb, D5, S5, Nat.add_0_r.
    assert (Hnone : batchSizes
                      (imap (fun j task => Dispatched (k * BATCH_SIZE + j) task) batch
                       ++ imap (fun j result => Settled (k * BATCH_SIZE + j) result)
                            results) = []).
    { clear -D4 S4. revert D4.
      generalize (imap (fun j task => Dispatched (k * BATCH_SIZE + j) task) batch).
      intros l. induction l as [|e l IH]; intros Hl; [exact S4|].
      destruct e; cbn [app batchSizes] in *; [discriminate | now apply IH | now apply IH]. }
    rewrite Hnone, seq_S, map_app. cbn [map Nat.add].
    now rewrite Hbatch.
  - intros before after a b task Heq Hab.
    apply app_eq_app in Heq as [l [[H1 H2]|[H1 H2]]].
    + destruct l as [|e l].
      * cbn [app] in H2. discriminate.
      * injection H2 as He H2. subst e.
        apply (Ho before l a b task); [exact H1 | exact Hab].
    + assert (Hin : In (Dispatched b task)
                      (imap (fun j task => Dispatched (k * BATCH_SIZE + j) task) batch)).
      { assert (Hin : In (Dispatched b task)
                        ([BatchAnnounced (k + 1) (batchCount (length tasks))]
                         ++ imap (fun j task => Dispatched (k * BATCH_SIZE + j) task) batch
                         ++ imap (fun j result => Settled (k * BATCH_SIZE + j) result)
                              results))
          by (rewrite H2; apply in_or_app; right; now left).
        cbn [app] in Hin. destruct Hin as [Hin|Hin]; [discriminate|].
        apply in_app_or in Hin as [Hin|Hin]; [exact Hin|].
        apply in_dispatchedTasks in Hin. now rewrite S2 in Hin. }
      apply in_dispatchedTasks in Hin. rewrite D1 in Hin.
      assert (Hb' : In b (map fst (imap (fun j (task : Task.t) => (k * BATCH_SIZE + j, task))
                                     batch)))
        by (apply in_map_iff; now exists (b, task)).
      rewrite map_fst_indexed in Hb'. apply in_seq in Hb'.
      destruct (Hsettled a) as [result Hr].
      { unfold BATCH_SIZE in *.
        pose proof (Nat.div_mod_eq a 4). pose proof (Nat.mod_upper_bound a 4).
        pose proof (Nat.div_mod_eq b 4). pose proof (Nat.mod_upper_bound b 4).
        assert (b / 4 = k) by lia.
        lia. }
      exists result. rewrite H1. apply in_or_app. now left.
Qed.

Section SchedulerFacts.

Variable World : Type.
Variable squarePipeline :
  string -> string -> Js.number -> option string -> World -> Js.exc Z * World.
Variable widePipeline :
  string -> string -> Js.number -> Js.number -> Js.number -> option string ->
  World -> Js.exc Z * World.
Variable allSettled :
  list (World -> TaskResult.t * World) -> World -> list SettledResult * World.

(** Whatever happens inside a task, [executeTask] returns a result: a
    failure of the pipeline is a failed result, not an exception. *)
Lemma executeTask_failure_is_result task w :
  let result := fst (executeTask World squarePipeline widePipeline task w) in
  TaskResult.success result = true /\ TaskResult.error result = None
  \/ TaskResult.success result = false /\ TaskResult.size result = None.
Proof.
  unfold executeTask, convertSquare, convertWide.
  destruct (Task.type task), (Task.options task);
    match goal with |- context [match ?p with _ => _ end] =>
      destruct p as [[n|msg] w'] end; simpl; tauto.
Qed.

(** The loop ends. *)
Lemma parallelLoop_ends tasks fuel : forall k st,
  length tasks <= (k + fuel) * BATCH_SIZE ->
  exists st',
    parallelLoop World squarePipeline widePipeline allSettled fuel tasks
      (k * BATCH_SIZE) st = Some st'.
Proof.
  induction fuel as [|fuel IH]; intros k st Hfuel; cbn [parallelLoop];
    destruct (Nat.ltb_spec (k * BATCH_SIZE) (length tasks)) as [Hlt|Hge];
    try (now exists st); [lia|].
  destruct (IH (S k)
              (runBatch World squarePipeline widePipeline allSettled tasks
                 (k * BATCH_SIZE) st)) as [st' Hrun]; [lia|].
  exists st'. now replace (k * BATCH_SIZE + BATCH_SIZE) with (S k * BATCH_SIZE) by lia.
Qed.

(** [Promise.allSettled] resolves to an array with one entry for each
    promise it was given. *)
Hypothesis allSettled_length :
  forall promises w, length (fst (allSettled promises w)) = length promises.

Lemma runBatch_trace tasks k st :
  ParState.trace
    (runBatch World squarePipeline widePipeline allSettled tasks (k * BATCH_SIZE) st)
  = ParState.trace st
    ++ [BatchAnnounced (k + 1) (batchCount (length tasks))]
    ++ imap (fun j task => Dispatched (k * BATCH_SIZE + j) task)
         (slice (k * BATCH_SIZE) (k * BATCH_SIZE + BATCH_SIZE) tasks)
    ++ imap (fun j result => Settled (k * BATCH_SIZE + j) result)
         (fst (allSettled
                 (map (executeTask World squarePipeline widePipeline)
                    (slice (k * BATCH_SIZE) (k * BATCH_SIZE + BATCH_SIZE) tasks))
                 (ParState.world st))).
Proof.
  unfold runBatch, batchCount. cbn [ParState.trace].
  now rewrite Nat.div_mul by (unfold BATCH_SIZE; lia).
Qed.

(** The loop runs the remaining batches as batching is to run them, and
    the statistics are those of the settled results in the trace. *)
Lemma parallelLoop_traced tasks trace0 stats0 fuel : forall k st events,
  length tasks <= (k + fuel) * BATCH_SIZE ->
  ParState.trace st = trace0 ++ events ->
  tracedUpTo tasks k events ->
  ParState.stats st = fold_left recordSettled (map snd (settledResults events)) stats0 ->
  exists st' events',
    parallelLoop World squarePipeline widePipeline allSettled fuel tasks
      (k * BATCH_SIZE) st = Some st'
    /\ ParState.trace st' = trace0 ++ events'
    /\ tracedUpTo tasks (batchCount (length tasks)) events'
    /\ ParState.stats st'
       = fold_left recordSettled (map snd (settledResults events')) stats0.
Proof.
  assert (Hexit : forall k (st : ParState.t World) events,
            length tasks <= k * BATCH_SIZE ->
            ParState.trace st = trace0 ++ events ->
            tracedUpTo tasks k events ->
            ParState.stats st
            = fold_left recordSettled (map snd (settledResults events)) stats0 ->
            exists st' events',
              Some st = Some st'
              /\ ParState.trace st' = trace0 ++ events'
              /\ tracedUpTo tasks (batchCount (length tasks)) events'
              /\ ParState.stats st'
                 = fold_left recordSettled (map snd (settledResults events')) stats0).
  { intros k st events Hge Htrace Hinv Hstats. exists st, events.
    split; [reflexivity|]. split; [exact Htrace|]. split; [|exact Hstats].
    assert (Hk : k = batchCount (length tasks)).
    { destruct Hinv as [Hk _].
      assert (~ k < batchCount (length tasks)) by (rewrite <- batchCount_lt; lia). lia. }
    now rewrite <- Hk. }
  induction fuel as [|fuel IH]; intros k st events Hfuel Htrace Hinv Hstats;
    cbn [parallelLoop];
    destruct (Nat.ltb_spec (k * BATCH_SIZE) (length tasks)) as [Hlt|Hge];
    try (now apply (Hexit k st events)); [lia|].
  set (batch := slice (k * BATCH_SIZE) (k * BATCH_SIZE + BATCH_SIZE) tasks).
  set (results := fst (allSettled
                         (map (executeTask World squarePipeline widePipeline) batch)
                         (ParState.world st))).
  assert (Hlen : length results = length batch)
    by (unfold results; now rewrite allSettled_length, length_map).
  pose proof (tracedUpTo_step tasks k events results Hinv Hlt Hlen) as Hnext.
  replace (k * BATCH_SIZE + BATCH_SIZE) with (S k * BATCH_SIZE) by lia.
  refine (IH (S k) _ _ _ _ Hnext _); [lia | |].
  - rewrite runBatch_trace, Htrace, <- app_assoc. reflexivity.
  - unfold runBatch. cbn [ParState.stats]. fold batch. fold results. rewrite Hstats.
    rewrite !settledResults_app, !map_app, !fold_left_app.
    destruct (dispatches_read batch (k * BATCH_SIZE)) as (_ & D2 & _).
    destruct (settlements_read results (k * BATCH_SIZE)) as (S1 & _).
    fold batch. rewrite D2, S1, map_snd_indexed. reflexivity.
Qed.

(** C5.  In batched mode the run ends normally whatever the tasks do: the
    outcomes that [Promise.allSettled] reports are arbitrary (fulfilled
    with a success, fulfilled with a failure, or rejected).  Every task is
    dispatched exactly once, in planned order, and has exactly one settled
    entry.  A batch is announced, its tasks are dispatched, and the
    entries of all of them are there before the next batch is announced:
    whenever a task is dispatched, every task of an earlier batch has
    settled.  The batches number [ceil(n / 4)] and dispatch the tasks in
    slices of four, the last one what remains: between one and four tasks,
    and four in every batch before the last.  The statistics at the end
    are those of recording the settled entries one by one: every rejection
    and every failed result counts as one failure, the others as one
    success.  Ten tasks run as three batches of 4, 4 and 2 tasks. *)
Theorem runParallel_batches tasks st :
  exists st' events,
    runParallel World squarePipeline widePipeline allSettled tasks st = Some st'
    /\ ParState.trace st' = ParState.trace st ++ events
    /\ dispatchedTasks events = imap (fun index task => (index, task)) tasks
    /\ map fst (settledResults events) = seq 0 (length tasks)
    /\ settledBeforeNextBatch events
    /\ announcedBatches events
       = map (fun k => (k + 1, batchCount (length tasks)))
           (seq 0 (batchCount (length tasks)))
    /\ batchSizes events
       = map (fun k => Nat.min BATCH_SIZE (length tasks - k * BATCH_SIZE))
           (seq 0 (batchCount (length tasks)))
    /\ (forall k size,
          batchSizes events !! k = Some size ->
          1 <= size <= 4 /\ (k + 1 < batchCount (length tasks) -> size = 4))
    /\ ParState.stats st'
       = fold_left recordSettled (map snd (settledResults events)) (ParState.stats st)
    /\ Stats.failed (ParState.stats st')
       = (Stats.failed (ParState.stats st)
          + Z.of_nat (length (List.filter isFailure (map snd (settledResults events)))))%Z
    /\ Stats.successful (ParState.stats st')
       = (Stats.successful (ParState.stats st)
          + Z.of_nat (length (List.filter (fun r => negb (isFailure r))
                                (map snd (settledResults events)))))%Z
    /\ (length tasks = 10 -> batchSizes events = [4; 4; 2]).
Proof.
  destruct (parallelLoop_traced tasks (ParState.trace st) (ParState.stats st)
              (length tasks) 0 st [])
    as (st' & events & Hrun & Htrace & Hinv & Hstats).
  { unfold BATCH_SIZE. lia. }
  { now rewrite app_nil_r. }
  { apply tracedUpTo_start. }
  { reflexivity. }
  destruct Hinv as (_ & Hd & Hs & Ha & Hb & Ho).
  pose proof (batchCount_covers (length tasks)) as Hcover.
  exists st', events. split; [exact Hrun|]. split; [exact Htrace|].
  split; [now rewrite Hd, take_ge by exact Hcover|].
  split; [rewrite Hs; f_equal; lia|].
  split; [exact Ho|]. split; [exact Ha|]. split; [exact Hb|].
  split.
  { intros k size Hk. rewrite Hb in Hk.
    apply list_lookup_fmap_Some in Hk as (j & -> & Hj).
    apply lookup_seq in Hj as [-> Hlt]. cbn [Nat.add].
    apply batchCount_lt in Hlt. split; [unfold BATCH_SIZE in *; lia|].
    intros Hnext. apply batchCount_lt in Hnext. unfold BATCH_SIZE in *. lia. }
  split; [exact Hstats|].
  destruct (recordSettled_counts (map snd (settledResults events)) (ParState.stats st))
    as [Hfailed Hsucceeded].
  rewrite Hstats. split; [exact Hfailed|]. split; [exact Hsucceeded|].
  intros Hten. rewrite Hb, Hten. reflexivity.
Qed.

Lemma runBatch_stats tasks i st :
  let st' := runBatch World squarePipeline widePipeline allSettled tasks i st in
  (Stats.successful (ParState.stats st') + Stats.failed (ParState.stats st')
   = Stats.successful (ParState.stats st) + Stats.failed (ParState.stats st)
     + Z.of_nat (Nat.min BATCH_SIZE (length tasks - i)))%Z
  /\ Stats.total (ParState.stats st') = Stats.total (ParState.stats st).
Proof.
  unfold runBatch. cbn [ParState.stats].
  match goal with |- context [fold_left recordSettled ?r ?s] =>
    destruct (recordSettled_all r s) as [H1 H2] end.
  cbn zeta in *. rewrite H1, H2, allSettled_length, length_map, slice_length.
  replace (i + BATCH_SIZE - i) with BATCH_SIZE by lia. split; reflexivity.
Qed.

Lemma parallelLoop_stats tasks fuel : forall i st st',
  parallelLoop World squarePipeline widePipeline allSettled fuel tasks i st = Some st' ->
  (Stats.successful (ParState.stats st') + Stats.failed (ParState.stats st')
   = Stats.successful (ParState.stats st) + Stats.failed (ParState.stats st)
     + Z.of_nat (length tasks - i))%Z
  /\ Stats.total (ParState.stats st') = Stats.total (ParState.stats st).
Proof.
  induction fuel as [|fuel IH]; intros i st st'; cbn [parallelLoop];
    destruct (Nat.ltb_spec i (length tasks)) as [Hlt|Hge]; intros Hrun;
    try discriminate.
  - injection Hrun as <-. replace (length tasks - i) with 0 by lia. lia.
  - apply IH in Hrun as [H1 H2].
    destruct (runBatch_stats tasks i st) as [H3 H4]. cbn zeta in *.
    unfold BATCH_SIZE in *. lia.
  - injection Hrun as <-. replace (length tasks - i) with 0 by lia. lia.
Qed.

Lemma runSequential_stats tasks : forall st,
  let st' := runSequential World squarePipeline widePipeline tasks st in
  (Stats.successful (fst st') + Stats.failed (fst st')
   = Stats.successful (fst st) + Stats.failed (fst st) + Z.of_nat (length tasks))%Z
  /\ Stats.total (fst st') = Stats.total (fst st).
Proof.
  unfold runSequential.
  induction tasks as [|task tasks IH]; intros st; cbn [fold_left length].
  - cbn zeta. lia.
  - cbn zeta in *.
    destruct (executeTask World squarePipeline widePipeline task (snd st))
      as [result w'] eqn:E.
    destruct (IH (updateStats (fst st) result, w')) as [H1 H2].
    destruct (updateStats_step (fst st) result) as [H3 H4]. cbn [fst snd] in *.
    destruct (TaskResult.success result); lia.
Qed.

(** C9.  Every recorded result moves exactly one of [successful] and
    [failed] up by one and leaves the other as it is; [totalSize] grows by
    the size of a successful result (0 when it has none) and by nothing
    otherwise; a rejection counts as a failure.  A run of either mode that
    starts from the statistics of the constructor ends, and then [total] is
    the number of planned tasks and [successful + failed = total]. *)
Theorem stats_account_for_every_task parallel tasks now w :
  (forall stats result,
     let stats' := recordSettled stats result in
     (Stats.successful stats' = (Stats.successful stats + 1)%Z
      /\ Stats.failed stats' = Stats.failed stats
      \/ Stats.successful stats' = Stats.successful stats
         /\ Stats.failed stats' = (Stats.failed stats + 1)%Z)
     /\ Stats.totalSize stats' = (Stats.totalSize stats + recordedSize result)%Z)
  /\ (forall stats value,
        updateStats stats value = recordSettled stats (Fulfilled value))
  /\ exists st',
       run World squarePipeline widePipeline allSettled parallel tasks
         (startState now w) = Some st'
       /\ Stats.total (ParState.stats st') = Z.of_nat (length tasks)
       /\ (Stats.successful (ParState.stats st') + Stats.failed (ParState.stats st')
           = Stats.total (ParState.stats st'))%Z.
Proof.
  split; [|split].
  - intros stats [value|reason]; cbn zeta; simpl.
    + destruct (updateStats_step stats value) as [H _]. cbn zeta in H.
      rewrite <- sizeOrZero_spec.
      destruct (TaskResult.success value); intuition lia.
    + split; [right; split; reflexivity | lia].
  - reflexivity.
  - unfold run. destruct parallel.
    + match goal with |- context [runParallel _ _ _ _ _ ?s] => set (st1 := s) end.
      destruct (parallelLoop_ends tasks (length tasks) 0 st1) as (st' & Hrun).
      { unfold BATCH_SIZE. lia. }
      exists st'. split; [exact Hrun|].
      apply parallelLoop_stats in Hrun as [H1 H2].
      subst st1. cbn in H1, H2. rewrite Nat.sub_0_r in H1. lia.
    + match goal with |- context [runSequential _ _ _ _ ?s] =>
        destruct (runSequential_stats tasks s) as [H1 H2];
        destruct (runSequential World squarePipeline widePipeline tasks s)
          as [stats w'] eqn:E end.
      eexists. split; [reflexivity|]. cbn in *. lia.
Qed.

End SchedulerFacts.

(** ** The fetch cache *)

Lemma successesOf_app source log1 log2 :
  successesOf source (log1 ++ log2) = successesOf source log1 + successesOf source log2.
Proof. unfold successesOf. now rewrite List.filter_app, length_app. Qed.

Lemma retrievalsOf_app source log1 log2 :
  retrievalsOf source (log1 ++ log2)
  = retrievalsOf source log1 + retrievalsOf source log2.
Proof. unfold retrievalsOf. now rewrite List.filter_app, length_app. Qed.

Section FetcherFacts.

Variable isUrl : string -> bool.
Variable World : Type.
Variable httpGet : string -> World -> Js.exc string * World.
Variable readLocalFile : string -> World -> Js.exc string * World.

(** A cached source is answered from the cache: nothing is retrieved and
    nothing changes. *)
Lemma fetchContent_hit source content st :
  FetchState.cache (fst st) !! source = Some content ->
  fetchContent isUrl World httpGet readLocalFile source true st = (Js.Ok content, st).
Proof.
  intros Hc. unfold fetchContent, fetchContent_start. rewrite Hc.
  now destruct st.
Qed.

(** A fetch through the cache that returns a text leaves it in the cache. *)
Lemma fetchContent_success_cached source content st st' :
  fetchContent isUrl World httpGet readLocalFile source true st = (Js.Ok content, st') ->
  FetchState.cache (fst st') !! source = Some content.
Proof.
  unfold fetchContent, fetchContent_start.
  destruct (FetchState.cache (fst st) !! source) as [cached|] eqn:Hc.
  - intros H. injection H as <- <-. exact Hc.
  - destruct (retrieve isUrl World httpGet readLocalFile source (snd st))
      as [[text|message] w']; cbn; intros H; [|discriminate].
    injection H as <- <-. cbn. apply lookup_insert_eq.
Qed.

(** Fetches that run one after another never replace a cache entry. *)
Lemma fetchContent_cache_stable source content other useCache st :
  FetchState.cache (fst st) !! source = Some content ->
  FetchState.cache
    (fst (snd (fetchContent isUrl World httpGet readLocalFile other useCache st)))
  !! source = Some content.
Proof.
  intros Hc. unfold fetchContent, fetchContent_start.
  destruct (if useCache then FetchState.cache (fst st) !! other else None)
    as [cached|] eqn:Hother; [exact Hc|].
  destruct (retrieve isUrl World httpGet readLocalFile other (snd st))
    as [[text|message] w']; cbn; [|exact Hc].
  destruct useCache; [|exact Hc].
  rewrite lookup_insert_ne; [exact Hc|].
  intros ->. congruence.
Qed.

Lemma fetchEach_cache_stable source content requests : forall st,
  FetchState.cache (fst st) !! source = Some content ->
  FetchState.cache
    (fst (snd (fetchEach isUrl World httpGet readLocalFile requests st)))
  !! source = Some content.
Proof.
  induction requests as [|[other useCache] requests IH]; intros st Hc; [exact Hc|].
  cbn [fetchEach].
  pose proof (fetchContent_cache_stable source content other useCache st Hc) as H1.
  destruct (fetchContent isUrl World httpGet readLocalFile other useCache st)
    as [result st1].
  specialize (IH st1 H1).
  destruct (fetchEach isUrl World httpGet readLocalFile requests st1) as [results st2].
  exact IH.
Qed.

Lemma fetchContent_successes other st :
  successesMatchCache (fst st) ->
  successesMatchCache
    (fst (snd (fetchContent isUrl World httpGet readLocalFile other true st))).
Proof.
  intros Hinv. unfold fetchContent, fetchContent_start.
  destruct (FetchState.cache (fst st) !! other) as [cached|] eqn:Hother; [exact Hinv|].
  destruct (retrieve isUrl World httpGet readLocalFile other (snd st))
    as [[text|message] w']; unfold fetchContent_finish;
    cbn [fst snd]; intros source; cbn [FetchState.log FetchState.cache].
  - rewrite !successesOf_app, Hinv.
    unfold successesOf at 1 2. cbn [List.filter length].
    destruct (String.eqb_spec other source) as [->|Hne].
    + rewrite lookup_insert_eq, Hother. reflexivity.
    + rewrite lookup_insert_ne by exact Hne.
      destruct (FetchState.cache (fst st) !! source); reflexivity.
  - rewrite !successesOf_app, Hinv.
    unfold successesOf at 1 2. cbn [List.filter length].
    destruct (FetchState.cache (fst st) !! source); reflexivity.
Qed.

Lemma fetchEach_successes sources : forall st,
  successesMatchCache (fst st) ->
  successesMatchCache
    (fst (snd (fetchEach isUrl World httpGet readLocalFile (cachedRequests sources) st))).
Proof.
  induction sources as [|other sources IH]; intros st Hinv; [exact Hinv|].
  cbn [cachedRequests map fetchEach].
  pose proof (fetchContent_successes other st Hinv) as H1.
  destruct (fetchContent isUrl World httpGet readLocalFile other true st)
    as [result st1].
  specialize (IH st1 H1). unfold cachedRequests in IH.
  destruct (fetchEach isUrl World httpGet readLocalFile
              (map (fun source => (source, true)) sources) st1) as [results st2].
  exact IH.
Qed.

Lemma fetchContent_failure failing st message w :
  FetchState.cache (fst st) !! failing = None ->
  retrieve isUrl World httpGet readLocalFile failing (snd st) = (Js.Throw message, w) ->
  fetchContent isUrl World httpGet readLocalFile failing true st
  = (Js.Throw ("Failed to fetch SVG from " +:+ failing +:+ ": " +:+ message),
     ({| FetchState.cache := FetchState.cache (fst st);
         FetchState.log :=
           (FetchState.log (fst st) ++ [RetrievalStarted failing])
           ++ [RetrievalFailed failing] |}, w)).
Proof.
  intros Hmiss Hretrieve. unfold fetchContent, fetchContent_start.
  rewrite Hmiss, Hretrieve. reflexivity.
Qed.

Lemma fetchContent_miss_retrieves source st :
  FetchState.cache (fst st) !! source = None ->
  retrievalsOf source
    (FetchState.log
       (fst (snd (fetchContent isUrl World httpGet readLocalFile source true st))))
  = S (retrievalsOf source (FetchState.log (fst st))).
Proof.
  intros Hmiss. unfold fetchContent, fetchContent_start. rewrite Hmiss.
  destruct (retrieve isUrl World httpGet readLocalFile source (snd st))
    as [[text|message] w]; cbn [fetchContent_finish fst snd FetchState.log];
    rewrite !retrievalsOf_app; unfold retrievalsOf at 2 3;
    cbn [List.filter length]; rewrite String.eqb_refl; cbn; lia.
Qed.

(** C6, as the code has it.  When fetches run one after another, a fetch
    through the cache that returned a text for a source is followed, after
    any further fetches, by fetches of that source that return the same
    text, retrieve nothing and change nothing; and in a run that starts
    with an empty cache and fetches only through the cache, no source is
    retrieved successfully more than once.  A retrieval that fails caches
    nothing: the fetch throws, the cache is as before, and the next fetch
    of the source retrieves again.  Two fetches of a source that is not
    cached which both start before either retrieval has come back both
    miss the cache and both retrieve, each returning what its own
    retrieval gave. *)
Theorem fetchContent_cached_after_success source content st0 st1 between results st2 :
  fetchContent isUrl World httpGet readLocalFile source true st0 = (Js.Ok content, st1) ->
  fetchEach isUrl World httpGet readLocalFile between st1 = (results, st2) ->
  fetchContent isUrl World httpGet readLocalFile source true st2 = (Js.Ok content, st2)
  /\ (forall sources w other,
        successesOf other
          (FetchState.log
             (fst (snd (fetchEach isUrl World httpGet readLocalFile
                          (cachedRequests sources) (initialFetchState, w))))) <= 1)
  /\ (forall failing st message w,
        FetchState.cache (fst st) !! failing = None ->
        retrieve isUrl World httpGet readLocalFile failing (snd st)
        = (Js.Throw message, w) ->
        exists st',
          fetchContent isUrl World httpGet readLocalFile failing true st
          = (Js.Throw ("Failed to fetch SVG from " +:+ failing +:+ ": " +:+ message), st')
          /\ FetchState.cache (fst st') = FetchState.cache (fst st)
          /\ snd st' = w
          /\ retrievalsOf failing (FetchState.log (fst st'))
             = retrievalsOf failing (FetchState.log (fst st)) + 1
          /\ retrievalsOf failing
               (FetchState.log
                  (fst (snd (fetchContent isUrl World httpGet readLocalFile
                               failing true st'))))
             = retrievalsOf failing (FetchState.log (fst st)) + 2)
  /\ (forall other st text1 text2,
        FetchState.cache st !! other = None ->
        let first := fetchContent_start other true st in
        let second := fetchContent_start other true (snd first) in
        let third :=
          fetchContent_finish (AwaitingRetrieval other true) (Js.Ok text1) (snd second) in
        let fourth :=
          fetchContent_finish (AwaitingRetrieval other true) (Js.Ok text2) (snd third) in
        fst first = inr (AwaitingRetrieval other true)
        /\ fst second = inr (AwaitingRetrieval other true)
        /\ fst third = Js.Ok text1
        /\ fst fourth = Js.Ok text2
        /\ retrievalsOf other (FetchState.log (snd fourth))
           = retrievalsOf other (FetchState.log st) + 2).
Proof.
  intros Hfirst Hbetween. split; [|split; [|split]].
  - apply fetchContent_hit.
    apply fetchContent_success_cached in Hfirst.
    pose proof (fetchEach_cache_stable source content between st1 Hfirst) as H.
    now rewrite Hbetween in H.
  - intros sources w other.
    assert (Hinit : successesMatchCache (fst (initialFetchState, w))).
    { intros s. cbn. now rewrite lookup_empty. }
    pose proof (fetchEach_successes sources (initialFetchState, w) Hinit other) as H.
    rewrite H. destruct (_ !! other); lia.
  - intros failing st message w Hmiss Hretrieve.
    eexists. split; [exact (fetchContent_failure failing st message w Hmiss Hretrieve)|].
    split; [reflexivity|]. split; [reflexivity|].
    assert (Hlog : retrievalsOf failing
                     ((FetchState.log (fst st) ++ [RetrievalStarted failing])
                      ++ [RetrievalFailed failing])
                   = retrievalsOf failing (FetchState.log (fst st)) + 1).
    { rewrite !retrievalsOf_app. unfold retrievalsOf at 2 3.
      cbn [List.filter length]. rewrite String.eqb_refl. cbn. lia. }
    split; [exact Hlog|].
    rewrite fetchContent_miss_retrieves by exact Hmiss.
    cbn [fst FetchState.log]. rewrite Hlog. lia.
  - intros other st text1 text2 Hmiss. cbn zeta.
    unfold fetchContent_start. rewrite Hmiss. cbn [fst snd FetchState.cache].
    rewrite Hmiss. cbn [fst snd fetchContent_finish FetchState.log].
    do 4 (split; [reflexivity|]).
    rewrite !retrievalsOf_app. unfold retrievalsOf at 2 3 4 5.
    cbn [List.filter length]. rewrite String.eqb_refl. cbn. lia.
Qed.

End FetcherFacts.

(** ** Numbers *)

Lemma Qltb_lt (a b : Q) : Js.Qltb a b = true <-> (a < b)%Q.
Proof.
  unfold Js.Qltb. rewrite negb_true_iff. split.
  - intros H. apply Qnot_le_lt. intros Hle.
    apply Qle_bool_iff in Hle. congruence.
  - intros H. destruct (Qle_bool b a) eqn:E; [|reflexivity].
    apply Qle_bool_iff in E. exfalso. exact (Qlt_not_le _ _ H E).
Qed.

(** A comparison with [NaN] is false, on either side. *)
Lemma gt_NaN (n : Js.number) : Js.gt n Js.NaN = false.
Proof. now destruct n. Qed.

Lemma min_NaN (a b : Js.number) : a = Js.NaN \/ b = Js.NaN -> Js.min a b = Js.NaN.
Proof. intros [->| ->]; [reflexivity | now destruct a]. Qed.

(** A finite number above [w] is above the minimum of [w] and any number
    that is not [NaN]. *)
Lemma gt_min_finite (i w : Q) (h : Js.number) :
  (w < i)%Q -> h <> Js.NaN ->
  Js.gt (Js.Finite i) (Js.min (Js.Finite w) h) = true.
Proof.
  intros Hwi Hh. destruct h as [| | |q]; [congruence| | |]; cbn.
  - now apply Qltb_lt.
  - reflexivity.
  - destruct (Js.Qltb q w) eqn:E; cbn; apply Qltb_lt.
    + apply Qltb_lt in E. now apply Qlt_trans with w.
    + exact Hwi.
Qed.

(** ** Validation *)

Lemma get_defined (v : Js.value) (name : string) :
  Js.nullish v = false -> Js.get v name = Js.Ok (Js.prop v name).
Proof. destruct v; cbn; intros H; try discriminate; reflexivity. Qed.

Lemma truthy_defined (v : Js.value) : Js.truthy v = true -> Js.nullish v = false.
Proof. destruct v; cbn; intros H; try discriminate; reflexivity. Qed.

Lemma get_truthy (v : Js.value) (name : string) :
  Js.truthy v = true -> Js.get v name = Js.Ok (Js.prop v name).
Proof. intros H. now apply get_defined, truthy_defined. Qed.

Lemma get_inv (v : Js.value) (name : string) (x : Js.value) :
  Js.get v name = Js.Ok x -> x = Js.prop v name.
Proof. destruct v; cbn; intros H; try discriminate; now injection H as <-. Qed.

Section ValidationFacts.

Import Js.

Variable coerceToNumber : value -> number.

Lemma validateWideSettings_truthy wide :
  truthy wide = true ->
  validateWideSettings coerceToNumber wide =
  Ok ((if negb (isNumber (prop wide "width"))
          || ltNumber coerceToNumber (prop wide "width") (Finite 1%Q)
       then ["settings.wide.width: must be a positive number"] else [])
      ++
      (if negb (isNumber (prop wide "height"))
          || ltNumber coerceToNumber (prop wide "height") (Finite 1%Q)
       then ["settings.wide.height: must be a positive number"] else [])
      ++
      (if negb (isNumber (prop wide "iconSize"))
          || ltNumber coerceToNumber (prop wide "iconSize") (Finite 1%Q)
       then ["settings.wide.iconSize: must be a positive number"] else [])
      ++
      (if gtNumber coerceToNumber (prop wide "iconSize")
            (Math_min coerceToNumber (prop wide "width") (prop wide "height"))
       then ["settings.wide.iconSize: must be <= min(width, height)"] else [])).
Proof.
  intros Ht. unfold validateWideSettings. rewrite Ht. cbn [negb].
  rewrite !(get_truthy wide) by exact Ht. reflexivity.
Qed.

(** The check against [min(width, height)] is what puts its message into
    the errors of the wide settings. *)
Lemma validateWideSettings_min_message wide errors :
  truthy wide = true ->
  validateWideSettings coerceToNumber wide = Ok errors ->
  In "settings.wide.iconSize: must be <= min(width, height)" errors
  <-> gtNumber coerceToNumber (prop wide "iconSize")
        (Math_min coerceToNumber (prop wide "width") (prop wide "height")) = true.
Proof.
  intros Ht. rewrite (validateWideSettings_truthy wide Ht). intros H.
  injection H as <-.
  assert (N : forall (c : bool) (other : string),
             other <> "settings.wide.iconSize: must be <= min(width, height)" ->
             ~ In "settings.wide.iconSize: must be <= min(width, height)"
                 (if c then [other] else [])).
  { intros [] other Hne; cbn; tauto. }
  rewrite !in_app_iff. split.
  - intros [H|[H|[H|H]]].
    + exfalso. revert H. apply N. discriminate.
    + exfalso. revert H. apply N. discriminate.
    + exfalso. revert H. apply N. discriminate.
    + destruct (gtNumber _ _ _); [reflexivity | destruct H].
  - intros ->. right. right. right. now left.
Qed.

Lemma validateWideSettings_returns wide :
  exists errors, validateWideSettings coerceToNumber wide = Ok errors.
Proof.
  destruct (truthy wide) eqn:Ht.
  - rewrite (validateWideSettings_truthy wide Ht). eauto.
  - unfold validateWideSettings. rewrite Ht. eauto.
Qed.

(** The settings never make validation throw, and the errors of an object
    are those of its basic part followed by those of its wide part. *)
Lemma validateSettings_object settings :
  truthy settings = true -> typeof settings = "object" ->
  exists wideErrors,
    validateWideSettings coerceToNumber (prop settings "wide") = Ok wideErrors
    /\ validateSettings coerceToNumber settings =
       Ok (((if negb (isNumber (prop settings "size"))
                || ltNumber coerceToNumber (prop settings "size") (Finite 1%Q)
                || gtNumber coerceToNumber (prop settings "size") (Finite 2048%Q)
             then ["settings.size: must be a number between 1 and 2048"] else [])
            ++
            (if negb (truthy (prop settings "outputDirectory"))
                || negb (isString (prop settings "outputDirectory"))
             then ["settings.outputDirectory: must be a non-empty string"] else []))
           ++ wideErrors).
Proof.
  intros Ht Ho. destruct (validateWideSettings_returns (prop settings "wide"))
    as [wideErrors Hw].
  exists wideErrors. split; [exact Hw|].
  unfold validateSettings, validateBasicSettings. rewrite Ht, Ho. cbn [negb orb String.eqb].
  rewrite !(get_truthy settings) by exact Ht.
  cbn [mbind exc_bind bind]. rewrite Hw. reflexivity.
Qed.

Lemma validateSettings_returns settings :
  exists errors, validateSettings coerceToNumber settings = Ok errors.
Proof.
  destruct (truthy settings) eqn:Ht.
  - destruct (String.eqb (typeof settings) "object") eqn:Ho.
    + apply String.eqb_eq in Ho.
      destruct (validateSettings_object settings Ht Ho) as (we & _ & H). eauto.
    + unfold validateSettings. rewrite Ht, Ho. cbn. eauto.
  - unfold validateSettings. rewrite Ht. cbn. eauto.
Qed.

(** Validation that returns has gone through its three sections and put
    their errors together. *)
Lemma validateConfig_inv config errors :
  validateConfig coerceToNumber config = Ok errors ->
  exists sourceErrors settingErrors,
    validateSources (prop config "sources") = Ok sourceErrors
    /\ validateSettings coerceToNumber (prop config "settings") = Ok settingErrors
    /\ errors = validateIcons (prop config "icons") ++ sourceErrors ++ settingErrors.
Proof.
  unfold validateConfig. cbn [mbind exc_bind].
  destruct (get config "icons") as [icons|] eqn:E1;
    cbn [mbind exc_bind bind]; [|discriminate].
  destruct (get config "sources") as [sources|] eqn:E2;
    cbn [mbind exc_bind bind]; [|discriminate].
  destruct (validateSources sources) as [sourceErrors|] eqn:E3;
    cbn [mbind exc_bind bind]; [|discriminate].
  destruct (get config "settings") as [settings|] eqn:E4;
    cbn [mbind exc_bind bind]; [|discriminate].
  destruct (validateSettings coerceToNumber settings) as [settingErrors|] eqn:E5;
    cbn [mbind exc_bind bind]; [|discriminate].
  intros H. injection H as <-.
  apply get_inv in E1, E2, E4. subst. eauto.
Qed.

(** Validation returns as soon as neither the configuration nor an entry
    of [sources] is [null] or [undefined]. *)
Lemma validateEachSource_returns items : forall index errors,
  forallb (fun v => negb (nullish v)) items = true ->
  exists result, validateEachSource items index errors = Ok result.
Proof.
  induction items as [|source items IH]; intros index errors Hall; cbn.
  - eauto.
  - cbn in Hall. apply andb_prop in Hall as [Hs Hall].
    apply negb_true_iff in Hs.
    unfold validateSingleSource. rewrite !(get_defined source) by exact Hs.
    cbn [mbind exc_bind bind]. now apply IH.
Qed.

Lemma validateConfig_returns config :
  nullish config = false ->
  forallb (fun v => negb (nullish v)) (arrayItems (prop config "sources")) = true ->
  exists errors, validateConfig coerceToNumber config = Ok errors.
Proof.
  intros Ht Hs. unfold validateConfig.
  rewrite !(get_defined config) by exact Ht. cbn [mbind exc_bind bind].
  assert (Hsrc : exists se, validateSources (prop config "sources") = Ok se).
  { unfold validateSources.
    destruct (negb (truthy (prop config "sources"))
              || negb (isArray (prop config "sources"))
              || (arrayLength (prop config "sources") =? 0)); [eauto|].
    now apply validateEachSource_returns. }
  destruct Hsrc as [se ->].
  destruct (validateSettings_returns (prop config "settings")) as [ss ->].
  cbn. eauto.
Qed.

End ValidationFacts.

Lemma prop_object (v : Js.value) (name : string) :
  Js.prop v name <> Js.Undefined -> exists props, v = Js.Object props.
Proof. destruct v; cbn; intros H; try congruence. eauto. Qed.

Section ValidationClaims.

Import Js.

Variable coerceToNumber : value -> number.

Lemma main_of_errors (R : Type) (runConverter : value -> R) config errors :
  validateConfig coerceToNumber config = Ok errors ->
  main coerceToNumber runConverter config =
  match errors with
  | [] => Ok (runConverter config)
  | _ :: _ =>
      Throw ("Configuration validation failed:" +:+ newline
             +:+ String.concat newline errors)
  end.
Proof.
  intros H. unfold main, loadConfig. cbn [mbind exc_bind]. rewrite H.
  cbn [bind]. now destruct errors.
Qed.

Lemma settings_errors_reported config errors settingErrors message :
  validateConfig coerceToNumber config = Ok errors ->
  validateSettings coerceToNumber (prop config "settings") = Ok settingErrors ->
  In message settingErrors -> In message errors.
Proof.
  intros Hv Hs Hin. apply validateConfig_inv in Hv as (se & ss & _ & Hss & ->).
  rewrite Hs in Hss. injection Hss as <-.
  apply in_or_app. right. apply in_or_app. now right.
Qed.

(** For a configuration that, like its [sources] entries, is not
    [null] or [undefined], validation returns the errors of the icons, of
    the sources and of the settings, in that order, and [main] either runs
    the converter on the configuration (no error was found) or ends, before
    the converter is built, with the one error whose message lists every
    error found.  If [settings.wide] has an [iconSize] above its [width]
    (200 above 180) and its [height] is a number other than NaN, the error
    [settings.wide.iconSize: must be <= min(width, height)] is among them;
    if [settings.size] is a number below 1 or above 2048, the error
    [settings.size: must be a number between 1 and 2048] is among them. *)
Theorem validation_rejects_before_planning
    (R : Type) (runConverter : value -> R) config :
  nullish config = false ->
  forallb (fun v => negb (nullish v)) (arrayItems (prop config "sources")) = true ->
  exists errors,
    validateConfig coerceToNumber config = Ok errors
    /\ (errors = [] ->
        main coerceToNumber runConverter config = Ok (runConverter config))
    /\ (errors <> [] ->
        main coerceToNumber runConverter config =
        Throw ("Configuration validation failed:" +:+ newline
               +:+ String.concat newline errors))
    /\ (exists sourceErrors settingErrors,
          validateSources (prop config "sources") = Ok sourceErrors
          /\ validateSettings coerceToNumber (prop config "settings") = Ok settingErrors
          /\ errors = validateIcons (prop config "icons") ++ sourceErrors ++ settingErrors)
    /\ (forall iconSize width height,
          prop (prop (prop config "settings") "wide") "iconSize"
          = Number (Finite iconSize) ->
          prop (prop (prop config "settings") "wide") "width" = Number (Finite width) ->
          prop (prop (prop config "settings") "wide") "height" = Number height ->
          height <> NaN ->
          (width < iconSize)%Q ->
          In "settings.wide.iconSize: must be <= min(width, height)" errors)
    /\ (forall size,
          prop (prop config "settings") "size" = Number (Finite size) ->
          (size < 1 \/ 2048 < size)%Q ->
          In "settings.size: must be a number between 1 and 2048" errors).
Proof.
  intros Hconfig Hsources.
  destruct (validateConfig_returns coerceToNumber config Hconfig Hsources)
    as [errors Hv].
  exists errors. split; [exact Hv|].
  pose proof (main_of_errors R runConverter config errors Hv) as Hmain.
  split; [|split; [|split; [|split]]].
  - intros ->. exact Hmain.
  - intros Hne. destruct errors; [congruence | exact Hmain].
  - now apply validateConfig_inv.
  - intros iconSize width height Hi Hw Hh Hnan Hlt.
    destruct (prop_object (prop (prop config "settings") "wide") "iconSize")
      as [wprops Hwide]; [rewrite Hi; discriminate|].
    destruct (prop_object (prop config "settings") "wide")
      as [sprops Hsettings]; [rewrite Hwide; discriminate|].
    destruct (validateSettings_object coerceToNumber (prop config "settings"))
      as (we & Hwe & Hs); [now rewrite Hsettings | now rewrite Hsettings |].
    apply (settings_errors_reported config errors _ _ Hv Hs).
    apply in_or_app. right.
    assert (Htw : truthy (prop (prop config "settings") "wide") = true)
      by now rewrite Hwide.
    apply (proj2 (validateWideSettings_min_message coerceToNumber
                    (prop (prop config "settings") "wide") we Htw Hwe)).
    rewrite Hi, Hw, Hh. unfold gtNumber, Math_min. cbn [ToNumber].
    now apply gt_min_finite.
  - intros size Hsz Hout.
    destruct (prop_object (prop config "settings") "size")
      as [sprops Hsettings]; [rewrite Hsz; discriminate|].
    destruct (validateSettings_object coerceToNumber (prop config "settings"))
      as (we & Hwe & Hs); [now rewrite Hsettings | now rewrite Hsettings |].
    apply (settings_errors_reported config errors _ _ Hv Hs).
    apply in_or_app. left. apply in_or_app. left.
    rewrite Hsz.
    replace (negb (isNumber (Number (Finite size)))
             || ltNumber coerceToNumber (Number (Finite size)) (Finite 1%Q)
             || gtNumber coerceToNumber (Number (Finite size)) (Finite 2048%Q))
      with true; [now left|].
    symmetry. change (false || Qltb size 1 || Qltb 2048 size = true).
    apply orb_true_iff. destruct Hout as [H|H]; [left|right]; now apply Qltb_lt.
Qed.

(** C10, as the code has it.  When [wide.width] or [wide.height] converts
    to NaN (an absent dimension does), the wide settings are validated
    without the error [settings.wide.iconSize: must be <= min(width,
    height)], whatever [iconSize] is, and a dimension that is not of type
    number has its own error among those reported. *)
Theorem min_check_silent_on_NaN wide :
  truthy wide = true ->
  ToNumber coerceToNumber (prop wide "width") = NaN
  \/ ToNumber coerceToNumber (prop wide "height") = NaN ->
  exists errors,
    validateWideSettings coerceToNumber wide = Ok errors
    /\ ~ In "settings.wide.iconSize: must be <= min(width, height)" errors
    /\ (isNumber (prop wide "width") = false ->
        In "settings.wide.width: must be a positive number" errors)
    /\ (isNumber (prop wide "height") = false ->
        In "settings.wide.height: must be a positive number" errors).
Proof.
  intros Ht Hnan.
  destruct (validateWideSettings_returns coerceToNumber wide) as [errors He].
  exists errors. split; [exact He|]. split.
  - rewrite (validateWideSettings_min_message coerceToNumber wide errors Ht He).
    unfold gtNumber, Math_min. rewrite (min_NaN _ _ Hnan), gt_NaN. discriminate.
  - rewrite (validateWideSettings_truthy coerceToNumber wide Ht) in He.
    injection He as <-. split; intros ->; cbn [negb orb].
    + apply in_or_app. left. now left.
    + apply in_or_app. right. apply in_or_app. left. now left.
Qed.

End ValidationClaims.

(** C7.  Validation does not collect the violations of a configuration
    with an entry of [sources] that is [null]: reading [source] of the
    entry throws a TypeError out of [validateConfig], and [main] ends with
    that TypeError instead of the aggregate, so that the violations of the
    icons and of the size, which the same configuration has, are reported
    nowhere.  An empty configuration file ([yaml.load] returns
    [undefined]) ends the same way.  The checks beside it guard against
    [null]: with [null] for the whole of [sources], or with an entry
    without fields in the place of the [null] entry, the aggregate lists
    every violation. *)
Theorem validateConfig_throws_on_null_entry
    (coerceToNumber : Js.value -> Js.number) (R : Type) (runConverter : Js.value -> R) :
  validateConfig coerceToNumber (configWithEntry Js.Null)
  = Js.Throw "Cannot read properties of null (reading 'source')"
  /\ main coerceToNumber runConverter (configWithEntry Js.Null)
     = Js.Throw "Cannot read properties of null (reading 'source')"
  /\ main coerceToNumber runConverter Js.Undefined
     = Js.Throw "Cannot read properties of undefined (reading 'icons')"
  /\ validateConfig coerceToNumber (configWithEntry (Js.Object []))
     = Js.Ok ["icons: must be a non-empty array";
              "sources[1].source: must be a non-empty string";
              "sources[1].suffix: must be a non-empty string";
              "settings.size: must be a number between 1 and 2048"]
  /\ main coerceToNumber runConverter (configWithEntry (Js.Object []))
     = Js.Throw ("Configuration validation failed:" +:+ newline
                 +:+ "icons: must be a non-empty array" +:+ newline
                 +:+ "sources[1].source: must be a non-empty string" +:+ newline
                 +:+ "sources[1].suffix: must be a non-empty string" +:+ newline
                 +:+ "settings.size: must be a number between 1 and 2048")
  /\ validateSources Js.Null = Js.Ok ["sources: must be a non-empty array"].
Proof.
  repeat split; reflexivity.
Qed.

Lemma validation_rejects_before_planning_witness :
  Js.nullish oversizedConfig = false
  /\ forallb (fun v => negb (Js.nullish v))
       (arrayItems (Js.prop oversizedConfig "sources")) = true
  /\ validateConfig neverNumeric oversizedConfig
     = Js.Ok ["settings.size: must be a number between 1 and 2048";
              "settings.wide.iconSize: must be <= min(width, height)"]
  /\ main neverNumeric (fun _ => tt) oversizedConfig
     = Js.Throw ("Configuration validation failed:" +:+ newline
                 +:+ "settings.size: must be a number between 1 and 2048" +:+ newline
                 +:+ "settings.wide.iconSize: must be <= min(width, height)")
  /\ exists errors,
       validateConfig neverNumeric oversizedConfig = Js.Ok errors
       /\ In "settings.wide.iconSize: must be <= min(width, height)" errors
       /\ In "settings.size: must be a number between 1 and 2048" errors.
Proof.
  split; [reflexivity|]. split; [reflexivity|]. split; [reflexivity|].
  split; [reflexivity|].
  destruct (validation_rejects_before_planning neverNumeric unit (fun _ => tt)
              oversizedConfig eq_refl eq_refl)
    as (errors & Hv & _ & _ & _ & Hwide & Hsize).
  exists errors. split; [exact Hv|]. split.
  - apply (Hwide 200%Q 180%Q (Js.Finite 320%Q));
      [reflexivity | reflexivity | reflexivity | discriminate | reflexivity].
  - apply (Hsize 4096%Q); [reflexivity | right; reflexivity].
Defined.

Lemma min_check_silent_on_NaN_witness :
  Js.truthy wideWithoutWidth = true
  /\ (ToNumber neverNumeric (Js.prop wideWithoutWidth "width") = Js.NaN
      \/ ToNumber neverNumeric (Js.prop wideWithoutWidth "height") = Js.NaN)
  /\ exists errors,
       validateWideSettings neverNumeric wideWithoutWidth = Js.Ok errors
       /\ ~ In "settings.wide.iconSize: must be <= min(width, height)" errors
       /\ (isNumber (Js.prop wideWithoutWidth "width") = false ->
           In "settings.wide.width: must be a positive number" errors)
       /\ (isNumber (Js.prop wideWithoutWidth "height") = false ->
           In "settings.wide.height: must be a positive number" errors).
Proof.
  split; [reflexivity|]. split; [left; reflexivity|].
  apply (min_check_silent_on_NaN neverNumeric wideWithoutWidth);
    [reflexivity | left; reflexivity].
Defined.

(** C10 as stated fails: a [width] of [null] is not a number and is
    reported as such, yet it converts to 0, so that the check against
    [min(width, height)] fires for the icon size 200 and reports its error
    as well. *)
Lemma min_check_fires_on_null_width :
  isNumber (Js.prop wideWithNullWidth "width") = false
  /\ validateWideSettings neverNumeric wideWithNullWidth
     = Js.Ok ["settings.wide.width: must be a positive number";
              "settings.wide.iconSize: must be <= min(width, height)"]
  /\ ~ (forall errors,
          validateWideSettings neverNumeric wideWithNullWidth = Js.Ok errors ->
          ~ In "settings.wide.iconSize: must be <= min(width, height)" errors).
Proof.
  split; [reflexivity|]. split; [reflexivity|].
  intros H. apply (H _ eq_refl). right. now left.
Qed.

(** ** Centring *)

Lemma Math_round_nearest (x : Q) :
  (inject_Z (Math_round x) - (1 # 2) <= x < inject_Z (Math_round x) + (1 # 2))%Q.
Proof.
  unfold Math_round.
  pose proof (Qfloor_le (x + (1 # 2))) as Hle.
  pose proof (Qlt_floor (x + (1 # 2))) as Hlt.
  rewrite inject_Z_plus in Hlt. change (inject_Z 1) with 1%Q in Hlt.
  split; lra.
Qed.


Module DoubleFacts.
Import Double.

Lemma pow2_pos e : (0 < pow2 e)%Q.
Proof. unfold pow2. apply Qpower_0_lt. reflexivity. Qed.




Lemma roundHalfEven_nonpos (x : Q) : (x < 0)%Q -> (roundHalfEven x <= 0)%Z.
Proof.
  intros Hx. unfold roundHalfEven.
  assert (Hf : (Qfloor x < 0)%Z).
  { pose proof (Qfloor_le x) as Hle. rewrite Zlt_Qlt.
    change (inject_Z 0) with 0%Q. lra. }
  destruct (Qcompare (x - inject_Z (Qfloor x)) (1 # 2)); [destruct (Z.even _)| |]; lia.
Qed.

Lemma round_nonpos (x : Q) : (x <= 0)%Q -> (round x <= 0)%Q.
Proof.
  intros Hx. unfold round.
  destruct (Qeq_bool x 0) eqn:E; [lra|].
  apply Qeq_bool_neq in E.
  set (e := Z.max (magnitude x - 53) (-1074)).
  pose proof (pow2_pos e) as Hp.
  assert (Hneg : (x / pow2 e < 0)%Q).
  { apply Qlt_shift_div_r; [exact Hp|]. lra. }
  apply roundHalfEven_nonpos in Hneg.
  rewrite Zle_Qle in Hneg. change (inject_Z 0) with 0%Q in Hneg. nra.
Qed.



End DoubleFacts.

Lemma Math_round_of_nonpos (x : Q) : (x <= 0)%Q -> (Math_round x <= 0)%Z.
Proof.
  intros Hx. pose proof (Math_round_nearest x) as [Hlow _].
  assert (H : (inject_Z (Math_round x) < inject_Z 1)%Q)
    by (change (inject_Z 1) with 1%Q; lra).
  rewrite <- Zlt_Qlt in H. lia.
Qed.

(** An icon that is not smaller than the extent of the canvas gets no
    positive offset. *)
Lemma compositeTop_nonpos (height iconSize : Q) :
  (height <= iconSize)%Q -> (compositeTop height iconSize <= 0)%Z.
Proof.
  intros H. unfold compositeTop. apply Math_round_of_nonpos.
  apply DoubleFacts.round_nonpos.
  assert (Hr : (Double.round (height - iconSize) <= 0)%Q)
    by (apply DoubleFacts.round_nonpos; lra).
  apply Qle_shift_div_r; [reflexivity|]. lra.
Qed.



(** For finite operands the offset is the integer of [compositeLeft],
    unless the subtraction or the halving overflows. *)
Lemma centredOffset_finite (extent iconSize : Q) :
  centredOffset (Js.Finite extent) (Js.Finite iconSize)
  = Js.Finite (inject_Z (compositeLeft extent iconSize))
  \/ centredOffset (Js.Finite extent) (Js.Finite iconSize) = Js.PosInfinity
  \/ centredOffset (Js.Finite extent) (Js.Finite iconSize) = Js.NegInfinity.
Proof.
  assert (H : forall x,
            Double.ofExact x = Js.Finite (Double.round x)
            \/ Double.ofExact x = Js.PosInfinity
            \/ Double.ofExact x = Js.NegInfinity).
  { intros x. unfold Double.ofExact.
    destruct (Qle_bool (Double.pow2 1024) (Qabs (Double.round x))); [|now left].
    destruct (Qle_bool 0 x); tauto. }
  unfold centredOffset, Double.sub.
  destruct (H (extent - iconSize)%Q) as [-> |[-> | ->]];
    [|right; left; reflexivity | right; right; reflexivity].
  cbn [Double.half].
  destruct (H (Double.round (extent - iconSize) / 2)%Q) as [-> |[-> | ->]];
    [left; reflexivity | right; left; reflexivity | right; right; reflexivity].
Qed.




(** ** Sample runs *)

Lemma sampleAllSettled_length :
  forall promises w, length (fst (sampleAllSettled promises w)) = length promises.
Proof.
  intros promises w. destruct promises as [|promise promises]; [reflexivity|].
  cbn. now rewrite length_map.
Qed.

Lemma runParallel_batches_witness :
  exists st' events,
    runParallel unit sampleSquarePipeline sampleWidePipeline sampleAllSettled
      tenTasks (startState 0%Z tt) = Some st'
    /\ ParState.trace st' = ParState.trace (startState 0%Z tt) ++ events
    /\ dispatchedTasks events = imap (fun index task => (index, task)) tenTasks
    /\ settledBeforeNextBatch events
    /\ batchSizes events = [4; 4; 2].
Proof.
  destruct (runParallel_batches unit sampleSquarePipeline sampleWidePipeline
              sampleAllSettled sampleAllSettled_length tenTasks (startState 0%Z tt))
    as (st' & events & Hrun & Htrace & Hd & _ & Ho & _ & _ & _ & _ & _ & _ & Hten).
  exists st', events. split; [exact Hrun|]. split; [exact Htrace|].
  split; [exact Hd|]. split; [exact Ho|]. apply Hten. reflexivity.
Defined.

(** Ten tasks in batched mode, every first task of a batch rejected and
    the wide task of the missing icon failed: three batches, and four
    failures among the ten results. *)
Lemma runParallel_ten_tasks :
  exists st',
    runParallel unit sampleSquarePipeline sampleWidePipeline sampleAllSettled
      tenTasks (startState 0%Z tt) = Some st'
    /\ Stats.successful (ParState.stats st') = 6%Z
    /\ Stats.failed (ParState.stats st') = 4%Z
    /\ List.filter (fun e => match e with BatchAnnounced _ _ => true | _ => false end)
         (ParState.trace st')
       = [BatchAnnounced 1 3; BatchAnnounced 2 3; BatchAnnounced 3 3].
Proof.
  eexists. split; [vm_compute; reflexivity|]. repeat split; vm_compute; reflexivity.
Qed.

Lemma stats_account_for_every_task_witness :
  (forall promises w, length (fst (sampleAllSettled promises w)) = length promises)
  /\ (forall stats result,
        let stats' := recordSettled stats result in
        (Stats.successful stats' = (Stats.successful stats + 1)%Z
         /\ Stats.failed stats' = Stats.failed stats
         \/ Stats.successful stats' = Stats.successful stats
            /\ Stats.failed stats' = (Stats.failed stats + 1)%Z)
        /\ Stats.totalSize stats' = (Stats.totalSize stats + recordedSize result)%Z)
  /\ (forall stats value,
        updateStats stats value = recordSettled stats (Fulfilled value))
  /\ exists st',
       run unit sampleSquarePipeline sampleWidePipeline sampleAllSettled true tenTasks
         (startState 0%Z tt) = Some st'
       /\ Stats.total (ParState.stats st') = Z.of_nat (length tenTasks)
       /\ (Stats.successful (ParState.stats st') + Stats.failed (ParState.stats st')
           = Stats.total (ParState.stats st'))%Z.
Proof.
  assert (H : forall promises w,
             length (fst (sampleAllSettled promises w)) = length promises).
  { intros [|promise promises] w; simpl; [reflexivity|].
    now rewrite length_map. }
  split; [exact H|].
  exact (stats_account_for_every_task unit sampleSquarePipeline sampleWidePipeline
           sampleAllSettled H true tenTasks 0%Z tt).
Defined.

(** The square and the wide task of an icon and a source read the same
    source, and they sit in the same batch: in batched mode both are
    dispatched before either has settled. *)
Lemma square_and_wide_share_source_and_batch isUrl path_join settings iconName
    sourceConfig (m : nat) :
  Task.source (squareTask isUrl path_join settings iconName sourceConfig)
  = Task.source (wideTask isUrl path_join settings iconName sourceConfig)
  /\ (2 * m) / BATCH_SIZE = (2 * m + 1) / BATCH_SIZE.
Proof.
  split; [reflexivity|]. unfold BATCH_SIZE.
  pose proof (Nat.div_mod_eq (2 * m) 4). pose proof (Nat.mod_upper_bound (2 * m) 4).
  pose proof (Nat.div_mod_eq (2 * m + 1) 4).
  pose proof (Nat.mod_upper_bound (2 * m + 1) 4). lia.
Qed.

(** C6 as stated fails.  Two fetches of one source through the cache that
    both start before either has come back (as the square and the wide
    task of an icon do in batched mode) both miss the cache, and the source
    is retrieved twice. *)
Lemma overlapping_fetches_retrieve_twice :
  let first := fetchContent_start keyUrl true initialFetchState in
  let second := fetchContent_start keyUrl true (snd first) in
  let third :=
    fetchContent_finish (AwaitingRetrieval keyUrl true) (Js.Ok "<svg/>") (snd second) in
  let fourth :=
    fetchContent_finish (AwaitingRetrieval keyUrl true) (Js.Ok "<svg/>") (snd third) in
  fst first = inr (AwaitingRetrieval keyUrl true)
  /\ fst second = inr (AwaitingRetrieval keyUrl true)
  /\ fst third = Js.Ok "<svg/>"
  /\ fst fourth = Js.Ok "<svg/>"
  /\ retrievalsOf keyUrl (FetchState.log (snd fourth)) = 2
  /\ ~ retrievalsOf keyUrl (FetchState.log (snd fourth)) <= 1.
Proof.
  cbn zeta. repeat split. vm_compute. lia.
Qed.

(** A retrieval that fails caches nothing: the next fetch of the source
    retrieves again. *)
Lemma failed_fetch_is_retried :
  let missing := "https://example.com/icons/missing.svg" in
  let st := snd (fetchEach (fun _ => true) unit sampleHttpGet sampleHttpGet
                   (cachedRequests [missing; missing]) (initialFetchState, tt)) in
  retrievalsOf missing (FetchState.log (fst st)) = 2
  /\ successesOf missing (FetchState.log (fst st)) = 0.
Proof. split; reflexivity. Qed.

Lemma fetchContent_cached_after_success_witness :
  let st0 := (initialFetchState, tt) in
  let st1 := snd (fetchContent (fun _ => true) unit sampleHttpGet sampleHttpGet
                    keyUrl true st0) in
  let between := [("https://example.com/icons/user.svg", true); (keyUrl, false)] in
  let st2 := snd (fetchEach (fun _ => true) unit sampleHttpGet sampleHttpGet
                    between st1) in
  fetchContent (fun _ => true) unit sampleHttpGet sampleHttpGet keyUrl true st0
  = (Js.Ok "<svg/>", st1)
  /\ fetchEach (fun _ => true) unit sampleHttpGet sampleHttpGet between st1
     = ([Js.Ok "<svg/>"; Js.Ok "<svg/>"], st2)
  /\ fetchContent (fun _ => true) unit sampleHttpGet sampleHttpGet keyUrl true st2
     = (Js.Ok "<svg/>", st2)
  /\ forall sources w other,
       successesOf other
         (FetchState.log
            (fst (snd (fetchEach (fun _ => true) unit sampleHttpGet sampleHttpGet
                         (cachedRequests sources) (initialFetchState, w))))) <= 1.
Proof.
  cbn zeta.
  assert (H1 : fetchContent (fun _ => true) unit sampleHttpGet sampleHttpGet keyUrl true
                 (initialFetchState, tt)
               = (Js.Ok "<svg/>",
                  snd (fetchContent (fun _ => true) unit sampleHttpGet sampleHttpGet
                         keyUrl true (initialFetchState, tt))))
    by (vm_compute; reflexivity).
  assert (H2 : fetchEach (fun _ => true) unit sampleHttpGet sampleHttpGet
                 [("https://example.com/icons/user.svg", true); (keyUrl, false)]
                 (snd (fetchContent (fun _ => true) unit sampleHttpGet sampleHttpGet
                         keyUrl true (initialFetchState, tt)))
               = ([Js.Ok "<svg/>"; Js.Ok "<svg/>"],
                  snd (fetchEach (fun _ => true) unit sampleHttpGet sampleHttpGet
                         [("https://example.com/icons/user.svg", true); (keyUrl, false)]
                         (snd (fetchContent (fun _ => true) unit sampleHttpGet
                                 sampleHttpGet keyUrl true (initialFetchState, tt))))))
    by (vm_compute; reflexivity).
  split; [exact H1|]. split; [exact H2|].
  pose proof (fetchContent_cached_after_success (fun _ => true) unit sampleHttpGet
                sampleHttpGet keyUrl "<svg/>" _ _ _ _ _ H1 H2) as (Hhit & Honce & _).
  split; [exact Hhit | exact Honce].
Defined.

(** ** The command line *)

Lemma isFlag_cases arg :
  isFlag arg = true ->
  arg = "--verbose" \/ arg = "-v" \/ arg = "--parallel" \/ arg = "-p"
  \/ arg = "--help" \/ arg = "-h".
Proof.
  unfold isFlag. cbn [existsb]. rewrite orb_false_r, !orb_true_iff, !String.eqb_eq.
  tauto.
Qed.

(** A list of flags is parsed to the end: each of the three options is on
    if it was on before or one of its spellings occurs. *)
Lemma parseArgs_flags args : forall options level,
  forallb isFlag args = true ->
  parseArgs args options level =
  (Js.Ok {| Options.configFile := Options.configFile options;
            Options.verbose := Options.verbose options || hasFlag "--verbose" "-v" args;
            Options.parallel :=
              Options.parallel options || hasFlag "--parallel" "-p" args;
            Options.help := Options.help options || hasFlag "--help" "-h" args |},
   if hasFlag "--verbose" "-v" args then Logger.DEBUG else level).
Proof.
  induction args as [|arg args IH]; intros options level Hall.
  - destruct options. cbn. now rewrite !orb_false_r.
  - cbn [forallb] in Hall. apply andb_prop in Hall as [Harg Hall].
    destruct options as [file v p h].
    destruct (isFlag_cases arg Harg) as [->|[->|[->|[->|[->| ->]]]]];
      cbn [parseArgs String.eqb Ascii.eqb Bool.eqb orb andb];
      rewrite (IH _ _ Hall); unfold hasFlag;
      cbn [existsb String.eqb Ascii.eqb Bool.eqb orb andb Options.configFile
           Options.verbose Options.parallel Options.help];
      repeat match goal with
             | |- context [existsb ?f args] => destruct (existsb f args)
             end;
      destruct v, p, h; reflexivity.
Qed.

Lemma existsb_Permutation {A : Type} (f : A -> bool) (l l' : list A) :
  Permutation l l' -> existsb f l = existsb f l'.
Proof.
  induction 1 as [|x l l' _ IH|x y l|l l' l'' _ IH1 _ IH2]; cbn.
  - reflexivity.
  - now rewrite IH.
  - destruct (f x), (f y); reflexivity.
  - now rewrite IH1.
Qed.

Lemma forallb_Permutation {A : Type} (f : A -> bool) (l l' : list A) :
  Permutation l l' -> forallb f l = forallb f l'.
Proof.
  induction 1 as [|x l l' _ IH|x y l|l l' l'' _ IH1 _ IH2]; cbn.
  - reflexivity.
  - now rewrite IH.
  - destruct (f x), (f y); reflexivity.
  - now rewrite IH1.
Qed.

(** Arguments that parse to the end can be followed by more: parsing goes
    on from the options and the level reached. *)
Lemma parseArgs_app_bounded n : forall pre post options level options' level',
  length pre <= n ->
  parseArgs pre options level = (Js.Ok options', level') ->
  parseArgs (pre ++ post) options level = parseArgs post options' level'.
Proof.
  induction n as [|n IH]; intros pre post options level options' level' Hn Hpre.
  - destruct pre; [|cbn in Hn; lia]. cbn in Hpre. now injection Hpre as <- <-.
  - destruct pre as [|arg rest].
    { cbn in Hpre. now injection Hpre as <- <-. }
    cbn [app parseArgs] in *. cbn [length] in Hn.
    destruct (String.eqb arg "--config" || String.eqb arg "-c").
    { destruct rest as [|file rest']; [discriminate|].
      cbn [app]. apply IH; [cbn [length] in Hn; lia | exact Hpre]. }
    destruct (String.eqb arg "--verbose" || String.eqb arg "-v").
    { apply IH; [lia | exact Hpre]. }
    destruct (String.eqb arg "--parallel" || String.eqb arg "-p").
    { apply IH; [lia | exact Hpre]. }
    destruct (String.eqb arg "--help" || String.eqb arg "-h").
    { apply IH; [lia | exact Hpre]. }
    discriminate.
Qed.

Lemma parseArgs_app pre post options level options' level' :
  parseArgs pre options level = (Js.Ok options', level') ->
  parseArgs (pre ++ post) options level = parseArgs post options' level'.
Proof. apply (parseArgs_app_bounded (length pre)). lia. Qed.

(** The logger is only ever at the level it starts at or at the level that
    a verbose flag sets. *)
Lemma parseArgs_level_bounded n : forall args options level,
  length args <= n ->
  snd (parseArgs args options level) = level
  \/ snd (parseArgs args options level) = Logger.DEBUG.
Proof.
  induction n as [|n IH]; intros args options level Hn.
  - destruct args; [now left | cbn in Hn; lia].
  - destruct args as [|arg rest]; [now left|].
    cbn [parseArgs]. cbn [length] in Hn.
    destruct (String.eqb arg "--config" || String.eqb arg "-c").
    { destruct rest as [|file rest']; [now left|].
      apply IH. cbn [length] in Hn. lia. }
    destruct (String.eqb arg "--verbose" || String.eqb arg "-v").
    { right. destruct (IH rest
                         {| Options.configFile := Options.configFile options;
                            Options.verbose := true;
                            Options.parallel := Options.parallel options;
                            Options.help := Options.help options |}
                         Logger.DEBUG) as [H|H]; [lia | exact H | exact H]. }
    destruct (String.eqb arg "--parallel" || String.eqb arg "-p").
    { apply IH. lia. }
    destruct (String.eqb arg "--help" || String.eqb arg "-h").
    { apply IH. lia. }
    now left.
Qed.

(** X1.  Arguments that are all flags ([--verbose], [--parallel], [--help]
    and their short forms) are accepted in any order and any number:
    the configuration file stays [config.yml], [verbose] and [parallel] are
    on exactly if one of their spellings occurs, and the parser ends with
    the help text instead of options exactly if a help flag occurs.  The
    logger prints debug messages afterwards exactly if a verbose flag
    occurs.  A rearrangement of the arguments gives the same outcome. *)
Theorem parse_flags_in_any_order args :
  forallb isFlag args = true ->
  parse args =
  (Js.Ok (if hasFlag "--help" "-h" args then HelpShown
          else Parsed {| Options.configFile := DEFAULT_CONFIG;
                         Options.verbose := hasFlag "--verbose" "-v" args;
                         Options.parallel := hasFlag "--parallel" "-p" args;
                         Options.help := false |}),
   if hasFlag "--verbose" "-v" args then Logger.DEBUG else Logger.INFO)
  /\ Logger.prints (snd (parse args)) Logger.debug = hasFlag "--verbose" "-v" args
  /\ forall args', Permutation args args' -> parse args' = parse args.
Proof.
  intros Hall.
  assert (Hparse : forall l, forallb isFlag l = true ->
            parse l =
            (Js.Ok (if hasFlag "--help" "-h" l then HelpShown
                    else Parsed {| Options.configFile := DEFAULT_CONFIG;
                                   Options.verbose := hasFlag "--verbose" "-v" l;
                                   Options.parallel := hasFlag "--parallel" "-p" l;
                                   Options.help := false |}),
             if hasFlag "--verbose" "-v" l then Logger.DEBUG else Logger.INFO)).
  { intros l Hl. unfold parse. rewrite (parseArgs_flags l _ _ Hl).
    cbn [defaultOptions Options.configFile Options.verbose Options.parallel
         Options.help orb].
    destruct (hasFlag "--help" "-h" l); reflexivity. }
  split; [now apply Hparse|]. split.
  - rewrite (Hparse args Hall). cbn [snd].
    destruct (hasFlag "--verbose" "-v" args); reflexivity.
  - intros args' Hperm.
    rewrite (Hparse args Hall), (Hparse args').
    + unfold hasFlag. now rewrite !(existsb_Permutation _ _ _ Hperm).
    + now rewrite <- (forallb_Permutation _ _ _ Hperm).
Qed.

Lemma parse_flags_in_any_order_witness :
  forallb isFlag ["--parallel"; "-v"; "-p"] = true
  /\ parse ["--parallel"; "-v"; "-p"] =
     (Js.Ok (if hasFlag "--help" "-h" ["--parallel"; "-v"; "-p"] then HelpShown
             else Parsed {| Options.configFile := DEFAULT_CONFIG;
                            Options.verbose :=
                              hasFlag "--verbose" "-v" ["--parallel"; "-v"; "-p"];
                            Options.parallel :=
                              hasFlag "--parallel" "-p" ["--parallel"; "-v"; "-p"];
                            Options.help := false |}),
      if hasFlag "--verbose" "-v" ["--parallel"; "-v"; "-p"]
      then Logger.DEBUG else Logger.INFO)
  /\ Logger.prints (snd (parse ["--parallel"; "-v"; "-p"])) Logger.debug
     = hasFlag "--verbose" "-v" ["--parallel"; "-v"; "-p"]
  /\ forall args',
       Permutation ["--parallel"; "-v"; "-p"] args' ->
       parse args' = parse ["--parallel"; "-v"; "-p"].
Proof.
  split; [reflexivity|].
  apply (parse_flags_in_any_order ["--parallel"; "-v"; "-p"]). reflexivity.
Defined.

(** X2.  After arguments that parse, [--config] (or [-c]) takes the
    argument that follows it as the configuration file as it stands, also
    when it is spelt like an option, and replaces an earlier choice; the
    flags after it count as usual. *)
Theorem parse_config_takes_next_argument pre option file post options level :
  parseArgs pre defaultOptions Logger.initialLevel = (Js.Ok options, level) ->
  isConfigOption option = true ->
  forallb isFlag post = true ->
  parse (pre ++ option :: file :: post) =
  (Js.Ok (if Options.help options || hasFlag "--help" "-h" post then HelpShown
          else Parsed {| Options.configFile := file;
                         Options.verbose :=
                           Options.verbose options || hasFlag "--verbose" "-v" post;
                         Options.parallel :=
                           Options.parallel options || hasFlag "--parallel" "-p" post;
                         Options.help := false |}),
   if hasFlag "--verbose" "-v" post then Logger.DEBUG else level).
Proof.
  intros Hpre Hoption Hpost. unfold parse.
  rewrite (parseArgs_app pre _ _ _ _ _ Hpre). cbn [parseArgs].
  unfold isConfigOption in Hoption. rewrite Hoption.
  rewrite (parseArgs_flags post _ _ Hpost).
  cbn [Options.configFile Options.verbose Options.parallel Options.help].
  destruct (Options.help options || hasFlag "--help" "-h" post); reflexivity.
Qed.

Lemma parse_config_takes_next_argument_witness :
  parseArgs ["-c"; "first.yml"; "-v"] defaultOptions Logger.initialLevel
  = (Js.Ok {| Options.configFile := "first.yml"; Options.verbose := true;
              Options.parallel := false; Options.help := false |}, Logger.DEBUG)
  /\ isConfigOption "--config" = true
  /\ forallb isFlag ["-p"] = true
  /\ parse (["-c"; "first.yml"; "-v"] ++ "--config" :: "--help" :: ["-p"]) =
     (Js.Ok (Parsed {| Options.configFile := "--help"; Options.verbose := true;
                       Options.parallel := true; Options.help := false |}),
      Logger.DEBUG).
Proof.
  split; [reflexivity|]. split; [reflexivity|]. split; [reflexivity|].
  exact (parse_config_takes_next_argument ["-c"; "first.yml"; "-v"] "--config" "--help"
           ["-p"] _ _ eq_refl eq_refl eq_refl).
Defined.

(** X3.  After arguments that parse, an argument that is none of the eight
    spellings makes the parser throw [Unknown option: ] with the argument,
    whatever follows, and [--config] (or [-c]) as the last argument makes
    it throw [--config option requires a file path]; no help is shown, and
    the logger stays at the level that the arguments before had set. *)
Theorem parse_rejects_malformed_arguments pre options level :
  parseArgs pre defaultOptions Logger.initialLevel = (Js.Ok options, level) ->
  (forall bad rest,
     isFlag bad = false -> isConfigOption bad = false ->
     parse (pre ++ bad :: rest) = (Js.Throw ("Unknown option: " +:+ bad), level))
  /\ (forall option,
        isConfigOption option = true ->
        parse (pre ++ [option])
        = (Js.Throw "--config option requires a file path", level)).
Proof.
  intros Hpre. split.
  - intros bad rest Hflag Hconfig. unfold parse.
    rewrite (parseArgs_app pre _ _ _ _ _ Hpre). cbn [parseArgs].
    unfold isConfigOption in Hconfig. rewrite Hconfig.
    unfold isFlag in Hflag. cbn [existsb] in Hflag.
    rewrite orb_false_r in Hflag.
    repeat (apply orb_false_elim in Hflag as [? Hflag]).
    repeat match goal with H : String.eqb _ _ = false |- _ => rewrite H; clear H end.
    reflexivity.
  - intros option Hoption. unfold parse.
    rewrite (parseArgs_app pre _ _ _ _ _ Hpre). cbn [parseArgs].
    unfold isConfigOption in Hoption. now rewrite Hoption.
Qed.

Lemma parse_rejects_malformed_arguments_witness :
  parseArgs ["--help"; "-v"] defaultOptions Logger.initialLevel
  = (Js.Ok {| Options.configFile := DEFAULT_CONFIG; Options.verbose := true;
              Options.parallel := false; Options.help := true |}, Logger.DEBUG)
  /\ (forall bad rest,
        isFlag bad = false -> isConfigOption bad = false ->
        parse (["--help"; "-v"] ++ bad :: rest)
        = (Js.Throw ("Unknown option: " +:+ bad), Logger.DEBUG))
  /\ (forall option,
        isConfigOption option = true ->
        parse (["--help"; "-v"] ++ [option])
        = (Js.Throw "--config option requires a file path", Logger.DEBUG)).
Proof.
  split; [reflexivity|].
  exact (parse_rejects_malformed_arguments ["--help"; "-v"] _ _ eq_refl).
Defined.

(** X4.  Raising the level of the logger never silences a method that
    printed before, and whatever the command line, the logger prints
    errors, warnings, information, successes and progress after it: only
    debug messages depend on the arguments. *)
Theorem logger_never_hides_messages :
  (forall current raised method,
     Logger.levels current <= Logger.levels raised ->
     Logger.prints current method = true ->
     Logger.prints raised method = true)
  /\ (forall args method,
        method <> Logger.debug ->
        Logger.prints (snd (parse args)) method = true).
Proof.
  split.
  - intros current raised method Hle. unfold Logger.prints.
    rewrite !Nat.leb_le. lia.
  - intros args method Hm.
    assert (Hlevel : snd (parse args) = Logger.INFO \/ snd (parse args) = Logger.DEBUG).
    { unfold parse.
      pose proof (parseArgs_level_bounded (length args) args defaultOptions
                    Logger.initialLevel (Nat.le_refl _)) as H.
      destruct (parseArgs args defaultOptions Logger.initialLevel) as [[o|e] l];
        exact H. }
    destruct Hlevel as [-> | ->]; destruct method; try reflexivity; congruence.
Qed.

Lemma logger_never_hides_messages_witness :
  (forall current raised method,
     Logger.levels current <= Logger.levels raised ->
     Logger.prints current method = true ->
     Logger.prints raised method = true)
  /\ Logger.prints (snd (parse ["--bogus"])) Logger.warn = true.
Proof.
  destruct logger_never_hides_messages as [Hraise Hprint].
  split; [exact Hraise|]. apply Hprint. discriminate.
Defined.

(** ** File names *)

Lemma sanitizeFilename_chars filename :
  charsOf (sanitizeFilename filename)
  = map (fun c => if isForbidden c then "_"%char else c) (charsOf filename).
Proof. induction filename as [|c rest IH]; cbn; [reflexivity | now rewrite IH]. Qed.

Lemma sanitizeFilename_clean filename :
  forallb (fun c => negb (isForbidden c)) (charsOf filename) = true ->
  sanitizeFilename filename = filename.
Proof.
  induction filename as [|c rest IH]; cbn [charsOf forallb sanitizeFilename];
    [reflexivity|].
  intros H. apply andb_prop in H as [Hc Hrest]. apply negb_true_iff in Hc.
  now rewrite Hc, IH.
Qed.

Lemma sanitizeFilename_is_clean filename :
  forallb (fun c => negb (isForbidden c)) (charsOf (sanitizeFilename filename)) = true.
Proof.
  induction filename as [|c rest IH]; cbn [charsOf forallb sanitizeFilename];
    [reflexivity|].
  rewrite IH, andb_true_r. destruct (isForbidden c) eqn:E; [reflexivity|].
  now rewrite E.
Qed.

(** X5.  A sanitized file name has the length of the name and none of the
    nine characters of the class; a name without them is returned as it
    is, and only such a name; so sanitizing twice is sanitizing once. *)
Theorem sanitizeFilename_removes_forbidden filename :
  String.length (sanitizeFilename filename) = String.length filename
  /\ (forall c, In c (charsOf (sanitizeFilename filename)) -> ~ In c forbiddenCharacters)
  /\ (sanitizeFilename filename = filename
      <-> forall c, In c (charsOf filename) -> ~ In c forbiddenCharacters)
  /\ sanitizeFilename (sanitizeFilename filename) = sanitizeFilename filename.
Proof.
  assert (Hclean : forall s,
            forallb (fun c => negb (isForbidden c)) (charsOf s) = true
            <-> forall c, In c (charsOf s) -> ~ In c forbiddenCharacters).
  { intros s. rewrite forallb_forall. split; intros H c Hc.
    - specialize (H c Hc). apply negb_true_iff in H. intros Hin.
      unfold isForbidden in H.
      assert (existsb (Ascii.eqb c) forbiddenCharacters = true); [|congruence].
      apply existsb_exists. exists c. split; [exact Hin | apply Ascii.eqb_refl].
    - apply negb_true_iff. destruct (isForbidden c) eqn:E; [|reflexivity].
      unfold isForbidden in E. apply existsb_exists in E as (x & Hx & Hcx).
      apply Ascii.eqb_eq in Hcx. subst x. now apply H in Hc. }
  split; [|split; [|split]].
  - induction filename as [|c rest IH]; cbn; [reflexivity | now rewrite IH].
  - apply Hclean, sanitizeFilename_is_clean.
  - rewrite <- Hclean. split; [|apply sanitizeFilename_clean].
    intros Heq. rewrite <- Heq. apply sanitizeFilename_is_clean.
  - apply sanitizeFilename_clean, sanitizeFilename_is_clean.
Qed.

(** ** The kind of sources *)

Lemma sourceKinds_spec (isUrl : string -> bool) (sources : list SourceConfig.t) :
  (existsb isUrl (map SourceConfig.source sources) = true
   <-> exists s, In s sources /\ isUrl (SourceConfig.source s) = true)
  /\ (existsb (fun s => negb (isUrl s)) (map SourceConfig.source sources) = true
      <-> exists s, In s sources /\ isUrl (SourceConfig.source s) = false)
  /\ (existsb isUrl (map SourceConfig.source sources) = false ->
      existsb (fun s => negb (isUrl s)) (map SourceConfig.source sources) = false ->
      sources = []).
Proof.
  split; [|split].
  - rewrite existsb_exists. split.
    + intros (x & Hx & Hu). apply in_map_iff in Hx as (s & <- & Hs). eauto.
    + intros (s & Hs & Hu). exists (SourceConfig.source s). split; [|exact Hu].
      now apply in_map.
  - rewrite existsb_exists. split.
    + intros (x & Hx & Hu). apply in_map_iff in Hx as (s & <- & Hs).
      apply negb_true_iff in Hu. eauto.
    + intros (s & Hs & Hu). exists (SourceConfig.source s).
      split; [now apply in_map | now rewrite Hu].
  - destruct sources as [|s sources]; [reflexivity|]. cbn.
    destruct (isUrl (SourceConfig.source s)); cbn; discriminate.
Qed.

(** X6.  The start-up message calls the sources remote URLs exactly if
    there is a source and every source is a URL, local directories exactly
    if there is a source and none is a URL, and mixed sources in the
    remaining cases, among them the empty list. *)
Theorem sourceType_cases (isUrl : string -> bool) (sources : list SourceConfig.t) :
  (sourceType isUrl sources = "remote URLs"
   <-> sources <> []
       /\ forall s, In s sources -> isUrl (SourceConfig.source s) = true)
  /\ (sourceType isUrl sources = "local directories"
      <-> sources <> []
          /\ forall s, In s sources -> isUrl (SourceConfig.source s) = false)
  /\ (sourceType isUrl sources = "mixed sources"
      <-> sources = []
          \/ (exists s, In s sources /\ isUrl (SourceConfig.source s) = true)
             /\ (exists s, In s sources /\ isUrl (SourceConfig.source s) = false)).
Proof.
  unfold sourceType.
  pose proof (sourceKinds_spec isUrl sources) as (Hremote & Hlocal & Hnone).
  destruct (existsb isUrl (map SourceConfig.source sources));
    destruct (existsb (fun s => negb (isUrl s)) (map SourceConfig.source sources));
    cbn [negb andb].
  - destruct (proj1 Hremote eq_refl) as (r & Hr & Hru).
    destruct (proj1 Hlocal eq_refl) as (l & Hl & Hlu).
    split; [|split]; split; try discriminate.
    + intros [_ H]. apply H in Hl. congruence.
    + intros [_ H]. apply H in Hr. congruence.
    + intros _. right. split; eauto.
    + intros _. reflexivity.
  - destruct (proj1 Hremote eq_refl) as (r & Hr & Hru).
    assert (Hall : forall s, In s sources -> isUrl (SourceConfig.source s) = true).
    { intros s Hs. destruct (isUrl (SourceConfig.source s)) eqn:E; [reflexivity|].
      assert (false = true); [|discriminate]. apply Hlocal. eauto. }
    split; [|split]; split; try discriminate.
    + intros _. split; [|exact Hall]. intros ->. destruct Hr.
    + intros _. reflexivity.
    + intros [_ H]. apply H in Hr. congruence.
    + intros [->|[_ (l & Hl & Hlu)]]; [destruct Hr|].
      apply Hall in Hl. congruence.
  - destruct (proj1 Hlocal eq_refl) as (l & Hl & Hlu).
    assert (Hall : forall s, In s sources -> isUrl (SourceConfig.source s) = false).
    { intros s Hs. destruct (isUrl (SourceConfig.source s)) eqn:E; [|reflexivity].
      assert (false = true); [|discriminate]. apply Hremote. eauto. }
    split; [|split]; split; try discriminate.
    + intros [_ H]. apply H in Hl. congruence.
    + intros _. split; [|exact Hall]. intros ->. destruct Hl.
    + intros _. reflexivity.
    + intros [->|[(r & Hr & Hru) _]]; [destruct Hl|].
      apply Hall in Hr. congruence.
  - specialize (Hnone eq_refl eq_refl).
    split; [|split]; split; try discriminate.
    + intros [H _]. contradiction.
    + intros [H _]. contradiction.
    + intros _. now left.
    + intros _. reflexivity.
Qed.

(** ** Replacing the first occurrence *)

Lemma append_cons (c : ascii) (a b : string) : String c a +:+ b = String c (a +:+ b).
Proof. reflexivity. Qed.

Lemma append_empty (b : string) : "" +:+ b = b.
Proof. reflexivity. Qed.

Lemma length_append (a b : string) :
  String.length (a +:+ b) = String.length a + String.length b.
Proof.
  induction a as [|c a IH]; [reflexivity|].
  rewrite append_cons. cbn [String.length Nat.add]. now rewrite IH.
Qed.

Lemma append_assoc (a b c : string) : (a +:+ b) +:+ c = a +:+ b +:+ c.
Proof.
  induction a as [|x a IH]; [reflexivity|].
  rewrite !append_cons. now rewrite IH.
Qed.

Lemma append_cancel_l (a b c : string) : a +:+ b = a +:+ c -> b = c.
Proof.
  induction a as [|x a IH]; intros H; [exact H|].
  rewrite !append_cons in H. injection H. exact IH.
Qed.

Lemma dropString_append (a b : string) : dropString (String.length a) (a +:+ b) = b.
Proof.
  induction a as [|c a IH]; [reflexivity|].
  rewrite append_cons. cbn [String.length dropString]. exact IH.
Qed.

(** [String.prefix] holds exactly of the strings that start with the
    pattern. *)
Lemma prefix_iff (pattern s : string) :
  String.prefix pattern s = true <-> exists rest, s = pattern +:+ rest.
Proof.
  revert s. induction pattern as [|c pattern IH]; intros s.
  - split; [intros _; now exists s | intros _; now destruct s].
  - destruct s as [|d s].
    + split; [discriminate | intros [rest H]; discriminate].
    + change (String.prefix (String c pattern) (String d s))
        with (if Ascii.ascii_dec c d then String.prefix pattern s else false).
      destruct (Ascii.ascii_dec c d) as [<-|Hne].
      * rewrite IH. split; intros [rest H]; exists rest.
        -- rewrite append_cons. now rewrite H.
        -- rewrite append_cons in H. now injection H.
      * split; [discriminate|]. intros [rest H]. rewrite append_cons in H.
        injection H as H _. congruence.
Qed.

(** A string in which the pattern does not occur is returned as it is. *)
Lemma replace_without_occurrence (pattern replacement s : string) :
  (forall before after, s <> before +:+ pattern +:+ after) ->
  replace pattern replacement s = s.
Proof.
  induction s as [|c s IH]; intros Hno; cbn [replace].
  - destruct (String.prefix pattern EmptyString) eqn:E; [|reflexivity].
    apply prefix_iff in E as [rest H]. exfalso. apply (Hno EmptyString rest). exact H.
  - destruct (String.prefix pattern (String c s)) eqn:E.
    + apply prefix_iff in E as [rest H]. exfalso. apply (Hno "" rest). exact H.
    + f_equal. apply IH. intros before after H. apply (Hno (String c before) after).
      rewrite append_cons. now rewrite H.
Qed.

Lemma replace_at_prefix (pattern replacement s : string) :
  String.prefix pattern s = true ->
  replace pattern replacement s
  = replacement +:+ dropString (String.length pattern) s.
Proof. intros H. destruct s; cbn [replace]; now rewrite H. Qed.

(** The leftmost occurrence of the pattern is the one replaced. *)
Lemma replace_leftmost (pattern replacement : string) (before : string) :
  forall s after,
    s = before +:+ pattern +:+ after ->
    (forall before' after',
       s = before' +:+ pattern +:+ after' ->
       String.length before <= String.length before') ->
    replace pattern replacement s = before +:+ replacement +:+ after.
Proof.
  induction before as [|c before IH]; intros s after Hs Hmin.
  - rewrite append_empty in Hs. subst s.
    rewrite replace_at_prefix by (apply prefix_iff; eauto).
    now rewrite dropString_append.
  - rewrite append_cons in Hs. subst s. cbn [replace].
    destruct (String.prefix pattern (String c (before +:+ pattern +:+ after))) eqn:E.
    + apply prefix_iff in E as [rest H].
      specialize (Hmin EmptyString rest H). cbn in Hmin. lia.
    + rewrite append_cons. f_equal. apply IH; [reflexivity|].
      intros before' after' H.
      specialize (Hmin (String c before') after').
      rewrite append_cons, H in Hmin. specialize (Hmin eq_refl).
      cbn [String.length] in Hmin. lia.
Qed.

(** X7.  The base name of an icon is its file name without the leftmost
    occurrence of [.svg]: whatever stands before and after that occurrence
    is kept.  A file name in which [.svg] does not occur is its own base
    name. *)
Theorem baseName_removes_leftmost_svg iconName before after :
  iconName = before +:+ ".svg" +:+ after ->
  (forall before' after',
     iconName = before' +:+ ".svg" +:+ after' ->
     String.length before <= String.length before') ->
  baseName iconName = before +:+ after
  /\ String.length (baseName iconName) + 4 = String.length iconName
  /\ forall other,
       (forall before' after', other <> before' +:+ ".svg" +:+ after') ->
       baseName other = other.
Proof.
  intros Hname Hmin. split; [|split].
  - unfold baseName. now rewrite (replace_leftmost ".svg" "" before iconName after).
  - unfold baseName.
    rewrite (replace_leftmost ".svg" "" before iconName after) by assumption.
    rewrite append_empty, Hname, !length_append. cbn [String.length]. lia.
  - intros other Hno. now apply replace_without_occurrence.
Qed.

Lemma baseName_removes_leftmost_svg_witness :
  "bell.svg.old.svg" = "bell" +:+ ".svg" +:+ ".old.svg"
  /\ (forall before' after',
        "bell.svg.old.svg" = before' +:+ ".svg" +:+ after' ->
        String.length "bell" <= String.length before')
  /\ baseName "bell.svg.old.svg" = "bell" +:+ ".old.svg"
  /\ String.length (baseName "bell.svg.old.svg") + 4 = String.length "bell.svg.old.svg"
  /\ forall other,
       (forall before' after', other <> before' +:+ ".svg" +:+ after') ->
       baseName other = other.
Proof.
  assert (Hmin : forall before' after',
            "bell.svg.old.svg" = before' +:+ ".svg" +:+ after' ->
            String.length "bell" <= String.length before').
  { intros [|a [|b [|c [|d before']]]] after' H;
      rewrite ?append_cons, ?append_empty in H; try discriminate.
    cbn [String.length]. lia. }
  split; [reflexivity|]. split; [exact Hmin|].
  exact (baseName_removes_leftmost_svg "bell.svg.old.svg" "bell" ".old.svg"
           eq_refl Hmin).
Defined.

(** ** Output files *)

Lemma noSeparator_append (a b : string) :
  noSeparator (a +:+ b) = noSeparator a && noSeparator b.
Proof.
  unfold noSeparator. induction a as [|c a IH]; [reflexivity|].
  rewrite append_cons. cbn [charsOf forallb]. now rewrite IH, andb_assoc.
Qed.

Lemma noSeparator_dropString (n : nat) : forall s,
  noSeparator s = true -> noSeparator (dropString n s) = true.
Proof.
  induction n as [|n IH]; intros s Hs; [exact Hs|].
  destruct s as [|c s]; [reflexivity|].
  cbn [dropString]. apply IH. unfold noSeparator in *. cbn [charsOf forallb] in Hs.
  now apply andb_prop in Hs as [_ Hs].
Qed.

Lemma noSeparator_replace (pattern s : string) :
  noSeparator s = true -> noSeparator (replace pattern "" s) = true.
Proof.
  induction s as [|c s IH]; intros Hs.
  - cbn [replace]. destruct (String.prefix pattern EmptyString); [|reflexivity].
    rewrite append_empty. now apply noSeparator_dropString.
  - cbn [replace]. destruct (String.prefix pattern (String c s)).
    + rewrite append_empty. now apply noSeparator_dropString.
    + unfold noSeparator in *. cbn [charsOf forallb] in *.
      apply andb_prop in Hs as [Hc Hs]. rewrite Hc. now apply IH.
Qed.

Lemma isPlainName_png (stem : string) :
  noSeparator stem = true -> isPlainName (stem +:+ ".png") = true.
Proof.
  intros Hs. unfold isPlainName. rewrite noSeparator_append, Hs.
  assert (Hlen : 4 <= String.length (stem +:+ ".png"))
    by (rewrite length_append; cbn; lia).
  destruct (String.eqb_spec (stem +:+ ".png") "") as [E|_];
    [rewrite E in Hlen; cbn in Hlen; lia|].
  destruct (String.eqb_spec (stem +:+ ".png") ".") as [E|_];
    [rewrite E in Hlen; cbn in Hlen; lia|].
  destruct (String.eqb_spec (stem +:+ ".png") "..") as [E|_];
    [rewrite E in Hlen; cbn in Hlen; lia|].
  reflexivity.
Qed.

Section OutputFacts.

Variable isUrl : string -> bool.
Variable path_join : string -> string -> string.

(** [path.join] normalises its result, and keeps a plain name as the last
    segment: joined to one directory, two different plain names give two
    different paths. *)
Hypothesis path_join_plain :
  forall directory a b,
    isPlainName a = true -> isPlainName b = true ->
    path_join directory a = path_join directory b -> a = b.

(** X8.  For an icon name, a suffix and a wide suffix without a slash or
    backslash, the wide suffix not empty, the wide task of an icon and a
    source never writes to the file of their square task: the two file
    names are plain names that differ, and [path.join] keeps plain names
    apart. *)
Theorem square_and_wide_outputs_differ icons sources settings i j iconName sourceConfig
    squarePlanned widePlanned :
  noSeparator iconName = true ->
  noSeparator (SourceConfig.suffix sourceConfig) = true ->
  noSeparator (PlanSettings.wideSuffix settings) = true ->
  PlanSettings.wideSuffix settings <> "" ->
  icons !! i = Some iconName ->
  sources !! j = Some sourceConfig ->
  generateTasks isUrl path_join icons sources settings !! (2 * (i * length sources + j))
  = Some squarePlanned ->
  generateTasks isUrl path_join icons sources settings
    !! (2 * (i * length sources + j) + 1) = Some widePlanned ->
  Task.output squarePlanned <> Task.output widePlanned.
Proof.
  intros Hicon Hsuffix Hwide Hne Hi Hj Hsquare Hwidetask Heq.
  rewrite <- (Nat.add_0_r (2 * _)) in Hsquare.
  rewrite (generateTasks_lookup isUrl path_join _ _ _ _ _ _ _ 0 Hi Hj) in Hsquare by lia.
  rewrite (generateTasks_lookup isUrl path_join _ _ _ _ _ _ _ 1 Hi Hj) in Hwidetask by lia.
  injection Hsquare as <-. injection Hwidetask as <-.
  cbn [squareTask wideTask Task.output] in Heq.
  unfold squareOutput, wideOutput in Heq.
  assert (Hbase : noSeparator (baseName iconName) = true)
    by now apply noSeparator_replace.
  apply path_join_plain in Heq.
  - apply append_cancel_l, append_cancel_l in Heq.
    apply (f_equal String.length) in Heq. rewrite length_append in Heq.
    apply Hne. destruct (PlanSettings.wideSuffix settings); [reflexivity|].
    cbn [String.length] in Heq. lia.
  - rewrite <- append_assoc. apply isPlainName_png.
    now rewrite noSeparator_append, Hbase, Hsuffix.
  - rewrite <- !append_assoc. apply isPlainName_png.
    now rewrite !noSeparator_append, Hbase, Hsuffix, Hwide.
Qed.

End OutputFacts.

Lemma joinNormal_plain directory a b :
  isPlainName a = true -> isPlainName b = true ->
  joinNormal directory a = joinNormal directory b -> a = b.
Proof.
  intros _ _ H. unfold joinNormal in H.
  apply append_cancel_l in H. rewrite !append_cons, !append_empty in H.
  now injection H.
Qed.

Lemma square_and_wide_outputs_differ_witness :
  noSeparator "key.svg" = true
  /\ Task.output
    {| Task.type := square;
       Task.source := "./icons/solid/key.svg";
       Task.output := "out/key_solid.png";
       Task.iconName := "key.svg";
       Task.suffix := "_solid";
       Task.options := SquareOptions (Js.Finite 10%Q) None |}
  <> Task.output
       {| Task.type := wide;
          Task.source := "./icons/solid/key.svg";
          Task.output := "out/key_solid_wide.png";
          Task.iconName := "key.svg";
          Task.suffix := "_solid";
          Task.options :=
            WideOptions (Js.Finite 320%Q) (Js.Finite 180%Q) (Js.Finite 10%Q) None |}.
Proof.
  assert (Hne : PlanSettings.wideSuffix sampleSettings <> "") by discriminate.
  split; [reflexivity|].
  exact (square_and_wide_outputs_differ (fun _ => false) joinNormal joinNormal_plain
           ["key.svg"; "user.svg"] sampleSources sampleSettings 0 1 "key.svg"
           {| SourceConfig.source := "./icons/solid"; SourceConfig.suffix := "_solid" |}
           _ _ eq_refl eq_refl eq_refl Hne eq_refl eq_refl eq_refl eq_refl).
Defined.

(** ** What restyling keeps *)

Module RestyleFacts.
Import Dom DomFacts.

Lemma removeAttribute_absent name a :
  getAttribute name a = None -> removeAttribute name a = a.
Proof.
  unfold removeAttribute. induction a as [|[n v] a IH]; cbn; [reflexivity|].
  destruct (String.eqb n name) eqn:E; cbn; [discriminate|].
  intros H. now rewrite IH.
Qed.

Lemma removeAttribute_setAttribute_absent name value a :
  getAttribute name a = None -> removeAttribute name (setAttribute name value a) = a.
Proof.
  unfold removeAttribute. induction a as [|[n v] a IH]; cbn.
  - now rewrite String.eqb_refl.
  - destruct (String.eqb n name) eqn:E; cbn; [discriminate|].
    rewrite E. cbn. intros H. now rewrite IH.
Qed.

Lemma removeAttribute_setAttribute_other name other value a :
  name <> other ->
  removeAttribute name (setAttribute other value a)
  = setAttribute other value (removeAttribute name a).
Proof.
  intros Hne. unfold removeAttribute. induction a as [|[n v] a IH]; cbn.
  - destruct (String.eqb other name) eqn:E; [|reflexivity].
    apply String.eqb_eq in E. congruence.
  - destruct (String.eqb n other) eqn:Eo; cbn.
    + apply String.eqb_eq in Eo. subst n.
      destruct (String.eqb other name) eqn:E.
      { apply String.eqb_eq in E. congruence. }
      cbn. now rewrite String.eqb_refl.
    + destruct (String.eqb n name) eqn:E; cbn; [exact IH|].
      rewrite Eo. now rewrite IH.
Qed.

Lemma setAttribute_present name value a :
  getAttribute name a = Some value -> setAttribute name value a = a.
Proof.
  induction a as [|[n v] a IH]; cbn; [discriminate|].
  destruct (String.eqb n name) eqn:E.
  - intros H. now injection H as ->.
  - intros H. now rewrite IH.
Qed.

Lemma cleanAttributes_clean a :
  getAttribute "fill" a = None -> getAttribute "stroke" a = None ->
  getAttribute "stroke-width" a = None -> cleanAttributes a = a.
Proof.
  intros Hf Hs Hw. unfold cleanAttributes.
  now rewrite (removeAttribute_absent "fill"), (removeAttribute_absent "stroke"),
    (removeAttribute_absent "stroke-width").
Qed.

Lemma cleanAttributes_idempotent a : cleanAttributes (cleanAttributes a) = cleanAttributes a.
Proof. apply cleanAttributes_clean; apply cleanAttributes_clears; cbn; tauto. Qed.

(** Cleaning undoes either style on attributes that were clean. *)
Lemma cleanAttributes_outlineShape color a :
  cleanAttributes (outlineShape color (cleanAttributes a)) = cleanAttributes a.
Proof.
  assert (Hf : getAttribute "fill" (cleanAttributes a) = None)
    by (apply cleanAttributes_clears; cbn; tauto).
  assert (Hs : getAttribute "stroke" (cleanAttributes a) = None)
    by (apply cleanAttributes_clears; cbn; tauto).
  assert (Hw : getAttribute "stroke-width" (cleanAttributes a) = None)
    by (apply cleanAttributes_clears; cbn; tauto).
  set (b := cleanAttributes a) in *. unfold outlineShape.
  rewrite !getAttribute_setAttribute_other, Hw by discriminate. cbn [truthy].
  unfold cleanAttributes.
  rewrite (removeAttribute_setAttribute_other "fill" "stroke-width") by discriminate.
  rewrite (removeAttribute_setAttribute_absent "fill")
    by (rewrite getAttribute_setAttribute_other by discriminate; exact Hf).
  rewrite (removeAttribute_setAttribute_other "stroke" "stroke-width") by discriminate.
  rewrite (removeAttribute_setAttribute_absent "stroke") by exact Hs.
  now rewrite (removeAttribute_setAttribute_absent "stroke-width") by exact Hw.
Qed.

Lemma cleanAttributes_fill color a :
  cleanAttributes (setAttribute "fill" color (cleanAttributes a)) = cleanAttributes a.
Proof.
  assert (Hf : getAttribute "fill" (cleanAttributes a) = None)
    by (apply cleanAttributes_clears; cbn; tauto).
  unfold cleanAttributes at 1.
  rewrite (removeAttribute_setAttribute_absent "fill") by exact Hf.
  rewrite (removeAttribute_absent "stroke"), (removeAttribute_absent "stroke-width");
    try reflexivity; apply cleanAttributes_clears; cbn; tauto.
Qed.

(** Neither the cleaning nor a style touches an attribute other than the
    three. *)
Lemma restyled_keeps outline color e name :
  ~ In name ["fill"; "stroke"; "stroke-width"] ->
  getAttribute name (restyled outline color e) = getAttribute name (attributes e).
Proof.
  intros Hn. cbn in Hn. unfold restyled, outlineShape.
  destruct (matches SVG_SHAPE_SELECTORS e); [destruct outline|].
  - destruct (truthy _);
      rewrite !getAttribute_setAttribute_other by (intros <-; tauto);
      now apply cleanAttributes_keeps.
  - rewrite getAttribute_setAttribute_other by (intros <-; tauto).
    now apply cleanAttributes_keeps.
  - now apply cleanAttributes_keeps.
Qed.

Lemma tagName_applyColorStyling svg color :
  tagName (applyColorStyling svg color) = tagName svg.
Proof. unfold applyColorStyling. destruct (isOutlineIcon svg), svg; reflexivity. Qed.

(** Every descendant of the restyled icon is a descendant of the icon,
    restyled. *)
Lemma applyColorStyling_descendant svg color d :
  In d (descendants (applyColorStyling svg color)) ->
  exists e, In e (descendants svg)
            /\ tagName d = tagName e
            /\ attributes d = restyled (isOutlineIcon svg) color e.
Proof.
  intros Hd.
  apply (in_map (fun e => (tagName e, attributes e))) in Hd.
  rewrite applyColorStyling_descendants in Hd.
  apply in_map_iff in Hd as (e & He & Hin). injection He as Ht Ha.
  exists e. auto.
Qed.

Lemma restyled_descendant svg color e :
  In e (descendants svg) ->
  exists d, In d (descendants (applyColorStyling svg color))
            /\ tagName d = tagName e
            /\ attributes d = restyled (isOutlineIcon svg) color e.
Proof.
  intros He.
  apply (in_map (fun e => (tagName e, restyled (isOutlineIcon svg) color e))) in He.
  rewrite <- applyColorStyling_descendants in He.
  apply in_map_iff in He as (d & Hd & Hin). injection Hd as Ht Ha.
  exists d. auto.
Qed.

(** X9.  Restyling changes no element count, order or name, and on no
    element, the root included, an attribute other than [fill], [stroke]
    and [stroke-width]: the names of the elements with their values of any
    other attribute read the same before and after. *)
Theorem applyColorStyling_keeps_other_attributes svg color name :
  ~ In name ["fill"; "stroke"; "stroke-width"] ->
  map (fun e => (tagName e, getAttribute name (attributes e)))
    (applyColorStyling svg color :: descendants (applyColorStyling svg color))
  = map (fun e => (tagName e, getAttribute name (attributes e)))
      (svg :: descendants svg).
Proof.
  intros Hn. cbn [map]. f_equal.
  - rewrite tagName_applyColorStyling, applyColorStyling_root. f_equal.
    cbn in Hn. unfold outlineRoot.
    destruct (isOutlineIcon svg);
      now rewrite !getAttribute_setAttribute_other by (intros <-; tauto).
  - transitivity
      (map (fun p : string * list (string * string) => (fst p, getAttribute name (snd p)))
         (map (fun e => (tagName e, attributes e))
            (descendants (applyColorStyling svg color)))).
    { now rewrite map_map. }
    rewrite applyColorStyling_descendants, map_map. apply map_ext. intros e.
    cbn [fst snd]. f_equal. now apply restyled_keeps.
Qed.

(** X10.  After restyling, every descendant that is a shape carries the
    detected style and nothing else of the three attributes (outline:
    stroke in the colour, fill [none], stroke width 1.5; solid: fill in the
    colour, no stroke, no stroke width), and every other descendant
    carries none of the three. *)
Theorem applyColorStyling_styles_descendants svg color d :
  In d (descendants (applyColorStyling svg color)) ->
  let a := attributes d in
  if matches SVG_SHAPE_SELECTORS d then
    if isOutlineIcon svg then
      getAttribute "stroke" a = Some color
      /\ getAttribute "fill" a = Some "none"
      /\ getAttribute "stroke-width" a = Some DEFAULT_STROKE_WIDTH
    else
      getAttribute "fill" a = Some color
      /\ getAttribute "stroke" a = None
      /\ getAttribute "stroke-width" a = None
  else
    getAttribute "fill" a = None
    /\ getAttribute "stroke" a = None
    /\ getAttribute "stroke-width" a = None.
Proof.
  intros Hd. destruct (applyColorStyling_descendant svg color d Hd) as (e & _ & Ht & Ha).
  cbn zeta. rewrite Ha. unfold matches. rewrite Ht.
  exact (StyleFacts.restyled_presentation (isOutlineIcon svg) color e).
Qed.

End RestyleFacts.

(** ** Restyling twice *)

Module RestyleTwice.
Import Dom DomFacts RestyleFacts.

Lemma applyColorStyling_tree t a kids color :
  applyColorStyling (Elem t a kids) color =
  if isOutlineIcon (Elem t a kids) then
    Elem t (outlineRoot color a)
      (map (fun k => updateSubtree (Some SVG_SHAPE_SELECTORS) (outlineShape color)
                       (updateSubtree None cleanAttributes k)) kids)
  else
    Elem t (setAttribute "fill" color a)
      (map (fun k => updateSubtree (Some SVG_SHAPE_SELECTORS) (setAttribute "fill" color)
                       (updateSubtree None cleanAttributes k)) kids).
Proof.
  unfold applyColorStyling. destruct (isOutlineIcon (Elem t a kids)); cbn;
    now rewrite map_map.
Qed.

(** The two passes over a subtree, done twice, are the two passes done
    once, for a style that cleaning undoes. *)
Lemma passes_idempotent (g : list (string * string) -> list (string * string)) :
  (forall a, cleanAttributes (g (cleanAttributes a)) = cleanAttributes a) ->
  forall e,
    updateSubtree (Some SVG_SHAPE_SELECTORS) g
      (updateSubtree None cleanAttributes
         (updateSubtree (Some SVG_SHAPE_SELECTORS) g
            (updateSubtree None cleanAttributes e)))
    = updateSubtree (Some SVG_SHAPE_SELECTORS) g (updateSubtree None cleanAttributes e).
Proof.
  intros Hg e. induction e as [t a kids IH] using element_ind.
  cbn [updateSubtree]. f_equal.
  - destruct (existsb (String.eqb t) SVG_SHAPE_SELECTORS).
    + now rewrite Hg.
    + now rewrite cleanAttributes_idempotent.
  - rewrite !map_map. apply map_ext_Forall. exact IH.
Qed.

Lemma outlineRoot_idempotent color a :
  outlineRoot color (outlineRoot color a) = outlineRoot color a.
Proof.
  unfold outlineRoot at 1.
  set (x := outlineRoot color a).
  assert (Hs : getAttribute "stroke" x = Some color).
  { unfold x, outlineRoot. rewrite !getAttribute_setAttribute_other by discriminate.
    apply getAttribute_setAttribute_same. }
  assert (Hf : getAttribute "fill" x = Some "none").
  { unfold x, outlineRoot. rewrite getAttribute_setAttribute_other by discriminate.
    apply getAttribute_setAttribute_same. }
  assert (Hw : getAttribute "stroke-width" x = Some DEFAULT_STROKE_WIDTH).
  { unfold x, outlineRoot. apply getAttribute_setAttribute_same. }
  now rewrite (setAttribute_present "stroke" color x Hs),
    (setAttribute_present "fill" "none" x Hf),
    (setAttribute_present "stroke-width" DEFAULT_STROKE_WIDTH x Hw).
Qed.

Lemma setFill_idempotent color a :
  setAttribute "fill" color (setAttribute "fill" color a) = setAttribute "fill" color a.
Proof. apply setAttribute_present, getAttribute_setAttribute_same. Qed.

(** An outline icon stays one when restyled. *)
Lemma outline_stays_outline svg color :
  isOutlineIcon svg = true -> isOutlineIcon (applyColorStyling svg color) = true.
Proof.
  intros Ho. apply isOutlineIcon_spec.
  pose proof Ho as Hpath. apply isOutlineIcon_spec in Hpath as (p & Hp & Htag & _).
  destruct (restyled_descendant svg color p Hp) as (d & Hd & Ht & Ha).
  exists d. split; [exact Hd|]. split; [congruence|].
  unfold looksOutlined. rewrite Ha, Ho. unfold restyled, matches. rewrite Htag.
  cbn [SVG_SHAPE_SELECTORS existsb String.eqb Ascii.eqb Bool.eqb andb orb].
  destruct (outlineShape_clean color (attributes p)) as [Hs _]. now rewrite Hs.
Qed.

(** A solid icon stays one when restyled in a colour other than [none]
    and the empty string. *)
Lemma solid_stays_solid svg color :
  color <> "none" -> color <> "" ->
  isOutlineIcon svg = false -> isOutlineIcon (applyColorStyling svg color) = false.
Proof.
  intros Hnone Hempty Ho.
  destruct (isOutlineIcon (applyColorStyling svg color)) eqn:E; [|reflexivity].
  apply isOutlineIcon_spec in E as (d & Hd & Htag & Hlooks).
  destruct (applyColorStyling_descendant svg color d Hd) as (e & _ & Ht & Ha).
  unfold looksOutlined in Hlooks. rewrite Ha, Ho in Hlooks.
  unfold restyled, matches in Hlooks. rewrite <- Ht, Htag in Hlooks.
  cbn [SVG_SHAPE_SELECTORS existsb String.eqb Ascii.eqb Bool.eqb andb orb] in Hlooks.
  rewrite getAttribute_setAttribute_same in Hlooks.
  rewrite getAttribute_setAttribute_other in Hlooks by discriminate.
  rewrite cleanAttributes_clears in Hlooks by (cbn; tauto).
  cbn [isSome truthy orb] in Hlooks.
  apply orb_true_iff in Hlooks as [H|H].
  - apply String.eqb_eq in H. contradiction.
  - rewrite negb_involutive in H. apply String.eqb_eq in H. contradiction.
Qed.

(** X11.  Restyling an icon that has been restyled in the same colour
    changes nothing, for every colour other than [none] and the empty
    string: the icon is classified as before, and cleaning followed by the
    style puts every attribute back where it was. *)
Theorem applyColorStyling_idempotent svg color :
  color <> "none" -> color <> "" ->
  isOutlineIcon (applyColorStyling svg color) = isOutlineIcon svg
  /\ applyColorStyling (applyColorStyling svg color) color = applyColorStyling svg color.
Proof.
  intros Hnone Hempty.
  assert (Hsame : isOutlineIcon (applyColorStyling svg color) = isOutlineIcon svg).
  { destruct (isOutlineIcon svg) eqn:Ho.
    - now apply outline_stays_outline.
    - now apply solid_stays_solid. }
  split; [exact Hsame|].
  destruct svg as [t a kids]. revert Hsame.
  rewrite (applyColorStyling_tree t a kids color).
  destruct (isOutlineIcon (Elem t a kids)); intros Hsame;
    rewrite applyColorStyling_tree, Hsame; f_equal.
  - apply outlineRoot_idempotent.
  - rewrite map_map. apply map_ext. intros k.
    apply passes_idempotent. apply cleanAttributes_outlineShape.
  - apply setFill_idempotent.
  - rewrite map_map. apply map_ext. intros k.
    apply passes_idempotent. apply cleanAttributes_fill.
Qed.

End RestyleTwice.

(** ** Restyled samples *)

Lemma applyColorStyling_keeps_other_attributes_witness :
  ~ In "d" ["fill"; "stroke"; "stroke-width"]
  /\ map (fun e => (Dom.tagName e, Dom.getAttribute "d" (Dom.attributes e)))
       (Dom.applyColorStyling sampleIcon "#075db3"
          :: Dom.descendants (Dom.applyColorStyling sampleIcon "#075db3"))
     = map (fun e => (Dom.tagName e, Dom.getAttribute "d" (Dom.attributes e)))
         (sampleIcon :: Dom.descendants sampleIcon).
Proof.
  assert (H : ~ In "d" ["fill"; "stroke"; "stroke-width"]).
  { cbn. intros [H|[H|[H|[]]]]; discriminate. }
  split; [exact H|].
  exact (RestyleFacts.applyColorStyling_keeps_other_attributes sampleIcon "#075db3" "d" H).
Defined.

Lemma applyColorStyling_styles_descendants_witness :
  let d := Dom.Elem "circle"
             [("cx", "12"); ("r", "3"); ("stroke", "#075db3"); ("fill", "none");
              ("stroke-width", "1.5")] [] in
  In d (Dom.descendants (Dom.applyColorStyling sampleIcon "#075db3"))
  /\ Dom.getAttribute "stroke" (Dom.attributes d) = Some "#075db3"
  /\ Dom.getAttribute "fill" (Dom.attributes d) = Some "none"
  /\ Dom.getAttribute "stroke-width" (Dom.attributes d) = Some DEFAULT_STROKE_WIDTH.
Proof.
  cbn zeta.
  assert (H : In (Dom.Elem "circle"
                    [("cx", "12"); ("r", "3"); ("stroke", "#075db3"); ("fill", "none");
                     ("stroke-width", "1.5")] [])
                (Dom.descendants (Dom.applyColorStyling sampleIcon "#075db3"))).
  { right. right. left. reflexivity. }
  split; [exact H|].
  exact (RestyleFacts.applyColorStyling_styles_descendants sampleIcon "#075db3" _ H).
Defined.

Lemma applyColorStyling_idempotent_witness :
  "#075db3" <> "none" /\ "#075db3" <> ""
  /\ Dom.isOutlineIcon (Dom.applyColorStyling sampleIcon "#075db3")
     = Dom.isOutlineIcon sampleIcon
  /\ Dom.applyColorStyling (Dom.applyColorStyling sampleIcon "#075db3") "#075db3"
     = Dom.applyColorStyling sampleIcon "#075db3".
Proof.
  assert (H1 : "#075db3" <> "none") by discriminate.
  assert (H2 : "#075db3" <> "") by discriminate.
  split; [exact H1|]. split; [exact H2|].
  exact (RestyleTwice.applyColorStyling_idempotent sampleIcon "#075db3" H1 H2).
Defined.

(** ** Dimensions *)

Module ModifyFacts.
Import Dom DomFacts.

Lemma querySelector_none selector document :
  querySelector selector document = None
  <-> forall e, In e (document :: descendants document) -> tagName e <> selector.
Proof.
  unfold querySelector.
  assert (Hm : forall e, matches [selector] e = true <-> tagName e = selector).
  { intros e. unfold matches. cbn. rewrite orb_false_r. apply String.eqb_eq. }
  split.
  - intros Hhead e He Htag.
    assert (Hin : In e (List.filter (matches [selector])
                          (document :: descendants document))).
    { apply filter_In. split; [exact He | now apply Hm]. }
    destruct (List.filter (matches [selector]) (document :: descendants document));
      [destruct Hin | discriminate].
  - intros Hno.
    destruct (List.filter (matches [selector]) (document :: descendants document))
      as [|e l] eqn:E; [reflexivity|].
    assert (Hin : In e (List.filter (matches [selector])
                          (document :: descendants document)))
      by (rewrite E; now left).
    apply filter_In in Hin as [He Hmatch]. apply Hm in Hmatch.
    now apply Hno in He.
Qed.

(** The presentation pass leaves the dimensions of the root alone. *)
Lemma styled_root_keeps svg color name :
  ~ In name ["fill"; "stroke"; "stroke-width"] ->
  getAttribute name (attributes (applyColorStyling svg color))
  = getAttribute name (attributes svg).
Proof.
  intros Hn. cbn in Hn. rewrite applyColorStyling_root. unfold outlineRoot.
  destruct (isOutlineIcon svg);
    now rewrite !getAttribute_setAttribute_other by (intros <-; tauto).
Qed.

Section DimensionFacts.

Variable numberToString : Q -> string.

Lemma setDimension_same name d e :
  getAttribute name (attributes (setDimension numberToString name d e))
  = match d with
    | Some n => if Js.truthy (Js.Number n)
                then Some (Js.toString numberToString n)
                else getAttribute name (attributes e)
    | None => getAttribute name (attributes e)
    end.
Proof.
  unfold setDimension. destruct d as [n|]; [|reflexivity].
  destruct (Js.truthy (Js.Number n)); [|reflexivity].
  rewrite attributes_updateRoot. apply getAttribute_setAttribute_same.
Qed.

Lemma setDimension_other name d e other :
  other <> name ->
  getAttribute other (attributes (setDimension numberToString name d e))
  = getAttribute other (attributes e).
Proof.
  intros Hne. unfold setDimension. destruct d as [n|]; [|reflexivity].
  destruct (Js.truthy (Js.Number n)); [|reflexivity].
  rewrite attributes_updateRoot. apply getAttribute_setAttribute_other. congruence.
Qed.

Lemma setDimension_descendants name d e :
  descendants (setDimension numberToString name d e) = descendants e.
Proof.
  unfold setDimension. destruct d as [n|]; [|reflexivity].
  destruct (Js.truthy (Js.Number n)); [|reflexivity].
  apply descendants_updateRoot.
Qed.

Lemma toString_integer (n : Z) :
  (Z.abs n < 2 ^ 53)%Z ->
  Js.toString numberToString (Js.Finite (inject_Z n)) = pretty n.
Proof.
  intros Hn. unfold Js.toString, Js.isSafeInteger. rewrite Qfloor_Z.
  rewrite (proj2 (Qeq_bool_iff _ _) (Qeq_refl _)).
  now rewrite (proj2 (Z.ltb_lt _ _) Hn).
Qed.

(** X12.  On a document with an [svg] element, [modifyContent] returns
    that element with [width] and [height] set to what [String] makes of
    the numbers given, whatever the colour: the decimal digits for an
    integer of magnitude below [2^53]; a dimension that is missing, 0 or
    NaN leaves the attribute as it was.  Without a colour (none, or the
    empty string) nothing else changes: the descendants are returned as
    they were.  On a document without an [svg] element it throws. *)
Theorem modifyContent_sets_dimensions document svgElement color width height :
  querySelector "svg" document = Some svgElement ->
  (exists result,
     modifyContent numberToString document color width height = Js.Ok result
     /\ getAttribute "width" (attributes result)
        = match width with
          | Some n => if Js.truthy (Js.Number n)
                      then Some (Js.toString numberToString n)
                      else getAttribute "width" (attributes svgElement)
          | None => getAttribute "width" (attributes svgElement)
          end
     /\ getAttribute "height" (attributes result)
        = match height with
          | Some n => if Js.truthy (Js.Number n)
                      then Some (Js.toString numberToString n)
                      else getAttribute "height" (attributes svgElement)
          | None => getAttribute "height" (attributes svgElement)
          end
     /\ (color = None \/ color = Some "" ->
         descendants result = descendants svgElement
         /\ forall name, name <> "width" -> name <> "height" ->
              getAttribute name (attributes result)
              = getAttribute name (attributes svgElement)))
  /\ (forall n : Z,
        (Z.abs n < 2 ^ 53)%Z ->
        Js.toString numberToString (Js.Finite (inject_Z n)) = pretty n)
  /\ Js.truthy (Js.Number Js.NaN) = false
  /\ Js.truthy (Js.Number (Js.Finite 0%Q)) = false
  /\ forall other,
       (forall e, In e (other :: descendants other) -> tagName e <> "svg") ->
       modifyContent numberToString other color width height
       = Js.Throw "SVG modification failed: No SVG element found in content".
Proof.
  intros Hsvg. split; [|split; [exact toString_integer|split; [reflexivity|split;
    [reflexivity|]]]].
  - unfold modifyContent. rewrite Hsvg.
    set (sized := setDimension numberToString "height" height
                    (setDimension numberToString "width" width svgElement)).
    assert (Hw : getAttribute "width" (attributes sized)
                 = match width with
                   | Some n => if Js.truthy (Js.Number n)
                               then Some (Js.toString numberToString n)
                               else getAttribute "width" (attributes svgElement)
                   | None => getAttribute "width" (attributes svgElement)
                   end).
    { unfold sized. rewrite setDimension_other by discriminate.
      apply setDimension_same. }
    assert (Hh : getAttribute "height" (attributes sized)
                 = match height with
                   | Some n => if Js.truthy (Js.Number n)
                               then Some (Js.toString numberToString n)
                               else getAttribute "height" (attributes svgElement)
                   | None => getAttribute "height" (attributes svgElement)
                   end).
    { unfold sized. rewrite setDimension_same.
      now rewrite setDimension_other by discriminate. }
    assert (Ho : forall name, name <> "width" -> name <> "height" ->
                 getAttribute name (attributes sized)
                 = getAttribute name (attributes svgElement)).
    { intros name Hnw Hnh. unfold sized. now rewrite !setDimension_other. }
    assert (Hd : descendants sized = descendants svgElement).
    { unfold sized. now rewrite !setDimension_descendants. }
    assert (Hplain : exists result,
              Js.Ok sized = Js.Ok result
              /\ getAttribute "width" (attributes result)
                 = getAttribute "width" (attributes sized)
              /\ getAttribute "height" (attributes result)
                 = getAttribute "height" (attributes sized)
              /\ (color = None \/ color = Some "" ->
                  descendants result = descendants svgElement
                  /\ forall name, name <> "width" -> name <> "height" ->
                       getAttribute name (attributes result)
                       = getAttribute name (attributes svgElement))).
    { exists sized. auto. }
    destruct color as [c|].
    + destruct (String.eqb_spec c "") as [->|Hc].
      * destruct Hplain as (r & Hr & H1 & H2 & H3). exists r.
        rewrite <- Hw, <- Hh. auto.
      * exists (applyColorStyling sized c). split; [reflexivity|].
        rewrite !styled_root_keeps by (cbn; intros [?|[?|[?|[]]]]; discriminate).
        rewrite Hw, Hh. split; [reflexivity|]. split; [reflexivity|].
        intros [Hcolor|Hcolor]; [discriminate|].
        injection Hcolor as ->. contradiction.
    + destruct Hplain as (r & Hr & H1 & H2 & H3). exists r.
      rewrite <- Hw, <- Hh. auto.
  - intros other Hno. unfold modifyContent.
    now rewrite (proj2 (querySelector_none "svg" other) Hno).
Qed.

End DimensionFacts.

End ModifyFacts.

Lemma modifyContent_sets_dimensions_witness :
  Dom.querySelector "svg" sampleDocument = Some sampleIcon
  /\ exists result,
       Dom.modifyContent (fun _ => "") sampleDocument (Some "#075db3")
         (Some (Js.Finite 80%Q)) (Some (Js.Finite 0%Q))
       = Js.Ok result
       /\ Dom.getAttribute "width" (Dom.attributes result) = Some "80"
       /\ Dom.getAttribute "height" (Dom.attributes result) = None.
Proof.
  split; [reflexivity|].
  destruct (ModifyFacts.modifyContent_sets_dimensions (fun _ => "") sampleDocument
              sampleIcon (Some "#075db3") (Some (Js.Finite 80%Q)) (Some (Js.Finite 0%Q))
              eq_refl)
    as [(result & Hr & Hw & Hh & _) _].
  exists result. split; [exact Hr|]. split; [exact Hw | exact Hh].
Defined.

(** ** The errors of the sources *)

Lemma isNonEmptyString_inv (v : Js.value) :
  isNonEmptyString v = true <-> exists s, v = Js.Str s /\ s <> "".
Proof.
  unfold isNonEmptyString, isString. split.
  - destruct v; cbn; intros H; try discriminate;
      try (apply andb_prop in H as [_ H]; discriminate).
    apply andb_prop in H as [H _]. apply negb_true_iff in H.
    exists s. split; [reflexivity|]. intros ->. discriminate.
  - intros (s & -> & Hs). cbn. rewrite andb_true_r. apply negb_true_iff.
    destruct (String.eqb_spec s ""); [contradiction | reflexivity].
Qed.

Lemma validateSingleSource_entry (source : Js.value) (index : nat) :
  Js.nullish source = false ->
  validateSingleSource source index = Js.Ok (entryErrors index source).
Proof.
  intros Hs. unfold validateSingleSource, entryErrors, isNonEmptyString.
  rewrite !(get_defined source) by exact Hs. cbn [mbind exc_bind Js.bind].
  destruct (Js.truthy (Js.prop source "source")), (isString (Js.prop source "source")),
    (Js.truthy (Js.prop source "suffix")), (isString (Js.prop source "suffix"));
    reflexivity.
Qed.

Lemma validateSingleSource_nullish (source : Js.value) (index : nat) :
  Js.nullish source = true ->
  exists message, validateSingleSource source index = Js.Throw message.
Proof. destruct source; cbn; intros H; try discriminate; eauto. Qed.

(** The loop over the entries lists their errors entry by entry, each
    under the position of its entry. *)
Lemma validateEachSource_closed items : forall index errors,
  forallb (fun v => negb (Js.nullish v)) items = true ->
  validateEachSource items index errors
  = Js.Ok (errors ++ concat (imap (fun k s => entryErrors (index + k) s) items)).
Proof.
  induction items as [|source items IH]; intros index errors Hall.
  - cbn. now rewrite app_nil_r.
  - cbn [forallb] in Hall. apply andb_prop in Hall as [Hs Hall].
    apply negb_true_iff in Hs. cbn [validateEachSource].
    rewrite (validateSingleSource_entry source index Hs).
    cbn [mbind exc_bind Js.bind]. rewrite (IH (S index) _ Hall).
    cbn [imap concat]. rewrite Nat.add_0_r, <- app_assoc. do 4 f_equal.
    apply imap_ext. intros k s _. cbn. f_equal. lia.
Qed.

Lemma validateEachSource_defined items : forall index errors result,
  validateEachSource items index errors = Js.Ok result ->
  forallb (fun v => negb (Js.nullish v)) items = true.
Proof.
  induction items as [|source items IH]; intros index errors result H; [reflexivity|].
  cbn [validateEachSource forallb] in *.
  destruct (Js.nullish source) eqn:Hs.
  - destruct (validateSingleSource_nullish source index Hs) as [message Hm].
    rewrite Hm in H. discriminate.
  - rewrite (validateSingleSource_entry source index Hs) in H.
    cbn [mbind exc_bind Js.bind] in H. cbn. eapply IH. exact H.
Qed.

Lemma entryErrors_none items : forall index,
  concat (imap (fun k s => entryErrors (index + k) s) items) = [] ->
  forall s, In s items ->
    isNonEmptyString (Js.prop s "source") = true
    /\ isNonEmptyString (Js.prop s "suffix") = true.
Proof.
  induction items as [|source items IH]; intros index Hnil s Hin; [destruct Hin|].
  cbn [imap concat] in Hnil. apply app_eq_nil in Hnil as [Hhere Hrest].
  destruct Hin as [<-|Hin].
  - unfold entryErrors in Hhere.
    destruct (isNonEmptyString (Js.prop source "source")),
      (isNonEmptyString (Js.prop source "suffix")); cbn in Hhere;
      try discriminate; split; reflexivity.
  - apply (IH (S index)); [|exact Hin].
    rewrite <- Hrest. f_equal. apply imap_ext. intros k x _. cbn. f_equal. lia.
Qed.

Lemma entryErrors_reported items : forall index k s message,
  items !! k = Some s ->
  In message (entryErrors (index + k) s) ->
  In message (concat (imap (fun k s => entryErrors (index + k) s) items)).
Proof.
  induction items as [|source items IH]; intros index k s message Hk Hin;
    [discriminate|].
  cbn [imap concat]. apply in_or_app. destruct k as [|k].
  - injection Hk as ->. left. exact Hin.
  - right. cbn in Hk.
    rewrite (imap_ext _ (fun k s => entryErrors (S index + k) s))
      by (intros; cbn; f_equal; lia).
    apply (IH (S index) k s); [exact Hk|].
    now replace (S index + k) with (index + S k) by lia.
Qed.

(** X13.  The entries of [sources] are checked one by one and their
    errors listed in the order of the entries, [source] before [suffix],
    each under the position of its entry: a field that is not a non-empty
    string is reported at its position.  A [sources] that is not an array,
    or is empty, is one error, and its entries are not looked at. *)
Theorem validateSources_reports_by_position items :
  items <> [] ->
  forallb (fun v => negb (Js.nullish v)) items = true ->
  validateSources (Js.Array items) = Js.Ok (concat (imap entryErrors items))
  /\ (forall k s,
        items !! k = Some s ->
        (isNonEmptyString (Js.prop s "source") = false ->
         In ("sources[" +:+ pretty k +:+ "].source: must be a non-empty string")
           (concat (imap entryErrors items)))
        /\ (isNonEmptyString (Js.prop s "suffix") = false ->
            In ("sources[" +:+ pretty k +:+ "].suffix: must be a non-empty string")
              (concat (imap entryErrors items))))
  /\ (concat (imap entryErrors items) = [] <->
      forall s, In s items ->
        isNonEmptyString (Js.prop s "source") = true
        /\ isNonEmptyString (Js.prop s "suffix") = true)
  /\ forall other,
       Js.isArray other = false \/ other = Js.Array [] ->
       validateSources other = Js.Ok ["sources: must be a non-empty array"].
Proof.
  intros Hne Hall. split; [|split; [|split]].
  - unfold validateSources. destruct items as [|s items]; [contradiction|].
    cbn [Js.truthy Js.isArray arrayLength length Nat.eqb negb orb arrayItems].
    rewrite (validateEachSource_closed _ 0 [] Hall). reflexivity.
  - intros k s Hk. split; intros Hbad.
    + apply (entryErrors_reported items 0 k s); [exact Hk|].
      unfold entryErrors. rewrite Hbad. cbn. now left.
    + apply (entryErrors_reported items 0 k s); [exact Hk|].
      unfold entryErrors. rewrite Hbad. apply in_or_app. right. now left.
  - split.
    + apply (entryErrors_none items 0).
    + intros Hok. apply concat_nil_Forall, Forall_forall. intros errors Hin.
      apply elem_of_lookup_imap in Hin as (k & s & -> & Hk).
      assert (Hs : In s items)
        by (rewrite <- list_elem_of_In; apply list_elem_of_lookup; eauto).
      destruct (Hok s Hs) as [H1 H2]. unfold entryErrors. now rewrite H1, H2.
  - intros other [Harr| ->]; [|reflexivity].
    unfold validateSources. rewrite Harr. cbn [negb orb].
    now rewrite orb_true_r.
Qed.

(** ** What validation guarantees *)

Lemma Qltb_false (a b : Q) : Js.Qltb a b = false <-> (b <= a)%Q.
Proof.
  unfold Js.Qltb. rewrite negb_false_iff. apply Qle_bool_iff.
Qed.

Lemma lt_one_false (n : Js.number) :
  Js.lt n (Js.Finite 1%Q) = false <-> notBelowOne n.
Proof.
  unfold notBelowOne. destruct n as [| | |q]; cbn.
  - split; [now left | reflexivity].
  - split; [intros _; right; now left | reflexivity].
  - split; [discriminate|].
    intros [H|[H|(q & H & _)]]; discriminate.
  - rewrite Qltb_false. split.
    + intros H. right. right. now exists q.
    + intros [H|[H|(q' & H & Hq)]]; try discriminate. now injection H as ->.
Qed.

Lemma validateIcons_none (icons : Js.value) :
  validateIcons icons = [] <-> exists items, icons = Js.Array items /\ items <> [].
Proof.
  unfold validateIcons. split.
  - destruct icons as [| |b|n|s|items|props];
      try (cbn; rewrite ?orb_true_r; cbn; discriminate).
    destruct items; cbn; [discriminate|]. intros _. eexists. split; [reflexivity|].
    discriminate.
  - intros (items & -> & Hne). destruct items; [contradiction | reflexivity].
Qed.

Lemma validateSources_none (sources : Js.value) :
  validateSources sources = Js.Ok [] ->
  exists items,
    sources = Js.Array items /\ items <> []
    /\ forall s, In s items ->
         (exists source, Js.prop s "source" = Js.Str source /\ source <> "")
         /\ (exists suffix, Js.prop s "suffix" = Js.Str suffix /\ suffix <> "").
Proof.
  unfold validateSources.
  destruct sources as [| |b|n|s|items|props];
    try (cbn; rewrite ?orb_true_r; cbn; discriminate).
  cbn. destruct items as [|first items]; cbn [length Nat.eqb arrayItems]; [discriminate|].
  intros H. exists (first :: items). split; [reflexivity|]. split; [discriminate|].
  pose proof (validateEachSource_defined _ _ _ _ H) as Hdef.
  rewrite (validateEachSource_closed _ 0 [] Hdef) in H.
  assert (Hnil : concat (imap (fun k s => entryErrors (0 + k) s) (first :: items)) = [])
    by (injection H as H; exact H).
  intros s Hs. destruct (entryErrors_none _ 0 Hnil s Hs) as [H1 H2].
  split; now apply isNonEmptyString_inv.
Qed.

Section ValidatedFacts.

Import Js.

Variable coerceToNumber : value -> number.

Lemma validateSettings_none settings :
  validateSettings coerceToNumber settings = Ok [] ->
  (negb (isNumber (prop settings "size"))
   || ltNumber coerceToNumber (prop settings "size") (Finite 1%Q)
   || gtNumber coerceToNumber (prop settings "size") (Finite 2048%Q)) = false
  /\ isNonEmptyString (prop settings "outputDirectory") = true
  /\ validateWideSettings coerceToNumber (prop settings "wide") = Ok [].
Proof.
  intros H.
  destruct (truthy settings) eqn:Ht;
    [|unfold validateSettings in H; rewrite Ht in H; discriminate].
  destruct (String.eqb (typeof settings) "object") eqn:Ho;
    [|unfold validateSettings in H; rewrite Ht, Ho in H; discriminate].
  apply String.eqb_eq in Ho.
  destruct (validateSettings_object coerceToNumber settings Ht Ho) as (we & Hwe & Hs).
  rewrite Hs in H. injection H as H.
  apply app_eq_nil in H as [Hbasic ->]. apply app_eq_nil in Hbasic as [Hsize Hdir].
  split; [|split; [|exact Hwe]].
  - destruct (negb (isNumber (prop settings "size")) || _ || _);
      [discriminate | reflexivity].
  - unfold isNonEmptyString.
    destruct (truthy (prop settings "outputDirectory")),
      (isString (prop settings "outputDirectory")); cbn in Hdir;
      try discriminate; reflexivity.
Qed.

(** X14.  A configuration in which validation finds no error has a
    non-empty array of icons, a non-empty array of sources whose entries
    all have a non-empty string as [source] and as [suffix], a [size] that
    is a number between 1 and 2048 or NaN, and a non-empty string as
    output directory; [main] goes on to run the converter on it. *)
Theorem validated_configuration (R : Type) (runConverter : value -> R) config :
  validateConfig coerceToNumber config = Ok [] ->
  (exists icons, prop config "icons" = Array icons /\ icons <> [])
  /\ (exists sources,
        prop config "sources" = Array sources /\ sources <> []
        /\ forall s, In s sources ->
             (exists source, prop s "source" = Str source /\ source <> "")
             /\ (exists suffix, prop s "suffix" = Str suffix /\ suffix <> ""))
  /\ (exists size,
        prop (prop config "settings") "size" = Number size
        /\ (size = NaN \/ exists q, size = Finite q /\ (1 <= q <= 2048)%Q))
  /\ (exists directory,
        prop (prop config "settings") "outputDirectory" = Str directory
        /\ directory <> "")
  /\ main coerceToNumber runConverter config = Ok (runConverter config).
Proof.
  intros Hv.
  pose proof (main_of_errors coerceToNumber R runConverter config [] Hv) as Hmain.
  apply validateConfig_inv in Hv as (se & ss & Hse & Hss & Herr).
  symmetry in Herr. apply app_eq_nil in Herr as [Hicons Herr].
  apply app_eq_nil in Herr as [-> ->].
  apply validateSettings_none in Hss as (Hsize & Hdir & _).
  split; [|split; [|split; [|split]]].
  - now apply validateIcons_none.
  - now apply validateSources_none.
  - apply orb_false_elim in Hsize as [Hsize Hgt].
    apply orb_false_elim in Hsize as [Hnum Hlt].
    apply negb_false_iff in Hnum. unfold isNumber in Hnum.
    destruct (prop (prop config "settings") "size") as [| | |n| | |];
      cbn in Hnum; try discriminate.
    exists n. split; [reflexivity|].
    unfold ltNumber, gtNumber, gt in *. cbn [ToNumber] in *.
    destruct n as [| | |q]; cbn in Hlt, Hgt; try discriminate; [now left|].
    right. exists q. split; [reflexivity|].
    apply Qltb_false in Hlt, Hgt. tauto.
  - now apply isNonEmptyString_inv.
  - exact Hmain.
Qed.

Lemma validated_wide_present config :
  validateConfig coerceToNumber config = Ok [] ->
  truthy (prop (prop config "settings") "wide") = true ->
  exists width height iconSize,
    prop (prop (prop config "settings") "wide") "width" = Number width
    /\ prop (prop (prop config "settings") "wide") "height" = Number height
    /\ prop (prop (prop config "settings") "wide") "iconSize" = Number iconSize
    /\ notBelowOne width /\ notBelowOne height /\ notBelowOne iconSize
    /\ gt iconSize (min width height) = false.
Proof.
  intros Hv Hwide.
  apply validateConfig_inv in Hv as (se & ss & _ & Hss & Herr).
  symmetry in Herr. apply app_eq_nil in Herr as [_ Herr].
  apply app_eq_nil in Herr as [_ ->].
  apply validateSettings_none in Hss as (_ & _ & Hw).
  rewrite (validateWideSettings_truthy coerceToNumber _ Hwide) in Hw.
  injection Hw as Hw.
  apply app_eq_nil in Hw as [Hwidth Hw]. apply app_eq_nil in Hw as [Hheight Hw].
  apply app_eq_nil in Hw as [Hicon Hmin].
  set (wide := prop (prop config "settings") "wide") in *.
  assert (Hdim : forall v,
            (if negb (isNumber v) || ltNumber coerceToNumber v (Finite 1%Q)
             then ["x"] else []) = @nil string ->
            exists n, v = Number n /\ notBelowOne n).
  { intros v H.
    destruct (negb (isNumber v) || ltNumber coerceToNumber v (Finite 1%Q)) eqn:E;
      [discriminate|].
    apply orb_false_elim in E as [Hnum Hlt]. apply negb_false_iff in Hnum.
    unfold isNumber in Hnum. destruct v as [| | |n| | |]; cbn in Hnum; try discriminate.
    exists n. split; [reflexivity|]. now apply lt_one_false. }
  assert (Hcond : forall (c : bool) (m : string),
            (if c then [m] else []) = @nil string ->
            (if c then ["x"] else []) = @nil string).
  { intros [] m H; [discriminate | reflexivity]. }
  destruct (Hdim _ (Hcond _ _ Hwidth)) as (w & Hw & Hwb).
  destruct (Hdim _ (Hcond _ _ Hheight)) as (h & Hh & Hhb).
  destruct (Hdim _ (Hcond _ _ Hicon)) as (i & Hi & Hib).
  exists w, h, i. do 6 (split; [assumption|]).
  rewrite Hw, Hh, Hi in Hmin. unfold gtNumber, Math_min in Hmin.
  cbn [ToNumber] in Hmin.
  now destruct (gt i (min w h)).
Qed.

(** X15.  In a configuration without errors, a wide section that counts
    as present has numbers as width, height and icon size, none of them
    below 1, and where the three are finite the icon is not larger than
    the width or the height.  A wide section that is [null], [false], 0 or
    the empty string counts as absent and is not checked. *)
Theorem validated_wide_settings config :
  validateConfig coerceToNumber config = Ok [] ->
  truthy (prop (prop config "settings") "wide") = true ->
  (exists width height iconSize,
     prop (prop (prop config "settings") "wide") "width" = Number width
     /\ prop (prop (prop config "settings") "wide") "height" = Number height
     /\ prop (prop (prop config "settings") "wide") "iconSize" = Number iconSize
     /\ notBelowOne width /\ notBelowOne height /\ notBelowOne iconSize
     /\ forall w h i,
          width = Finite w -> height = Finite h -> iconSize = Finite i ->
          (i <= w /\ i <= h)%Q)
  /\ forall absent,
       truthy absent = false -> validateWideSettings coerceToNumber absent = Ok [].
Proof.
  intros Hv Hwide. split.
  - destruct (validated_wide_present config Hv Hwide)
      as (w & h & i & Hw & Hh & Hi & Hwb & Hhb & Hib & Hmin).
    exists w, h, i. do 6 (split; [assumption|]).
    intros qw qh qi -> -> ->. unfold gt in Hmin. cbn [min lt] in Hmin.
    destruct (Qltb qh qw) eqn:E; cbn [lt] in Hmin; apply Qltb_false in Hmin.
    + apply Qltb_lt in E. split; [|exact Hmin].
      apply Qle_trans with qh; [exact Hmin | now apply Qlt_le_weak].
    + apply Qltb_false in E. split; [exact Hmin|]. now apply Qle_trans with qw.
  - intros absent Ha. unfold validateWideSettings. now rewrite Ha.
Qed.

End ValidatedFacts.

(** ** Configurations that validation accepts *)

Lemma entryErrors_sourceValue (k : nat) (s : SourceConfig.t) :
  SourceConfig.source s <> "" -> SourceConfig.suffix s <> "" ->
  entryErrors k (sourceValue s) = [].
Proof.
  intros Hsource Hsuffix. unfold entryErrors, sourceValue, isNonEmptyString, isString.
  cbn. apply String.eqb_neq in Hsource, Hsuffix.
  now rewrite Hsource, Hsuffix.
Qed.

Lemma entryErrors_sourceValues (sources : list SourceConfig.t) : forall index,
  (forall s, In s sources -> SourceConfig.source s <> "" /\ SourceConfig.suffix s <> "") ->
  concat (imap (fun k s => entryErrors (index + k) s) (map sourceValue sources)) = [].
Proof.
  induction sources as [|s sources IH]; intros index Hall; [reflexivity|].
  cbn [map imap concat].
  rewrite entryErrors_sourceValue by (apply Hall; now left).
  cbn [app]. rewrite <- (IH (S index)) by (intros s' Hs'; apply Hall; now right).
  f_equal. apply imap_ext. intros k v _. cbn. f_equal. lia.
Qed.

Lemma sourceValues_defined (sources : list SourceConfig.t) :
  forallb (fun v => negb (Js.nullish v)) (map sourceValue sources) = true.
Proof.
  induction sources as [|s sources IH]; [reflexivity | exact IH].
Qed.

Section AcceptedFacts.

Import Js.

Variable coerceToNumber : value -> number.

Lemma validateConfig_configValue (c : Config.t) :
  inRange c -> validateConfig coerceToNumber (configValue c) = Ok [].
Proof.
  intros (Hicons & Hsources & Hentries & [Hlow Hhigh] & Hdir & Hwide).
  unfold validateConfig, configValue. cbn [get lookupProp String.eqb Ascii.eqb Bool.eqb].
  cbn [mbind exc_bind bind].
  assert (Hi : validateIcons (Array (map Str (Config.icons c))) = []).
  { apply validateIcons_none. eexists. split; [reflexivity|].
    destruct (Config.icons c); [contradiction | discriminate]. }
  assert (Hs : validateSources (Array (map sourceValue (Config.sources c))) = Ok []).
  { unfold validateSources. cbn [truthy isArray negb orb arrayLength arrayItems].
    rewrite length_map.
    destruct (Config.sources c) as [|s sources] eqn:E; [contradiction|].
    cbn [length Nat.eqb]. rewrite <- E in *.
    rewrite (validateEachSource_closed _ 0 [] (sourceValues_defined _)).
    now rewrite entryErrors_sourceValues. }
  rewrite Hi, Hs. cbn [mbind exc_bind bind app].
  unfold validateSettings. cbn [truthy typeof negb orb String.eqb Ascii.eqb Bool.eqb].
  unfold validateBasicSettings.
  cbn [get lookupProp String.eqb Ascii.eqb Bool.eqb app mbind exc_bind bind].
  unfold isNumber, isString, ltNumber, gtNumber, gt.
  cbn [typeof ToNumber lt truthy String.eqb Ascii.eqb Bool.eqb negb orb].
  apply Qltb_false in Hlow, Hhigh. rewrite Hlow, Hhigh.
  apply String.eqb_neq in Hdir. rewrite Hdir. cbn [negb orb app].
  destruct (Config.wide c) as [w|];
    cbn [lookupProp String.eqb Ascii.eqb Bool.eqb]; [|reflexivity].
  destruct Hwide as (Hw & Hh & Hi1 & Hiw & Hih).
  unfold validateWideSettings, wideValue. cbn [truthy negb].
  cbn [get lookupProp String.eqb Ascii.eqb Bool.eqb mbind exc_bind bind].
  unfold isNumber, ltNumber, gtNumber, gt, Math_min.
  cbn [typeof ToNumber lt min String.eqb Ascii.eqb Bool.eqb negb orb].
  apply Qltb_false in Hw, Hh, Hi1. rewrite Hw, Hh, Hi1.
  destruct (Qltb (WideConfig.height w) (WideConfig.width w)); cbn [lt];
    apply Qltb_false in Hiw, Hih; rewrite ?Hiw, ?Hih; reflexivity.
Qed.

(** X16.  Validation accepts every configuration of the documented shape
    whose values are in range: some icons, some sources with non-empty
    source and suffix, a size between 1 and 2048, a non-empty output
    directory and, if there is a wide section, dimensions of at least 1
    with an icon that fits both; [loadConfig] returns it and [main] runs
    the converter on it. *)
Theorem in_range_configuration_is_accepted (R : Type) (runConverter : value -> R)
    (c : Config.t) :
  inRange c ->
  validateConfig coerceToNumber (configValue c) = Ok []
  /\ loadConfig coerceToNumber (configValue c) = Ok (configValue c)
  /\ main coerceToNumber runConverter (configValue c)
     = Ok (runConverter (configValue c)).
Proof.
  intros Hc. pose proof (validateConfig_configValue c Hc) as Hv.
  split; [exact Hv|]. split.
  - unfold loadConfig. rewrite Hv. reflexivity.
  - exact (main_of_errors coerceToNumber R runConverter _ [] Hv).
Qed.

(** X17.  For a configuration in which validation finds no error, the
    dimensions that [run] derives for the wide format are numbers of at
    least 1 and never NaN: a width or height that is NaN passes validation
    and is then replaced by the default 320 or 180, like an absent one.
    The derived icon size is a number that is not below 1. *)
Theorem derived_wide_dimensions config :
  validateConfig coerceToNumber config = Ok [] ->
  exists width height iconSize,
    Derived.wideWidth (prop config "settings") = Number width
    /\ Derived.wideHeight (prop config "settings") = Number height
    /\ Derived.wideIconSize (prop config "settings") = Number iconSize
    /\ width <> NaN /\ notBelowOne width
    /\ height <> NaN /\ notBelowOne height
    /\ notBelowOne iconSize.
Proof.
  intros Hv.
  assert (Hdefault : forall q, (1 <= q)%Q ->
            Number (Finite q) = Number (Finite q)
            /\ Finite q <> NaN /\ notBelowOne (Finite q)).
  { intros q Hq. split; [reflexivity|]. split; [discriminate|].
    right. right. now exists q. }
  assert (Hdim : forall v n q, v = Number n -> notBelowOne n -> (1 <= q)%Q ->
            exists m, Derived.orElse v (Number (Finite q)) = Number m
                      /\ m <> NaN /\ notBelowOne m).
  { intros v n q -> Hn Hq. unfold Derived.orElse.
    destruct Hn as [->|[->|(q' & -> & Hq')]]; cbn [truthy].
    - exists (Finite q). apply Hdefault, Hq.
    - exists PosInfinity. split; [reflexivity|]. split; [discriminate|].
      right. now left.
    - destruct (Qeq_bool q' 0) eqn:E; cbn [negb].
      + apply Qeq_bool_iff in E. rewrite E in Hq'. now contradict Hq'.
      + exists (Finite q'). apply Hdefault, Hq'. }
  assert (Hsize : exists n, prop (prop config "settings") "size" = Number n
                            /\ notBelowOne n).
  { pose proof Hv as Hv'.
    apply validateConfig_inv in Hv' as (se & ss & _ & Hss & Herr).
    symmetry in Herr. apply app_eq_nil in Herr as [_ Herr].
    apply app_eq_nil in Herr as [_ ->].
    apply validateSettings_none in Hss as (Hsz & _ & _).
    apply orb_false_elim in Hsz as [Hsz _]. apply orb_false_elim in Hsz as [Hnum Hlt].
    apply negb_false_iff in Hnum. unfold isNumber in Hnum.
    destruct (prop (prop config "settings") "size") as [| | |n| | |];
      cbn in Hnum; try discriminate.
    exists n. split; [reflexivity|]. now apply lt_one_false. }
  destruct Hsize as (size & Hsize & Hsb).
  unfold Derived.wideWidth, Derived.wideHeight, Derived.wideIconSize.
  destruct (truthy (prop (prop config "settings") "wide")) eqn:Hwide.
  - destruct (validated_wide_present coerceToNumber config Hv Hwide)
      as (w & h & i & Hw & Hh & Hi & Hwb & Hhb & Hib & _).
    assert (Hn : nullish (prop (prop config "settings") "wide") = false)
      by (destruct (prop (prop config "settings") "wide"); cbn in *; congruence).
    unfold Derived.optional. rewrite Hn.
    destruct (Hdim _ w 320%Q Hw Hwb) as (dw & Hdw & Hdw1 & Hdw2);
      [unfold Qle; cbn; lia|].
    destruct (Hdim _ h 180%Q Hh Hhb) as (dh & Hdh & Hdh1 & Hdh2);
      [unfold Qle; cbn; lia|].
    rewrite Hi, Hsize.
    exists dw, dh, (if truthy (Number i) then i else size).
    split; [exact Hdw|]. split; [exact Hdh|]. split.
    { unfold Derived.orElse. now destruct (truthy (Number i)). }
    repeat (split; [assumption|]). now destruct (truthy (Number i)).
  - assert (Hu : forall name,
              Derived.optional (prop (prop config "settings") "wide") name = Undefined
              \/ truthy (Derived.optional (prop (prop config "settings") "wide") name)
                 = false).
    { intros name. unfold Derived.optional.
      destruct (prop (prop config "settings") "wide") as [| |b|n|s|items|props];
        cbn in *; try discriminate; now left. }
    assert (Hf : forall name default,
              Derived.orElse
                (Derived.optional (prop (prop config "settings") "wide") name) default
              = default).
    { intros name default. unfold Derived.orElse.
      destruct (Hu name) as [->| ->]; reflexivity. }
    rewrite !Hf, Hsize. exists (Finite 320%Q), (Finite 180%Q), size.
    do 3 (split; [reflexivity|]).
    split; [discriminate|]. split; [apply Hdefault; unfold Qle; cbn; lia|].
    split; [discriminate|]. split; [apply Hdefault; unfold Qle; cbn; lia|].
    exact Hsb.
Qed.

End AcceptedFacts.

(** ** The canvas that no wide section leaves *)

Section DefaultCanvas.

Import Js.

Variable coerceToNumber : value -> number.

(** X18.  Without a wide section the icon of the wide format is not
    checked against the canvas: a configuration in range whose size is
    above 180 is accepted, [run] derives the canvas 320 by 180 and the
    size as icon size, so the icon is larger than the canvas (the check
    that validation applies to a wide section would fire on the derived
    values) and its top offset in [convertWide] is not positive. *)
Theorem default_canvas_is_not_checked (c : Config.t) :
  inRange c -> Config.wide c = None -> (180 < Config.size c)%Q ->
  validateConfig coerceToNumber (configValue c) = Ok []
  /\ Derived.wideWidth (prop (configValue c) "settings") = Number (Finite 320%Q)
  /\ Derived.wideHeight (prop (configValue c) "settings") = Number (Finite 180%Q)
  /\ Derived.wideIconSize (prop (configValue c) "settings")
     = Number (Finite (Config.size c))
  /\ gtNumber coerceToNumber
       (Derived.wideIconSize (prop (configValue c) "settings"))
       (Math_min coerceToNumber
          (Derived.wideWidth (prop (configValue c) "settings"))
          (Derived.wideHeight (prop (configValue c) "settings"))) = true
  /\ (compositeTop 180%Q (Config.size c) <= 0)%Z.
Proof.
  intros Hc Hwide Hsize.
  split; [exact (validateConfig_configValue coerceToNumber c Hc)|].
  assert (Hsettings :
            prop (configValue c) "settings"
            = Object [("size", Number (Finite (Config.size c)));
                      ("color", match Config.color c with
                                | Some color => Str color
                                | None => Null
                                end);
                      ("outputDirectory", Str (Config.outputDirectory c))]).
  { unfold configValue. rewrite Hwide. reflexivity. }
  rewrite Hsettings.
  assert (Hicon :
            Derived.wideIconSize
              (Object [("size", Number (Finite (Config.size c)));
                       ("color", match Config.color c with
                                 | Some color => Str color
                                 | None => Null
                                 end);
                       ("outputDirectory", Str (Config.outputDirectory c))])
            = Number (Finite (Config.size c))) by reflexivity.
  split; [reflexivity|]. split; [reflexivity|]. split; [exact Hicon|]. split.
  - rewrite Hicon. unfold gtNumber, Math_min, gt. cbn.
    apply Qltb_lt. exact Hsize.
  - apply compositeTop_nonpos. lra.
Qed.

End DefaultCanvas.

(** ** Sample configurations *)

Lemma sampleSources_nonempty :
  forall s, In s sampleSources ->
    SourceConfig.source s <> "" /\ SourceConfig.suffix s <> "".
Proof.
  intros s [<-|[<-|[]]]; split; discriminate.
Defined.

Lemma sampleConfig_inRange : inRange sampleConfig.
Proof.
  unfold inRange. cbn.
  split; [discriminate|]. split; [discriminate|].
  split; [exact sampleSources_nonempty|].
  split; [split; unfold Qle; cbn; lia|]. split; [discriminate | exact I].
Defined.

Lemma sampleWideConfig_inRange : inRange sampleWideConfig.
Proof.
  unfold inRange, wideInRange. cbn.
  split; [discriminate|]. split; [discriminate|].
  split; [exact sampleSources_nonempty|].
  split; [split; unfold Qle; cbn; lia|]. split; [discriminate|].
  repeat split; unfold Qle; cbn; lia.
Defined.

Lemma validateSources_reports_by_position_witness :
  validateSources (Js.Array sampleEntries)
  = Js.Ok ["sources[1].suffix: must be a non-empty string";
           "sources[2].source: must be a non-empty string"].
Proof.
  assert (Hne : sampleEntries <> []) by discriminate.
  assert (Hall : forallb (fun v => negb (Js.nullish v)) sampleEntries = true)
    by reflexivity.
  destruct (validateSources_reports_by_position sampleEntries Hne Hall) as [H _].
  rewrite H. reflexivity.
Defined.

Lemma validated_configuration_witness :
  exists size,
    Js.prop (Js.prop (configValue sampleConfig) "settings") "size" = Js.Number size
    /\ (size = Js.NaN \/ exists q, size = Js.Finite q /\ (1 <= q <= 2048)%Q).
Proof.
  assert (Hv : validateConfig neverNumeric (configValue sampleConfig) = Js.Ok [])
    by reflexivity.
  destruct (validated_configuration neverNumeric unit (fun _ => tt)
              (configValue sampleConfig) Hv) as (_ & _ & H & _).
  exact H.
Defined.

Lemma validated_wide_settings_witness :
  exists width height iconSize,
    Js.prop (Js.prop (Js.prop (configValue sampleWideConfig) "settings") "wide") "width"
    = Js.Number width
    /\ Js.prop (Js.prop (Js.prop (configValue sampleWideConfig) "settings") "wide")
         "height" = Js.Number height
    /\ Js.prop (Js.prop (Js.prop (configValue sampleWideConfig) "settings") "wide")
         "iconSize" = Js.Number iconSize
    /\ notBelowOne width /\ notBelowOne height /\ notBelowOne iconSize
    /\ forall w h i,
         width = Js.Finite w -> height = Js.Finite h -> iconSize = Js.Finite i ->
         (i <= w /\ i <= h)%Q.
Proof.
  assert (Hv : validateConfig neverNumeric (configValue sampleWideConfig) = Js.Ok [])
    by reflexivity.
  assert (Hw : Js.truthy
                 (Js.prop (Js.prop (configValue sampleWideConfig) "settings") "wide")
               = true) by reflexivity.
  exact (proj1 (validated_wide_settings neverNumeric (configValue sampleWideConfig)
                  Hv Hw)).
Defined.

Lemma in_range_configuration_is_accepted_witness :
  validateConfig neverNumeric (configValue sampleWideConfig) = Js.Ok [].
Proof.
  exact (proj1 (in_range_configuration_is_accepted neverNumeric unit (fun _ => tt)
                  sampleWideConfig sampleWideConfig_inRange)).
Defined.

Lemma derived_wide_dimensions_witness :
  exists width height iconSize,
    Derived.wideWidth (Js.prop (configValue sampleConfig) "settings") = Js.Number width
    /\ Derived.wideHeight (Js.prop (configValue sampleConfig) "settings")
       = Js.Number height
    /\ Derived.wideIconSize (Js.prop (configValue sampleConfig) "settings")
       = Js.Number iconSize
    /\ width <> Js.NaN /\ notBelowOne width
    /\ height <> Js.NaN /\ notBelowOne height
    /\ notBelowOne iconSize.
Proof.
  assert (Hv : validateConfig neverNumeric (configValue sampleConfig) = Js.Ok [])
    by reflexivity.
  exact (derived_wide_dimensions neverNumeric (configValue sampleConfig) Hv).
Defined.

Lemma default_canvas_is_not_checked_witness :
  Derived.wideIconSize (Js.prop (configValue sampleConfig) "settings")
  = Js.Number (Js.Finite 512%Q)
  /\ (compositeTop 180%Q 512%Q <= 0)%Z.
Proof.
  assert (Hsize : (180 < Config.size sampleConfig)%Q) by reflexivity.
  destruct (default_canvas_is_not_checked neverNumeric sampleConfig
              sampleConfig_inRange eq_refl Hsize) as (_ & _ & _ & Hi & _ & Ht).
  split; [exact Hi | exact Ht].
Defined.

(** ** The cache under fetches that bypass it *)

Section CacheFacts.

Variable isUrl : string -> bool.
Variable World : Type.
Variable httpGet : string -> World -> Js.exc string * World.
Variable readLocalFile : string -> World -> Js.exc string * World.

(** X19.  An entry of the cache is never refreshed.  Once a source is
    cached, fetches that run one after another, through the cache or past
    it, leave its entry as it is; a fetch of that source through the cache
    returns the cached text without a retrieval; and a fetch past the cache
    that retrieves another text returns that text and still leaves the old
    one in the cache. *)
Theorem cache_entry_is_never_refreshed source content requests st results st' :
  FetchState.cache (fst st) !! source = Some content ->
  fetchEach isUrl World httpGet readLocalFile requests st = (results, st') ->
  FetchState.cache (fst st') !! source = Some content
  /\ fetchContent isUrl World httpGet readLocalFile source true st'
     = (Js.Ok content, st')
  /\ forall fresh w,
       retrieve isUrl World httpGet readLocalFile source (snd st') = (Js.Ok fresh, w) ->
       exists st'',
         fetchContent isUrl World httpGet readLocalFile source false st'
         = (Js.Ok fresh, st'')
         /\ FetchState.cache (fst st'') = FetchState.cache (fst st')
         /\ retrievalsOf source (FetchState.log (fst st''))
            = S (retrievalsOf source (FetchState.log (fst st'))).
Proof.
  intros Hc Hrun.
  pose proof (fetchEach_cache_stable isUrl World httpGet readLocalFile
                source content requests st Hc) as Hstable.
  rewrite Hrun in Hstable. cbn [fst snd] in Hstable.
  split; [exact Hstable|]. split; [now apply fetchContent_hit|].
  intros fresh w Hretrieve.
  unfold fetchContent, fetchContent_start. rewrite Hretrieve.
  cbn [fetchContent_finish]. eexists. split; [reflexivity|].
  cbn [fst snd FetchState.cache FetchState.log]. split; [reflexivity|].
  rewrite !retrievalsOf_app. unfold retrievalsOf at 2 3. cbn [List.filter length].
  rewrite String.eqb_refl. cbn. lia.
Qed.

End CacheFacts.

(** ** Calls that start together *)

Lemma startEach_cache sources : forall st,
  FetchState.cache (snd (startEach sources st)) = FetchState.cache st.
Proof.
  induction sources as [|source sources IH]; intros st; [reflexivity|].
  cbn [startEach]. unfold fetchContent_start.
  destruct (FetchState.cache st !! source) as [cached|].
  - specialize (IH st). destruct (startEach sources st) as [answers st2]. exact IH.
  - match goal with
    | |- context [startEach sources ?s] =>
        specialize (IH s); destruct (startEach sources s) as [answers st2]
    end.
    exact IH.
Qed.

(** X20.  The calls of [fetchContent] that start together do not see each
    other: none of them changes the cache, each is answered from the cache
    as it was when the first started, and each of those that miss starts a
    retrieval of its own, so a source that is not cached is retrieved as
    many times as it is asked for. *)
Theorem calls_that_start_together_all_miss sources st :
  FetchState.cache (snd (startEach sources st)) = FetchState.cache st
  /\ fst (startEach sources st) = map (answerOf st) sources
  /\ forall source,
       retrievalsOf source (FetchState.log (snd (startEach sources st)))
       = retrievalsOf source (FetchState.log st)
         + match FetchState.cache st !! source with
           | Some _ => 0
           | None => count_occ String.string_dec sources source
           end.
Proof.
  split; [apply startEach_cache|].
  revert st. induction sources as [|first sources IH]; intros st.
  - split; [reflexivity|]. intros source. cbn.
    destruct (FetchState.cache st !! source); lia.
  - cbn [startEach map]. unfold fetchContent_start.
    destruct (FetchState.cache st !! first) as [cached|] eqn:Hfirst.
    + destruct (IH st) as [Hanswers Hlog].
      destruct (startEach sources st) as [answers st2]. cbn [fst snd] in *.
      split.
      * unfold answerOf at 1. rewrite Hfirst. now f_equal.
      * intros source. rewrite Hlog.
        destruct (FetchState.cache st !! source) eqn:Hs; [reflexivity|].
        cbn [count_occ]. destruct (String.string_dec first source) as [->|]; [|reflexivity].
        congruence.
    + match goal with
      | |- context [startEach sources ?s] =>
          destruct (IH s) as [Hanswers Hlog];
          destruct (startEach sources s) as [answers st2]
      end.
      cbn [fst snd FetchState.cache FetchState.log] in *.
      split.
      * unfold answerOf at 1. rewrite Hfirst. f_equal. exact Hanswers.
      * intros source. rewrite Hlog, retrievalsOf_app.
        unfold retrievalsOf at 2. cbn [List.filter length count_occ].
        destruct (String.string_dec first source) as [->|Hne].
        -- rewrite String.eqb_refl, Hfirst. cbn. lia.
        -- apply String.eqb_neq in Hne. rewrite Hne. cbn.
           destruct (FetchState.cache st !! source); lia.
Qed.

Lemma cache_entry_is_never_refreshed_witness :
  fetchContent (fun _ => true) unit sampleHttpGet sampleHttpGet keyUrl true
    (snd (fetchEach (fun _ => true) unit sampleHttpGet sampleHttpGet
            [(keyUrl, false); ("https://example.com/icons/missing.svg", true)]
            ({| FetchState.cache := {[ keyUrl := "<svg id='old'/>" ]};
                FetchState.log := [] |}, tt)))
  = (Js.Ok "<svg id='old'/>",
     snd (fetchEach (fun _ => true) unit sampleHttpGet sampleHttpGet
            [(keyUrl, false); ("https://example.com/icons/missing.svg", true)]
            ({| FetchState.cache := {[ keyUrl := "<svg id='old'/>" ]};
                FetchState.log := [] |}, tt))).
Proof.
  refine (proj1 (proj2 (cache_entry_is_never_refreshed (fun _ => true) unit
                          sampleHttpGet sampleHttpGet keyUrl "<svg id='old'/>"
                          [(keyUrl, false);
                           ("https://example.com/icons/missing.svg", true)]
                          ({| FetchState.cache := {[ keyUrl := "<svg id='old'/>" ]};
                              FetchState.log := [] |}, tt)
                          _ _ _ _))).
  - apply lookup_singleton_eq.
  - apply surjective_pairing.
Defined.
